(** * The card-game server: a shallow embedding and its properties

    The development follows [server/server.py]: the [GameServer] request
    handlers and the websocket [MessageHandler] are translated statement by
    statement into a state-and-exception monad.  The classes the server
    imports ([Card], [PlayerMove], [HandInfo], [Player], [HumanPlayer],
    [CardGame], [ScoreKeeper], [MessageWriter]) are described by the
    specification only; each of them is introduced by a comment that says
    so. *)

From Stdlib Require Import ZArith String List Lia.
From stdpp Require Import base option list strings gmap.

#[local] Open Scope string_scope.
#[local] Open Scope list_scope.

(** ** Values that travel over the socket *)

(** The scalar values of a decoded JSON request.  Player names, team names,
    player ids, suits and ranks are all stored by the server exactly as they
    were received, so they share this type. *)
Inductive JVal : Type :=
| JNum (n : Z)
| JStr (s : string).

#[global] Instance JVal_eq_dec : EqDecision JVal.
Proof. solve_decision. Defined.

#[global] Instance JVal_countable : Countable JVal.
Proof.
  refine (inj_countable'
            (fun v => match v with JNum n => inl n | JStr s => inr s end)
            (fun x => match x with inl n => JNum n | inr s => JStr s end) _).
  intros []; reflexivity.
Defined.

(** A decoded request: the Python dict produced by [json_decode]. *)
Abbreviation Request := (gmap string JVal).

(** ** Exceptions and results *)

Inductive Exn : Type :=
| KeyError (key : string)          (* req['k'] on a request without k *)
| AttributeError                   (* a method called on None or on a non-writer *)
| TypeError                        (* a call with the wrong shape *)
| IndexError                       (* a position outside a list *)
| LookupError                      (* no roster member answers the lookup *)
| DeckExhaustedError
| InvalidTrumpError
| DealOrderError
| MatchAlreadyDecidedError
| TrickAlreadyCompleteError
| DuplicatePlayerError
| IncompleteTrickError
| NoDecisionYetError
| CardNotInHandError.

#[global] Instance Exn_eq_dec : EqDecision Exn.
Proof. solve_decision. Defined.

(** The result of a call that either returns or raises. *)
Inductive Res (A : Type) : Type :=
| Ok (a : A)
| Raise (e : Exn).
Arguments Ok {A} a.
Arguments Raise {A} e.

(** A stateful computation over a state [S].  [None] is the one outcome that
    is not a Python outcome: the iteration bound of a modelled [while] loop
    was used up (see [GameServer.askLoop]). *)
Definition M (S A : Type) : Type := S -> option (Res A * S).

Definition ret {S A} (a : A) : M S A := fun s => Some (Ok a, s).

Definition raise {S A} (e : Exn) : M S A := fun s => Some (Raise e, s).

Definition bind {S A B} (m : M S A) (k : A -> M S B) : M S B :=
  fun s =>
    match m s with
    | Some (Ok a, s') => k a s'
    | Some (Raise e, s') => Some (Raise e, s')
    | None => None
    end.

(** [try: m except Exception as ex: h ex].  The state reached when the
    exception was raised is kept: Python does not roll mutations back. *)
Definition tryExcept {S A} (m : M S A) (h : Exn -> M S A) : M S A :=
  fun s =>
    match m s with
    | Some (Raise e, s') => h e s'
    | other => other
    end.

Definition liftRes {S A} (r : Res A) : M S A :=
  match r with
  | Ok a => ret a
  | Raise e => raise e
  end.

Declare Scope server_scope.
Delimit Scope server_scope with server.
Notation "x <- m ;; k" := (bind m (fun x => k))
  (at level 100, m at next level, right associativity) : server_scope.
Notation "m ;;; k" := (bind m (fun _ => k))
  (at level 100, right associativity) : server_scope.

(** ** Constants of the absent modules *)

(** Modelled from the spec: the constants that the engine modules fix and the
    server never passes.  [winThreshold] is the score that decides a match,
    [trickValue] what [registerWin] credits for a trick, [firstDealCount] the
    size of the partial hand, [suits] the four suits, and [plainOrder] and
    [trumpOrder] the two configurable rank tables. *)
Class Rules : Type := {
  winThreshold : nat;
  trickValue : nat;
  firstDealCount : nat;
  suits : list JVal;
  plainOrder : JVal -> nat;
  trumpOrder : JVal -> nat
}.

(** What the interpreter contributes to [hasattr] and [getattr] on a
    [GameServer] instance: the attribute names every object inherits, and the
    outcome of calling such an attribute with a request (it returns or
    raises, and touches no attribute of the server). *)
Class Runtime : Type := {
  objectAttrs : list string;
  callObjectAttr : string -> Res unit
}.

(** ** cards.Card *)

Module Card.

(** Modelled from the spec: an immutable (suit, rank) value with equality by
    both components.  The constructor takes the suit first, as in
    [Card(req['suit'], req['rank'])]. *)
Record t : Type := mk { suit : JVal; rank : JVal }.

#[global] Instance eq_dec : EqDecision t.
Proof. solve_decision. Defined.

End Card.

(** ** player.Player and player.HumanPlayer *)

Module Player.

(** Modelled from the spec: the two capabilities of the absent [player]
    module; [HumanPlayer] is the subclass the server tests with
    [isinstance]. *)
Inductive Kind : Type := Human | Automated.

#[global] Instance Kind_eq_dec : EqDecision Kind.
Proof. solve_decision. Defined.

(** Modelled from the spec: [{id, name, team, hand}]; the hand is kept in
    the order in which the cards were dealt. *)
Record t : Type := mk {
  id : JVal;
  name : JVal;
  team : JVal;
  kind : Kind;
  cards : list Card.t
}.

#[global] Instance eq_dec : EqDecision t.
Proof. solve_decision. Defined.

(** Modelled from the spec: the constructor [HumanPlayer(id, name, team)],
    called this way by [createPlayers]; a new player holds no card. *)
Definition HumanPlayer (i n tm : JVal) : t := mk i n tm Human [].

(** Modelled from the spec: the constructor [Player(id, name, team)] of an
    automated player. *)
Definition Player (i n tm : JVal) : t := mk i n tm Automated [].

(** [isinstance(player, HumanPlayer)] *)
Definition isHuman (p : t) : bool :=
  match kind p with
  | Human => true
  | Automated => false
  end.

(** Modelled from the spec: [getCards()], the read-only view of the hand. *)
Definition getCards (p : t) : list Card.t := cards p.

(** The same player with another hand. *)
Definition setCards (cs : list Card.t) (p : t) : t :=
  mk (id p) (name p) (team p) (kind p) cs.

(** The hand without the first occurrence of the card. *)
Fixpoint removeFirst (c : Card.t) (cs : list Card.t) : list Card.t :=
  match cs with
  | [] => []
  | c' :: rest => if bool_decide (c' = c) then rest else c' :: removeFirst c rest
  end.

(** Modelled from the spec: fails with [CardNotInHandError] if absent. *)
Definition removeCard (c : Card.t) (p : t) : Res t :=
  if bool_decide (c ∈ cards p) then Ok (setCards (removeFirst c (cards p)) p)
  else Raise CardNotInHandError.

End Player.

(** ** cards.PlayerMove *)

Module PlayerMove.

(** Modelled from the spec: one (player, card) entry of a trick, built by
    [PlayerMove(player, card)].  The move keeps the [Player] object it was
    given.  The id, the name, the team and the class of a player are fixed
    by its constructor; its cards are the one thing that changes later.
    The server reads only the id through a move, and the one operation that
    needs the cards, [validateMove], gets them from its caller, who has
    built the move from the player just before.  So the model keeps the
    object as it stood when the move was built. *)
Record t : Type := mk { player : Player.t; card : Card.t }.

#[global] Instance eq_dec : EqDecision t.
Proof. solve_decision. Defined.

(** Modelled from the spec: [getPlayer()], the player held by the move. *)
Definition getPlayer (m : t) : Player.t := player m.

End PlayerMove.

(** ** cards.HandInfo: the trick *)

Module HandInfo.

(** Modelled from the spec: the number of players of a trick, fixed inside
    the absent [cards] module; the game has four players and [HandInfo()]
    takes no argument. *)
Definition numPlayers : nat := 4.

(** Modelled from the spec: [{moves, ledSuit}]. *)
Record t : Type := mk { moves : list PlayerMove.t; ledSuit : option JVal }.

#[global] Instance eq_dec : EqDecision t.
Proof. solve_decision. Defined.

(** Modelled from the spec: [HandInfo()], the trick in its EMPTY state. *)
Definition new : t := mk [] None.

(** Modelled from the spec: the count of moves already made. *)
Definition getStep (h : t) : nat := length (moves h).

(** Modelled from the spec: [len(moves) == numPlayers]. *)
Definition isComplete (h : t) : bool :=
  bool_decide (length (moves h) = numPlayers).

(** Modelled from the spec: the player already has a move in this trick. *)
Definition hasMoved (who : JVal) (h : t) : bool :=
  bool_decide
    (who ∈ (fun m => Player.id (PlayerMove.player m)) <$> moves h).

(** Modelled from the spec: appends the move and sets [ledSuit] on the first
    one; fails on a complete trick and on a second move of one player. *)
Definition addPlayerMove (m : PlayerMove.t) (h : t) : Res t :=
  if isComplete h then Raise TrickAlreadyCompleteError
  else if hasMoved (Player.id (PlayerMove.player m)) h
  then Raise DuplicatePlayerError
  else Ok (mk (moves h ++ [m])
              (match moves h with
               | [] => Some (Card.suit (PlayerMove.card m))
               | _ :: _ => ledSuit h
               end)).

(** Modelled from the spec: the hand holds at least one card of the suit. *)
Definition holdsSuit (s : JVal) (held : list Card.t) : bool :=
  existsb (fun c => bool_decide (Card.suit c = s)) held.

(** Modelled from the spec: must-follow-suit.  A player who holds a card of
    the led suit must play that suit; otherwise any card is allowed. *)
Definition followsSuit (h : t) (held : list Card.t) (c : Card.t) : bool :=
  match ledSuit h with
  | Some led =>
      if holdsSuit led held then bool_decide (Card.suit c = led) else true
  | None => true
  end.

(** Modelled from the spec: [validateMove(move, trumpSuit)].  [held] is the
    hand of the move's player at the time of the call.  The card has to
    come from that hand and has to follow suit; the
    trump suit does not restrict the move (the weaker rule of the spec). *)
Definition validatePlayerMove (h : t) (held : list Card.t)
    (m : PlayerMove.t) (trumpSuit : option JVal) : bool :=
  bool_decide (PlayerMove.card m ∈ held)
  && followsSuit h held (PlayerMove.card m).

(** Modelled from the spec: the moves that used the suit. *)
Definition ofSuit (s : JVal) (ms : list PlayerMove.t) : list PlayerMove.t :=
  filter (fun m => Card.suit (PlayerMove.card m) = s) ms.

(** Modelled from the spec: the highest-ranked move under the table
    [score], the first one among equals. *)
Definition best (score : JVal -> nat) (ms : list PlayerMove.t)
  : option PlayerMove.t :=
  foldl (fun acc m =>
           match acc with
           | None => Some m
           | Some b =>
               if Nat.ltb (score (Card.rank (PlayerMove.card b)))
                          (score (Card.rank (PlayerMove.card m)))
               then Some m else Some b
           end) None ms.

(** Modelled from the spec: the highest trump move wins if a trump was
    played, otherwise the highest move of the led suit; fails on a trick
    that is not complete. *)
Definition decideWinner `{Rules} (h : t) (trumpSuit : option JVal)
  : Res PlayerMove.t :=
  if negb (isComplete h) then Raise IncompleteTrickError
  else
    let trumps :=
      match trumpSuit with
      | Some tr => ofSuit tr (moves h)
      | None => []
      end in
    match best trumpOrder trumps with
    | Some w => Ok w
    | None =>
        match ledSuit h with
        | Some led =>
            match best plainOrder (ofSuit led (moves h)) with
            | Some w => Ok w
            | None => Raise IncompleteTrickError
            end
        | None => Raise IncompleteTrickError
        end
    end.

End HandInfo.

(** ** player.Player: the move of an automated player *)

Module AutomatedPlayer.

(** Modelled from the spec: [AutomatedPlayer.getNextMove(hand, trumpSuit)], the
    method a [HumanPlayer] does not have.  An automated player returns a
    legal card from its hand, here the first one, and the card leaves the
    hand (the hand shrinks by one whenever a move is accepted, and the
    server removes the card itself only for the move of [makeMove]).  An
    automated player without a legal card cannot pick one.  The definition
    stands apart from [Player] because it needs the trick. *)
Definition getNextMove (p : Player.t) (h : HandInfo.t)
    (trumpSuit : option JVal) : Res (Card.t * Player.t) :=
  match Player.kind p with
  | Player.Human => Raise AttributeError
  | Player.Automated =>
      match find (fun c => HandInfo.validatePlayerMove h (Player.cards p)
                             (PlayerMove.mk p c) trumpSuit)
                 (Player.cards p) with
      | Some c =>
          Ok (c, Player.setCards (Player.removeFirst c (Player.cards p)) p)
      | None => Raise IndexError
      end
  end.

End AutomatedPlayer.

(** ** game.ScoreKeeper *)

Module ScoreKeeper.

(** Modelled from the spec: [teamScores], a mapping from team to accumulated
    points; the threshold is [winThreshold]. *)
Record t : Type := mk { teamScores : gmap JVal nat }.

(** Modelled from the spec: [ScoreKeeper(players)]; every team of the
    roster starts at zero. *)
Definition new (players : list Player.t) : t :=
  mk (list_to_map ((fun p => (Player.team p, 0)) <$> players)).

(** The accumulated points of a team; zero for a team the keeper has never
    seen. *)
Definition scoreOf (tm : JVal) (sk : t) : nat :=
  default 0 (teamScores sk !! tm).

(** Modelled from the spec: credits the team of the player with the value of
    the trick. *)
Definition registerWin `{Rules} (p : Player.t) (sk : t) : t :=
  mk (<[Player.team p := scoreOf (Player.team p) sk + trickValue]>
        (teamScores sk)).

(** Modelled from the spec: the read-only snapshot. *)
Definition getScores (sk : t) : gmap JVal nat := teamScores sk.

(** Modelled from the spec: the score of the entry reaches or exceeds
    [winThreshold]. *)
Definition reached `{Rules} (entry : JVal * nat) : bool :=
  Nat.leb winThreshold (snd entry).

(** Modelled from the spec: true once a team has reached the threshold. *)
Definition isGameDecided `{Rules} (sk : t) : bool :=
  existsb reached (map_to_list (teamScores sk)).

(** Modelled from the spec: the team that meets the threshold; fails with
    [NoDecisionYetError] when there is none. *)
Definition getWinningTeam `{Rules} (sk : t) : Res JVal :=
  match find reached (map_to_list (teamScores sk)) with
  | Some entry => Ok (fst entry)
  | None => Raise NoDecisionYetError
  end.

(** Modelled from the spec: resets both teams to zero. *)
Definition clearTeamScores (sk : t) : t :=
  mk ((fun _ => 0) <$> teamScores sk).

End ScoreKeeper.

(** ** game.CardGame *)

Module CardGame.

(** Modelled from the spec: [{players, playingOrder, startingIndex,
    trumpSuit}] together with the deck of the round, the mark left by
    [dealFirstCards] and the mark left by [processWin].  [players] holds the
    Player objects themselves; [playingOrder] lists roster positions. *)
Record t : Type := mk {
  id : string;
  players : list Player.t;
  deck : list Card.t;
  startingPlayerIndex : nat;
  playingOrder : list nat;
  trumpSuit : option JVal;
  firstCardsDealt : bool;
  decidedFor : option JVal
}.

(** Modelled from the spec: [CardGame(players)], with a deck built and
    shuffled for the first round.  The id, the outcome of the shuffle and
    the starting index come from outside: the spec leaves the starting
    index of a new game to a selection rule of the engine, so a caller that
    wants a given player to lead has to set it. *)
Definition new (gid : string) (shuffled : list Card.t) (selected : nat)
    (ps : list Player.t) : t :=
  mk gid ps shuffled selected [] None false None.

(** The same game with another roster, and with another deck. *)
Definition setPlayers (ps : list Player.t) (g : t) : t :=
  mk (id g) ps (deck g) (startingPlayerIndex g) (playingOrder g)
     (trumpSuit g) (firstCardsDealt g) (decidedFor g).

Definition setDeck (d : list Card.t) (g : t) : t :=
  mk (id g) (players g) d (startingPlayerIndex g) (playingOrder g)
     (trumpSuit g) (firstCardsDealt g) (decidedFor g).

(** The assignment [cardGame.startingPlayerIndex = i]. *)
Definition setStartingPlayerIndex (i : nat) (g : t) : t :=
  mk (id g) (players g) (deck g) i (playingOrder g)
     (trumpSuit g) (firstCardsDealt g) (decidedFor g).

(** Modelled from the spec: [getPlayers()], the roster in its order. *)
Definition getPlayers (g : t) : list Player.t := players g.

(** Modelled from the spec: [getOrder()], the current playing order. *)
Definition getOrder (g : t) : list nat := playingOrder g.

(** Modelled from the spec: fixes the rotation, starting at
    [startingPlayerIndex]. *)
Definition setPlayingOrder (g : t) : t :=
  let n := length (players g) in
  mk (id g) (players g) (deck g) (startingPlayerIndex g)
     ((fun i => (startingPlayerIndex g + i) mod n) <$> seq 0 n)
     (trumpSuit g) (firstCardsDealt g) (decidedFor g).

(** Modelled from the spec: [getPlayerById] is absent and the spec names no
    such operation; as the server uses it, it returns the roster member with
    that id, and the lookup fails when there is none.  It is a call on the
    engine, and the spec lets every such call fail once the match is
    concluded. *)
Definition getPlayerById (i : JVal) (g : t) : Res Player.t :=
  match decidedFor g with
  | Some _ => Raise MatchAlreadyDecidedError
  | None =>
      match find (fun p => bool_decide (Player.id p = i)) (players g) with
      | Some p => Ok p
      | None => Raise LookupError
      end
  end.

(** The roster in which the first player equal to [old] has become [new]. *)
Fixpoint replaceFirst (old new : Player.t) (ps : list Player.t)
  : list Player.t :=
  match ps with
  | [] => []
  | p :: rest =>
      if bool_decide (p = old) then new :: rest
      else p :: replaceFirst old new rest
  end.

(** A mutation of a Player object, seen from the roster that holds it: the
    object that was [old] is now [new]. *)
Definition putPlayer (old new : Player.t) (g : t) : t :=
  setPlayers (replaceFirst old new (players g)) g.

(** The player at roster position [i] takes [count] cards from the front. *)
Definition giveTo (count : nat) (st : list Player.t * list Card.t) (i : nat)
  : list Player.t * list Card.t :=
  (alter (fun p => Player.setCards (Player.cards p ++ take count (snd st)) p)
         i (fst st),
   drop count (snd st)).

(** Modelled from the spec: [dealPartial], in playing order, from the front
    of the shuffled sequence. *)
Definition dealPartial (count : nat) (g : t) : Res t :=
  if Nat.ltb (length (deck g)) (count * length (players g))
  then Raise DeckExhaustedError
  else
    let st := foldl (giveTo count) (players g, deck g) (playingOrder g) in
    Ok (setDeck (snd st) (setPlayers (fst st) g)).

(** Modelled from the spec: deals the partial hand to every player. *)
Definition dealFirstCards `{Rules} (g : t) : Res t :=
  match dealPartial firstDealCount g with
  | Ok g' =>
      Ok (mk (id g') (players g') (deck g') (startingPlayerIndex g')
             (playingOrder g') (trumpSuit g') true (decidedFor g'))
  | Raise e => Raise e
  end.

(** Modelled from the spec: records the trump suit; fails when called before
    [dealFirstCards] or with something that is not one of the four suits. *)
Definition chooseTrump `{Rules} (s : JVal) (g : t) : Res t :=
  if firstCardsDealt g && bool_decide (s ∈ suits)
  then Ok (mk (id g) (players g) (deck g) (startingPlayerIndex g)
              (playingOrder g) (Some s) (firstCardsDealt g) (decidedFor g))
  else Raise InvalidTrumpError.

(** Modelled from the spec: [dealRemainder], all cards left, evenly. *)
Definition dealRemainder (g : t) : Res t :=
  let share := length (deck g) / length (players g) in
  if bool_decide (share = 0) then Raise DeckExhaustedError
  else dealPartial share g.

(** Modelled from the spec: deals the remainder; fails with
    [DealOrderError] if the trump suit is unset. *)
Definition dealCards (g : t) : Res t :=
  match trumpSuit g with
  | None => Raise DealOrderError
  | Some _ => dealRemainder g
  end.

(** Modelled from the spec: the player at position
    [(startingIndex + step) mod numPlayers]; a move/trick operation, so it
    fails once the match is concluded. *)
Definition getNextPlayer (step : nat) (g : t) : Res Player.t :=
  match decidedFor g with
  | Some _ => Raise MatchAlreadyDecidedError
  | None =>
      match players g !! ((startingPlayerIndex g + step)
                          mod length (players g)) with
      | Some p => Ok p
      | None => Raise IndexError
      end
  end.

(** The roster position of the first player with id [i]. *)
Fixpoint indexOf (i : JVal) (ps : list Player.t) : option nat :=
  match ps with
  | [] => None
  | p :: rest =>
      if bool_decide (Player.id p = i) then Some 0
      else S <$> indexOf i rest
  end.

(** Modelled from the spec: re-anchors the rotation at the winner, keeping
    the relative order of the others; a move/trick operation. *)
Definition changePlayingOrder (winner : Player.t) (g : t) : Res t :=
  match decidedFor g with
  | Some _ => Raise MatchAlreadyDecidedError
  | None =>
      match indexOf (Player.id winner) (players g) with
      | Some i => Ok (setPlayingOrder (setStartingPlayerIndex i g))
      | None => Raise LookupError
      end
  end.

(** Modelled from the spec: releases the state of the round (deck, trump,
    deal mark) and retains the players; the next round gets a new shuffled
    deck. *)
Definition clearGame (shuffled : list Card.t) (g : t) : t :=
  mk (id g) (players g) shuffled (startingPlayerIndex g) (playingOrder g)
     None false (decidedFor g).

(** Modelled from the spec: marks the match concluded for [team]. *)
Definition processWin (team : JVal) (g : t) : t :=
  mk (id g) (players g) (deck g) (startingPlayerIndex g) (playingOrder g)
     (trumpSuit g) (firstCardsDealt g) (Some team).

End CardGame.

(** ** message.MessageWriter *)

(** One roster entry of the [startGame] response. *)
Record PlayerInfo : Type := mkPlayerInfo {
  info_index : nat;
  info_name : JVal;
  info_id : JVal;
  info_team : JVal;
  info_isHuman : bool
}.

(** The responses of the server, one constructor per value of the
    ['response'] key, and the error report of [sendError]. *)
Inductive Message : Type :=
| startGameMsg (resultCode : string) (players : list PlayerInfo)
    (playingOrder : list nat) (gameId : string)
| nextGameMsg (resultCode : string)
| dealFirstCardsMsg (cards : list Card.t)
| allCardsMsg (cards : list Card.t) (trumpSuit : JVal)
| askMoveMsg (hand : HandInfo.t)
| handPlayedMsg (hand : HandInfo.t) (winningCard : Card.t)
    (winningPlayerId : JVal) (scores : gmap JVal nat)
| invalidMoveMsg (playerId : JVal)
| gameDecidedMsg (scores : gmap JVal nat) (winningTeam : JVal)
| errorMsg (ex : Exn).

Definition response (m : Message) : string :=
  match m with
  | startGameMsg _ _ _ _ => "startGame"
  | nextGameMsg _ => "nextGame"
  | dealFirstCardsMsg _ => "dealFirstCards"
  | allCardsMsg _ _ => "allCards"
  | askMoveMsg _ => "askMove"
  | handPlayedMsg _ _ _ _ => "handPlayed"
  | invalidMoveMsg _ => "invalidMove"
  | gameDecidedMsg _ _ => "gameDecided"
  | errorMsg _ => "error"
  end.

Module MessageWriter.

(** Modelled from the spec: the transport delivers the messages in the order
    produced; [sent] lists them, oldest first. *)
Record t : Type := mk { sent : list Message }.

(** Modelled from the spec: [MessageWriter(handler)], nothing sent yet. *)
Definition new : t := mk [].

(** Modelled from the spec: every response is a single message. *)
Definition sendMessage (m : Message) (w : t) : t := mk (sent w ++ [m]).

(** Modelled from the spec: the error is surfaced to the caller. *)
Definition sendError (ex : Exn) (w : t) : t := mk (sent w ++ [errorMsg ex]).

End MessageWriter.

(** What the [writer] attribute of a server holds: [None] after
    [__init__], a writer after [setWriter(writer)], or whatever else
    [setWriter] was handed. *)
Inductive WriterSlot : Type :=
| NoWriter
| IsWriter (w : MessageWriter.t)
| NotWriter (v : Request).

(** What the run-time supplies when a game is built or cleared: the id of a
    new [CardGame] (already converted by [str]), the outcome of the shuffle,
    and the starting index that the constructor of a new game selects. *)
Record Env : Type := mkEnv {
  newGameId : string;
  shuffled : list Card.t;
  selectedIndex : nat
}.

(** ** server.GameServer *)

Module GameServer.

(** The attributes set by [__init__].  [players] lists the Player objects by
    reference (their ids): the objects themselves are the ones held by
    [cardGame], which receives the same roster. *)
Record t : Type := mk {
  players : list JVal;
  writer : WriterSlot;
  cardGame : option CardGame.t;
  scores : option ScoreKeeper.t;
  hand : option HandInfo.t
}.

(** [GameServer()] *)
Definition new : t := mk [] NoWriter None None None.

Definition withPlayers (ps : list JVal) (s : t) : t :=
  mk ps (writer s) (cardGame s) (scores s) (hand s).

Definition withWriter (w : WriterSlot) (s : t) : t :=
  mk (players s) w (cardGame s) (scores s) (hand s).

Definition withCardGame (g : option CardGame.t) (s : t) : t :=
  mk (players s) (writer s) g (scores s) (hand s).

Definition withScores (sk : option ScoreKeeper.t) (s : t) : t :=
  mk (players s) (writer s) (cardGame s) sk (hand s).

Definition withHand (h : option HandInfo.t) (s : t) : t :=
  mk (players s) (writer s) (cardGame s) (scores s) h.

(** The messages that have reached the client so far. *)
Definition outbox (s : t) : list Message :=
  match writer s with
  | IsWriter w => MessageWriter.sent w
  | _ => []
  end.

#[local] Open Scope server_scope.

Definition modify (f : t -> t) : M t unit := fun s => Some (Ok tt, f s).

(** Reading an attribute in order to call a method on it: [None] has no
    methods. *)
Definition theCardGame : M t CardGame.t :=
  fun s =>
    match cardGame s with
    | Some g => Some (Ok g, s)
    | None => Some (Raise AttributeError, s)
    end.

Definition theScores : M t ScoreKeeper.t :=
  fun s =>
    match scores s with
    | Some sk => Some (Ok sk, s)
    | None => Some (Raise AttributeError, s)
    end.

Definition theHand : M t HandInfo.t :=
  fun s =>
    match hand s with
    | Some h => Some (Ok h, s)
    | None => Some (Raise AttributeError, s)
    end.

(** [req[key]] *)
Definition field (req : Request) (key : string) : M t JVal :=
  match req !! key with
  | Some v => ret v
  | None => raise (KeyError key)
  end.

(** [self.writer.sendMessage(m)] *)
Definition sendMessage (m : Message) : M t unit :=
  fun s =>
    match writer s with
    | IsWriter w =>
        Some (Ok tt, withWriter (IsWriter (MessageWriter.sendMessage m w)) s)
    | _ => Some (Raise AttributeError, s)
    end.

(** [self.writer.sendError(ex)] *)
Definition sendError (ex : Exn) : M t unit :=
  fun s =>
    match writer s with
    | IsWriter w =>
        Some (Ok tt, withWriter (IsWriter (MessageWriter.sendError ex w)) s)
    | _ => Some (Raise AttributeError, s)
    end.

(** The handler that closes every request method:
    [except Exception as ex: self.writer.sendError(ex); raise]. *)
Definition report {A} (ex : Exn) : M t A := sendError ex ;;; raise ex.

Definition setWriter (w : WriterSlot) : M t unit := modify (withWriter w).

Definition createPlayers (playerName team1Name team2Name : JVal)
  : list Player.t :=
  let p1 := Player.HumanPlayer (JNum 1) playerName team1Name in
  let p2 := Player.Player (JNum 2) (JStr "Bob Marley") team1Name in
  let p3 := Player.Player (JNum 3) (JStr "Tupac Shakur") team2Name in
  let p4 := Player.Player (JNum 4) (JStr "Jimi Hendrix") team2Name in
  [p1; p3; p2; p4].

Definition playerInfo (i : nat) (player : Player.t) : PlayerInfo :=
  mkPlayerInfo i (Player.name player) (Player.id player) (Player.team player)
               (Player.isHuman player).

(** A Player object was mutated: the roster of the game sees the change.
    The moves of the trick keep the player as it stood when they were
    built. *)
Definition updatePlayer (old new : Player.t) : M t unit :=
  modify (fun s => withCardGame (CardGame.putPlayer old new <$> cardGame s) s).

Section Handlers.
Context `{Rules}.

Definition startGame (env : Env) (req : Request) : M t unit :=
  jsonResponse <-
    tryExcept
      (playerName <- field req "playerName" ;;
       playerTeam <- field req "playerTeam" ;;
       opponentTeam <- field req "opponentTeam" ;;
       let roster := createPlayers playerName playerTeam opponentTeam in
       modify (withPlayers (Player.id <$> roster)) ;;;
       modify (withCardGame
                 (Some (CardGame.new (newGameId env) (shuffled env)
                                      (selectedIndex env) roster))) ;;;
       modify (withScores (Some (ScoreKeeper.new roster))) ;;;
       (* override to set humanplayer as first *)
       g <- theCardGame ;;
       modify (withCardGame (Some (CardGame.setStartingPlayerIndex 0 g))) ;;;
       g <- theCardGame ;;
       modify (withCardGame (Some (CardGame.setPlayingOrder g))) ;;;
       g <- theCardGame ;;
       let playersList := imap playerInfo (CardGame.getPlayers g) in
       g <- theCardGame ;;
       let order := CardGame.getOrder g in
       g <- theCardGame ;;
       ret (startGameMsg "SUCCESS" playersList order (CardGame.id g)))
      report ;;
  sendMessage jsonResponse.

Definition nextGame (env : Env) (req : Request) : M t unit :=
  jsonResponse <-
    tryExcept
      (g <- theCardGame ;;
       modify (withCardGame (Some (CardGame.clearGame (shuffled env) g))) ;;;
       sk <- theScores ;;
       modify (withScores (Some (ScoreKeeper.clearTeamScores sk))) ;;;
       ret (nextGameMsg "SUCCESS"))
      report ;;
  sendMessage jsonResponse.

Definition dealFirstCards (request : Request) : M t unit :=
  response <-
    tryExcept
      (g <- theCardGame ;;
       g' <- liftRes (CardGame.dealFirstCards g) ;;
       modify (withCardGame (Some g')) ;;;
       g <- theCardGame ;;
       playerId <- field request "playerId" ;;
       player <- liftRes (CardGame.getPlayerById playerId g) ;;
       let firstCards := Player.getCards player in
       ret (dealFirstCardsMsg firstCards))
      report ;;
  sendMessage response.

Definition chooseTrump (request : Request) : M t unit :=
  tryExcept
    (trumpSuit <- field request "suit" ;;
     g <- theCardGame ;;
     g' <- liftRes (CardGame.chooseTrump trumpSuit g) ;;
     modify (withCardGame (Some g')) ;;;
     g <- theCardGame ;;
     g' <- liftRes (CardGame.dealCards g) ;;
     modify (withCardGame (Some g')) ;;;
     g <- theCardGame ;;
     playerId <- field request "playerId" ;;
     player <- liftRes (CardGame.getPlayerById playerId g) ;;
     let allCards := Player.getCards player in
     sendMessage (allCardsMsg allCards trumpSuit))
    report.

(** The [while not self.hand.isComplete()] loop of [askPlayers], run for at
    most [fuel] iterations.  Reaching a human player sends ['askMove'] and
    breaks; an automated player moves at once. *)
Fixpoint askLoop (fuel : nat) (trumpSuit : option JVal) : M t unit :=
  match fuel with
  | 0 => fun _ => None
  | S fuel' =>
      h <- theHand ;;
      if HandInfo.isComplete h then ret tt
      else
        g <- theCardGame ;;
        player <- liftRes (CardGame.getNextPlayer (HandInfo.getStep h) g) ;;
        if Player.isHuman player then
          h <- theHand ;;
          sendMessage (askMoveMsg h)
        else
          h <- theHand ;;
          move <- liftRes (AutomatedPlayer.getNextMove player h trumpSuit) ;;
          updatePlayer player (snd move) ;;;
          h <- theHand ;;
          h' <- liftRes (HandInfo.addPlayerMove
                           (PlayerMove.mk (snd move) (fst move)) h) ;;
          modify (withHand (Some h')) ;;;
          askLoop fuel' trumpSuit
  end.

Definition askPlayers : M t unit :=
  g <- theCardGame ;;
  let trumpSuit := CardGame.trumpSuit g in
  askLoop (S HandInfo.numPlayers) trumpSuit ;;;
  h <- theHand ;;
  if HandInfo.isComplete h then
    h <- theHand ;;
    winningMove <- liftRes (HandInfo.decideWinner h trumpSuit) ;;
    let winningPlayer := PlayerMove.getPlayer winningMove in
    sk <- theScores ;;
    modify (withScores (Some (ScoreKeeper.registerWin winningPlayer sk))) ;;;
    sk <- theScores ;;
    let scores := ScoreKeeper.getScores sk in
    g <- theCardGame ;;
    g' <- liftRes (CardGame.changePlayingOrder winningPlayer g) ;;
    modify (withCardGame (Some g')) ;;;
    h <- theHand ;;
    sendMessage (handPlayedMsg h (PlayerMove.card winningMove)
                               (Player.id winningPlayer) scores)
  else ret tt.

Definition makeMove (req : Request) : M t unit :=
  tryExcept
    (g <- theCardGame ;;
     playerId <- field req "playerId" ;;
     player <- liftRes (CardGame.getPlayerById playerId g) ;;
     suit <- field req "suit" ;;
     rank <- field req "rank" ;;
     let playedCard := Card.mk suit rank in
     let playerMove := PlayerMove.mk player playedCard in
     h <- theHand ;;
     g <- theCardGame ;;
     let validMove :=
       HandInfo.validatePlayerMove h (Player.getCards player) playerMove
                                   (CardGame.trumpSuit g) in
     if negb validMove then
       playerId <- field req "playerId" ;;
       sendMessage (invalidMoveMsg playerId)
     else
       h <- theHand ;;
       h' <- liftRes (HandInfo.addPlayerMove playerMove h) ;;
       modify (withHand (Some h')) ;;;
       player' <- liftRes (Player.removeCard playedCard player) ;;
       updatePlayer player player' ;;;
       askPlayers)
    report.

Definition isReady (req : Request) : M t unit :=
  tryExcept
    (sk <- theScores ;;
     if ScoreKeeper.isGameDecided sk then
       sk <- theScores ;;
       let scores := ScoreKeeper.getScores sk in
       sk <- theScores ;;
       winningTeam <- liftRes (ScoreKeeper.getWinningTeam sk) ;;
       g <- theCardGame ;;
       modify (withCardGame (Some (CardGame.processWin winningTeam g))) ;;;
       sendMessage (gameDecidedMsg scores winningTeam)
     else
       modify (withHand (Some HandInfo.new)) ;;;
       askPlayers)
    report.

End Handlers.

End GameServer.

(** ** server.MessageHandler *)

Module MessageHandler.

(** The handler of one open websocket, from [open] to [on_close]: the
    server created by [open] and the records written by [logging.error]
    (the debug and info records are left out). *)
Record t : Type := mk {
  gameServer : GameServer.t;
  errorLog : list string
}.

(** [open]: a new server with a writer on this socket. *)
Definition open : t :=
  mk (GameServer.withWriter (IsWriter MessageWriter.new) GameServer.new) [].

(** The names [__init__] gives to every instance. *)
Definition dataAttrs : list string :=
  ["players"; "writer"; "cardGame"; "scores"; "hand"].

(** The methods that take the request as their only argument. *)
Definition requestMethods : list string :=
  ["startGame"; "nextGame"; "dealFirstCards"; "chooseTrump"; "makeMove";
   "isReady"].

(** The other names defined in the class body. *)
Definition otherMethods : list string :=
  ["__init__"; "setWriter"; "createPlayers"; "askPlayers"].

(** [hasattr(self.gameServer, methodName)] *)
Definition hasattr `{Runtime} (methodName : string) : bool :=
  bool_decide (methodName ∈ dataAttrs ++ requestMethods ++ otherMethods
                             ++ objectAttrs).

(** Running a server computation inside the handler. *)
Definition onServer (m : M GameServer.t unit) : M t unit :=
  fun hd =>
    match m (gameServer hd) with
    | Some (r, s') => Some (r, mk s' (errorLog hd))
    | None => None
    end.

(** [getattr(self.gameServer, methodName)(req)] for a name that [hasattr]
    accepts. *)
Definition call `{Rules} `{Runtime} (env : Env) (methodName : string)
    (req : Request) : M t unit :=
  if bool_decide (methodName = "startGame") then
    onServer (GameServer.startGame env req)
  else if bool_decide (methodName = "nextGame") then
    onServer (GameServer.nextGame env req)
  else if bool_decide (methodName = "dealFirstCards") then
    onServer (GameServer.dealFirstCards req)
  else if bool_decide (methodName = "chooseTrump") then
    onServer (GameServer.chooseTrump req)
  else if bool_decide (methodName = "makeMove") then
    onServer (GameServer.makeMove req)
  else if bool_decide (methodName = "isReady") then
    onServer (GameServer.isReady req)
  else if bool_decide (methodName = "setWriter") then
    (* the request takes the place of the writer *)
    onServer (GameServer.setWriter (NotWriter req))
  else if bool_decide (methodName = "createPlayers") then
    (* a static method: the roster it returns is dropped *)
    ret tt
  else if bool_decide (methodName ∈ ["__init__"; "askPlayers"]) then
    (* one argument too many *)
    raise TypeError
  else if bool_decide (methodName ∈ dataAttrs) then
    (* a list, None or an instance: not callable *)
    raise TypeError
  else liftRes (callObjectAttr methodName).

Definition logError (methodName : string) : M t unit :=
  fun hd => Some (Ok tt, mk (gameServer hd) (errorLog hd ++ [methodName])).

(** [on_message]: [req] is the decoded message. *)
Definition on_message `{Rules} `{Runtime} (env : Env) (req : Request)
  : M t unit :=
  match req !! "command" with
  | None => raise (KeyError "command")
  | Some (JNum _) => raise TypeError   (* hasattr: the name must be a string *)
  | Some (JStr methodName) =>
      if hasattr methodName then call env methodName req
      else logError methodName
  end.

End MessageHandler.

(** ** Vocabulary of the properties *)

(** What never changes in a Player object. *)
Definition identity (p : Player.t) : JVal * JVal * JVal * Player.Kind :=
  (Player.id p, Player.name p, Player.team p, Player.kind p).

(** [g'] is [g] up to the cards the players hold. *)
Definition sameMatch (g g' : CardGame.t) : Prop :=
  CardGame.setPlayers (CardGame.players g) g' = g
  /\ identity <$> CardGame.players g' = identity <$> CardGame.players g.

(** Whose turn it is after [step] moves of a trick: the id and the
    capability of the player that [getNextPlayer] looks at. *)
Definition turnOf (g : CardGame.t) (step : nat)
  : option (JVal * Player.Kind) :=
  (fun p => (Player.id p, Player.kind p)) <$>
    CardGame.players g !! ((CardGame.startingPlayerIndex g + step)
                           mod length (CardGame.players g)).

(** Every move of [added] was made by the automated player whose turn it
    was, the first of them after [from] moves. *)
Definition automatedMoves (g : CardGame.t) (from : nat)
    (added : list PlayerMove.t) : Prop :=
  forall j m, added !! j = Some m ->
    turnOf g (from + j)
    = Some (Player.id (PlayerMove.player m), Player.Automated).

(** One of the turns of a trick belongs to a human player. *)
Definition humanTakesPart (g : CardGame.t) : Prop :=
  exists step i, step < HandInfo.numPlayers
                 /\ turnOf g step = Some (i, Player.Human).

(** The trick holds no more moves than there are players. *)
Definition wellFormed (h : HandInfo.t) : Prop :=
  length (HandInfo.moves h) <= HandInfo.numPlayers.

(** The trick was led by its first move. *)
Definition ledByFirst (h : HandInfo.t) : Prop :=
  HandInfo.ledSuit h
  = (fun m => Card.suit (PlayerMove.card m)) <$> head (HandInfo.moves h).

(** The match can go on with trick [h]: it is not concluded, four players
    with distinct ids sit at the table, the moves of the trick were made in
    turn, and every automated player whose turn is still to come holds a
    card. *)
Definition ready (g : CardGame.t) (h : HandInfo.t) : Prop :=
  CardGame.decidedFor g = None
  /\ length (CardGame.players g) = HandInfo.numPlayers
  /\ NoDup (Player.id <$> CardGame.players g)
  /\ (forall j m, HandInfo.moves h !! j = Some m ->
        exists k, turnOf g j = Some (Player.id (PlayerMove.player m), k))
  /\ (forall j p,
        length (HandInfo.moves h) <= j < HandInfo.numPlayers ->
        CardGame.players g !! ((CardGame.startingPlayerIndex g + j)
                               mod length (CardGame.players g)) = Some p ->
        Player.kind p = Player.Automated ->
        Player.cards p <> []).

(** The players of the game have distinct ids, and the playing order
    visits every seat of the roster once. *)
Definition seated (g : CardGame.t) : Prop :=
  NoDup (Player.id <$> CardGame.players g)
  /\ CardGame.playingOrder g ≡ₚ seq 0 (length (CardGame.players g)).

(** The score of a team as the server sees it. *)
Definition teamScore (tm : JVal) (s : GameServer.t) : nat :=
  default 0 (ScoreKeeper.scoreOf tm <$> GameServer.scores s).

(** The match held by the server has been concluded by [processWin]. *)
Definition isConcluded (s : GameServer.t) : Prop :=
  exists g tm, GameServer.cardGame s = Some g
               /\ CardGame.decidedFor g = Some tm.

(** From [s] to [s'] no team has lost points and a concluded match has
    stayed concluded. *)
Definition advances (s s' : GameServer.t) : Prop :=
  (forall tm, teamScore tm s <= teamScore tm s')
  /\ (isConcluded s -> isConcluded s').

(** The message is the error report of [sendError]. *)
Definition isErrorMsg (m : Message) : bool :=
  match m with
  | errorMsg _ => true
  | _ => false
  end.

(** One of the six request methods takes [s] to [s'] with result [r]. *)
Definition handles `{Rules} (env : Env) (req : Request)
    (s : GameServer.t) (r : Res unit) (s' : GameServer.t) : Prop :=
  GameServer.startGame env req s = Some (r, s')
  \/ GameServer.nextGame env req s = Some (r, s')
  \/ GameServer.dealFirstCards req s = Some (r, s')
  \/ GameServer.chooseTrump req s = Some (r, s')
  \/ GameServer.makeMove req s = Some (r, s')
  \/ GameServer.isReady req s = Some (r, s').

(** What the writer shows of a call that took [s] to [s'] with result [r]:
    with a writer, one more message, the error report exactly when the call
    raised; without one, no message and an [AttributeError]. *)
Definition replied (s : GameServer.t) (r : Res unit) (s' : GameServer.t)
  : Prop :=
  match GameServer.writer s with
  | IsWriter w =>
      exists m,
        GameServer.writer s' = IsWriter (MessageWriter.sendMessage m w)
        /\ match r with
           | Ok _ => isErrorMsg m = false
           | Raise e => m = errorMsg e
           end
  | _ => r = Raise AttributeError /\ GameServer.writer s' = GameServer.writer s
  end.

(** A step that either raises before it has written anything, or returns
    after it has sent one message that is no error report. *)
Definition sendsOnce (s : GameServer.t) (r : Res unit) (s' : GameServer.t)
  : Prop :=
  (exists e, r = Raise e /\ GameServer.writer s' = GameServer.writer s)
  \/ (r = Ok tt
      /\ exists w m,
           GameServer.writer s = IsWriter w
           /\ GameServer.writer s' = IsWriter (MessageWriter.sendMessage m w)
           /\ isErrorMsg m = false).

(** Every trick the server holds is well formed. *)
Definition trickOk (s : GameServer.t) : Prop :=
  forall h, GameServer.hand s = Some h -> wellFormed h.

(** ** A concrete table and a concrete session

    The properties below hold for every choice of [Rules] and [Runtime].
    This module fixes one choice, a deck and a short session, on which the
    properties are evaluated. *)

Module Demo.

Definition S1 : JVal := JStr "S1".
Definition S2 : JVal := JStr "S2".
Definition S3 : JVal := JStr "S3".
Definition S4 : JVal := JStr "S4".

Definition suitList : list JVal := [S1; S2; S3; S4].

Definition rankList : list JVal :=
  [JNum 7; JNum 8; JNum 9; JNum 10; JStr "J"; JStr "Q"; JStr "K"; JStr "A"].

(** A > K > Q > J > 10 > 9 > 8 > 7, for both tables. *)
Definition rankIndex (r : JVal) : nat :=
  default 0 (fst <$> list_find (fun x => x = r) rankList).

Definition rules : Rules :=
  {| winThreshold := 16;
     trickValue := 7;
     firstDealCount := 5;
     suits := suitList;
     plainOrder := rankIndex;
     trumpOrder := rankIndex |}.

Definition runtime : Runtime :=
  {| objectAttrs := ["__class__"; "__dict__"; "__doc__"; "__module__"];
     callObjectAttr := fun _ => Raise TypeError |}.

(** The 32 cards, rank by rank. *)
Definition deck32 : list Card.t :=
  r ← rankList; (fun s => Card.mk s r) <$> suitList.

Definition env : Env := mkEnv "game-1" deck32 2.

Definition request (fields : list (string * JVal)) : Request :=
  list_to_map fields.

Definition startReq : Request :=
  request [("command", JStr "startGame"); ("playerName", JStr "Ann");
           ("playerTeam", JStr "East"); ("opponentTeam", JStr "West")].

Definition nextReq : Request := request [("command", JStr "nextGame")].

Definition dealReq : Request :=
  request [("command", JStr "dealFirstCards"); ("playerId", JNum 1)].

Definition trumpReq : Request :=
  request [("command", JStr "chooseTrump"); ("playerId", JNum 1);
           ("suit", S1)].

Definition readyReq : Request := request [("command", JStr "isReady")].

Definition moveReq (s r : JVal) : Request :=
  request [("command", JStr "makeMove"); ("playerId", JNum 1);
           ("suit", s); ("rank", r)].

(** The state of the server once the handler has processed one more
    request. *)
Definition send (rq : Request) (s : GameServer.t) : GameServer.t :=
  match @MessageHandler.on_message rules runtime env rq
          (MessageHandler.mk s []) with
  | Some (_, hd') => MessageHandler.gameServer hd'
  | None => s
  end.

(** What a server holds, for the servers below, which hold all of it. *)
Definition gameOf (s : GameServer.t) : CardGame.t :=
  default (CardGame.new "" [] 0 []) (GameServer.cardGame s).

Definition keeperOf (s : GameServer.t) : ScoreKeeper.t :=
  default (ScoreKeeper.mk ∅) (GameServer.scores s).

Definition trickOf (s : GameServer.t) : HandInfo.t :=
  default HandInfo.new (GameServer.hand s).

Definition writerOf (s : GameServer.t) : MessageWriter.t :=
  MessageWriter.mk (GameServer.outbox s).

Definition playerAt (i : nat) (s : GameServer.t) : Player.t :=
  default (Player.Player (JNum 0) (JNum 0) (JNum 0))
          (CardGame.players (gameOf s) !! i).

(** A player for the tricks that are written out by hand. *)
Definition seat (i : Z) : Player.t :=
  Player.Player (JNum i) (JStr "player") (JStr "team").

(** A newly opened socket, and the match that was started on it. *)
Definition opened : GameServer.t := MessageHandler.gameServer MessageHandler.open.

Definition started : GameServer.t := send startReq opened.

(** The match with the first cards dealt. *)
Definition dealt : GameServer.t := send dealReq started.

(** The same match once the human player has chosen S1 as trump. *)
Definition trumped : GameServer.t := send trumpReq dealt.

(** The same match, waiting for the first card of the human player. *)
Definition waiting : GameServer.t := send readyReq trumped.

(** The waiting match with the seven of S1 of the human player put on the
    trick and taken from the hand, as [makeMove] does before it calls
    [askPlayers]. *)
Definition led : GameServer.t :=
  match GameServer.cardGame waiting with
  | Some g =>
      match CardGame.getPlayerById (JNum 1) g with
      | Ok p =>
          GameServer.mk (GameServer.players waiting)
            (GameServer.writer waiting)
            (Some (CardGame.putPlayer p
                     (Player.setCards
                        (Player.removeFirst (Card.mk S1 (JNum 7))
                                            (Player.cards p)) p) g))
            (GameServer.scores waiting)
            (Some (HandInfo.mk [PlayerMove.mk p (Card.mk S1 (JNum 7))]
                               (Some S1)))
      | Raise _ => waiting
      end
  | None => waiting
  end.

(** The state in which [askPlayers] leaves it. *)
Definition resolved : GameServer.t :=
  match @GameServer.askPlayers rules led with
  | Some (_, s') => s'
  | None => led
  end.

(** The request by which the human player plays the first card of the hand
    that the current trick accepts. *)
Definition humanMove (s : GameServer.t) : Request :=
  match GameServer.cardGame s, GameServer.hand s with
  | Some g, Some h =>
      match CardGame.getPlayerById (JNum 1) g with
      | Ok p =>
          match find (fun c => HandInfo.validatePlayerMove h (Player.cards p)
                                 (PlayerMove.mk p c)
                                 (CardGame.trumpSuit g)) (Player.cards p) with
          | Some c => moveReq (Card.suit c) (Card.rank c)
          | None => readyReq
          end
      | Raise _ => readyReq
      end
  | _, _ => readyReq
  end.

(** One more trick: the client asks for the outcome of the round and then
    answers the ['askMove']. *)
Definition playTrick (s : GameServer.t) : GameServer.t :=
  let s1 := send readyReq s in send (humanMove s1) s1.

(** The match after [n] tricks. *)
Definition tricks (n : nat) : GameServer.t := Nat.iter n playTrick trumped.

(** The match after the first trick with a new empty trick in place, as
    [isReady] prepares it: the winner of the first trick, an automated
    player, leads. *)
Definition secondTrick : GameServer.t :=
  GameServer.withHand (Some HandInfo.new) (tricks 1).

(** The match after the trick that takes a team over the threshold, and
    after the client asked for the outcome: [processWin] has been called. *)
Definition decided : GameServer.t := tricks 3.

Definition concluded : GameServer.t := send readyReq decided.

(** A second match on the same socket, with other names, started while a
    trick of the first match is still in place: three moves made by the
    automated players of the first match, the human player being last. *)
Definition restartReq : Request :=
  request [("command", JStr "startGame"); ("playerName", JStr "Bea");
           ("playerTeam", JStr "North"); ("opponentTeam", JStr "South")].

Definition leftover : HandInfo.t :=
  HandInfo.mk
    [PlayerMove.mk (playerAt 1 trumped) (Card.mk S4 (JNum 9));
     PlayerMove.mk (playerAt 2 trumped) (Card.mk S4 (JNum 10));
     PlayerMove.mk (playerAt 3 trumped) (Card.mk S4 (JStr "A"))]
    (Some S4).

Definition rematch : GameServer.t :=
  send trumpReq
    (send dealReq (send restartReq (GameServer.withHand (Some leftover) trumped))).

End Demo.

(** * Properties *)

(** ** Running the monad *)

Lemma bind_inv {S A B} (m : M S A) (k : A -> M S B) s r s2 :
  bind m k s = Some (r, s2) ->
  (exists a s1, m s = Some (Ok a, s1) /\ k a s1 = Some (r, s2))
  \/ (exists e, m s = Some (Raise e, s2) /\ r = Raise e).
Proof.
  unfold bind. destruct (m s) as [[[a|e] s1]|]; intros E.
  - left. eauto.
  - right. inversion E; subst. eauto.
  - discriminate.
Qed.

Lemma bind_ok {S A B} (m : M S A) (k : A -> M S B) s a s1 :
  m s = Some (Ok a, s1) -> bind m k s = k a s1.
Proof. unfold bind. intros ->. reflexivity. Qed.

Lemma bind_raise {S A B} (m : M S A) (k : A -> M S B) s e s1 :
  m s = Some (Raise e, s1) -> bind m k s = Some (Raise e, s1).
Proof. unfold bind. intros ->. reflexivity. Qed.

(** Unfolds the primitive steps of a handler on a state whose attributes are
    known. *)
Ltac step :=
  unfold bind, tryExcept, ret, raise, liftRes, GameServer.report,
    GameServer.modify, GameServer.theCardGame, GameServer.theScores,
    GameServer.theHand, GameServer.field, GameServer.sendMessage,
    GameServer.sendError, GameServer.updatePlayer;
  cbn -[lookup].

(** ** The follow-suit rule *)

Lemma holdsSuit_true (led : JVal) (held : list Card.t) :
  HandInfo.holdsSuit led held = true <->
  exists c, c ∈ held /\ Card.suit c = led.
Proof.
  unfold HandInfo.holdsSuit. rewrite existsb_exists. split.
  - intros (c & Hin & Hc). exists c. split.
    + apply list_elem_of_In, Hin.
    + apply bool_decide_eq_true in Hc. exact Hc.
  - intros (c & Hin & Hc). exists c. split.
    + apply list_elem_of_In, Hin.
    + apply bool_decide_eq_true. exact Hc.
Qed.

Lemma holdsSuit_false (led : JVal) (held : list Card.t) :
  HandInfo.holdsSuit led held = false <->
  forall c, c ∈ held -> Card.suit c <> led.
Proof.
  split.
  - intros Hf c Hin Hc.
    assert (HandInfo.holdsSuit led held = true) as Ht
        by (apply holdsSuit_true; eauto).
    congruence.
  - intros Hall. destruct (HandInfo.holdsSuit led held) eqn:E; [|reflexivity].
    apply holdsSuit_true in E as (c & Hin & Hc). destruct (Hall c Hin Hc).
Qed.

(** C8.  For every trick with a led suit, every hand and every trump suit:
    a move whose card is not of the led suit is rejected whenever the hand
    of the acting player contains a card of the led suit; when the hand
    contains no card of the led suit, every card of the hand is accepted,
    whatever its suit. *)
Theorem validatePlayerMove_follow_suit
    (h : HandInfo.t) (held : list Card.t) (m : PlayerMove.t)
    (trumpSuit : option JVal) (led : JVal) :
  HandInfo.ledSuit h = Some led ->
  ((exists c, c ∈ held /\ Card.suit c = led) ->
   Card.suit (PlayerMove.card m) <> led ->
   HandInfo.validatePlayerMove h held m trumpSuit = false)
  /\ ((forall c, c ∈ held -> Card.suit c <> led) ->
      PlayerMove.card m ∈ held ->
      HandInfo.validatePlayerMove h held m trumpSuit = true).
Proof.
  intros Hled. unfold HandInfo.validatePlayerMove, HandInfo.followsSuit.
  rewrite Hled. split.
  - intros Hholds Hsuit. apply holdsSuit_true in Hholds. rewrite Hholds.
    rewrite (bool_decide_eq_false_2 _ Hsuit). apply andb_false_r.
  - intros Hnone Hin. apply holdsSuit_false in Hnone. rewrite Hnone.
    rewrite (bool_decide_eq_true_2 _ Hin). reflexivity.
Qed.

(** The scenario of the specification: the player holds the nine of S2
    and the ace of S3, S2 is led; the ace is rejected. *)
Lemma validatePlayerMove_follow_suit_witness :
  HandInfo.validatePlayerMove
    (HandInfo.mk [PlayerMove.mk (Demo.seat 3) (Card.mk Demo.S2 (JStr "K"))]
                 (Some Demo.S2))
    [Card.mk Demo.S2 (JNum 9); Card.mk Demo.S3 (JStr "A")]
    (PlayerMove.mk (Demo.seat 1) (Card.mk Demo.S3 (JStr "A")))
    (Some Demo.S4) = false.
Proof.
  apply (proj1 (validatePlayerMove_follow_suit
                  (HandInfo.mk [PlayerMove.mk (Demo.seat 3)
                                  (Card.mk Demo.S2 (JStr "K"))]
                               (Some Demo.S2))
                  [Card.mk Demo.S2 (JNum 9); Card.mk Demo.S3 (JStr "A")]
                  (PlayerMove.mk (Demo.seat 1) (Card.mk Demo.S3 (JStr "A")))
                  (Some Demo.S4) Demo.S2 eq_refl)).
  - exists (Card.mk Demo.S2 (JNum 9)). split; [left | reflexivity].
  - simpl. discriminate.
Defined.

(** The other scenarios of the specification, on the concrete tables. *)

Example four_trump_trick :
  @HandInfo.decideWinner Demo.rules
    (HandInfo.mk [PlayerMove.mk (Demo.seat 1) (Card.mk Demo.S1 (JNum 7));
                  PlayerMove.mk (Demo.seat 3) (Card.mk Demo.S1 (JStr "A"));
                  PlayerMove.mk (Demo.seat 2) (Card.mk Demo.S1 (JStr "K"));
                  PlayerMove.mk (Demo.seat 4) (Card.mk Demo.S1 (JNum 9))]
                 (Some Demo.S1))
    (Some Demo.S1)
  = Ok (PlayerMove.mk (Demo.seat 3) (Card.mk Demo.S1 (JStr "A"))).
Proof. reflexivity. Qed.

Example mixed_trick_no_trump :
  @HandInfo.decideWinner Demo.rules
    (HandInfo.mk [PlayerMove.mk (Demo.seat 1) (Card.mk Demo.S2 (JNum 9));
                  PlayerMove.mk (Demo.seat 3) (Card.mk Demo.S3 (JStr "A"));
                  PlayerMove.mk (Demo.seat 2) (Card.mk Demo.S2 (JStr "K"));
                  PlayerMove.mk (Demo.seat 4) (Card.mk Demo.S1 (JStr "Q"))]
                 (Some Demo.S2))
    (Some Demo.S4)
  = Ok (PlayerMove.mk (Demo.seat 2) (Card.mk Demo.S2 (JStr "K"))).
Proof. reflexivity. Qed.

Example legal_move_accepted :
  HandInfo.validatePlayerMove
    (HandInfo.mk [PlayerMove.mk (Demo.seat 3) (Card.mk Demo.S2 (JStr "K"))]
                 (Some Demo.S2))
    [Card.mk Demo.S2 (JNum 9); Card.mk Demo.S3 (JStr "A")]
    (PlayerMove.mk (Demo.seat 1) (Card.mk Demo.S2 (JNum 9)))
    (Some Demo.S4) = true.
Proof. reflexivity. Qed.

Example match_decision :
  let before := ScoreKeeper.mk (<[JStr "East" := 10]> (<[JStr "West" := 9]> ∅)) in
  let winner := Player.Player (JNum 2) (JStr "Bob Marley") (JStr "East") in
  @ScoreKeeper.isGameDecided Demo.rules before = false
  /\ @ScoreKeeper.isGameDecided Demo.rules
       (@ScoreKeeper.registerWin Demo.rules winner before) = true
  /\ @ScoreKeeper.getWinningTeam Demo.rules
       (@ScoreKeeper.registerWin Demo.rules winner before) = Ok (JStr "East").
Proof. repeat split; vm_compute; reflexivity. Qed.

(** ** Unknown commands *)

(** C10.  A message whose command is a name that is no attribute of the
    server is ignored: the server, and with it the writer and every message
    sent so far, is left as it was, the handler returns normally, and the
    only trace is the record written by [logging.error]. *)
Theorem on_message_unknown_command `{Rules} `{Runtime}
    (env : Env) (req : Request) (methodName : string)
    (hd : MessageHandler.t) :
  req !! "command" = Some (JStr methodName) ->
  MessageHandler.hasattr methodName = false ->
  MessageHandler.on_message env req hd =
    Some (Ok tt, MessageHandler.mk (MessageHandler.gameServer hd)
                   (MessageHandler.errorLog hd ++ [methodName])).
Proof.
  intros Hcmd Hattr. unfold MessageHandler.on_message.
  rewrite Hcmd, Hattr. reflexivity.
Qed.

Lemma on_message_unknown_command_witness :
  @MessageHandler.on_message Demo.rules Demo.runtime Demo.env
    (Demo.request [("command", JStr "shuffle")])
    (MessageHandler.mk Demo.waiting []) =
  Some (Ok tt, MessageHandler.mk Demo.waiting ["shuffle"]).
Proof.
  apply (@on_message_unknown_command Demo.rules Demo.runtime Demo.env
           (Demo.request [("command", JStr "shuffle")]) "shuffle"
           (MessageHandler.mk Demo.waiting [])).
  - vm_compute. reflexivity.
  - vm_compute. reflexivity.
Defined.

(** ** Rejected moves *)

(** C2.  When the card of a play-move request fails validation, [makeMove]
    returns normally and its only effect is one ['invalidMove'] message that
    echoes the player id: the trick, the roster with every hand, and the
    scores are those of the state before the call. *)
Theorem makeMove_invalid `{Rules}
    (req : Request) (s : GameServer.t) (g : CardGame.t) (h : HandInfo.t)
    (w : MessageWriter.t) (playerId suit rank : JVal) (player : Player.t) :
  GameServer.cardGame s = Some g ->
  GameServer.hand s = Some h ->
  GameServer.writer s = IsWriter w ->
  req !! "playerId" = Some playerId ->
  req !! "suit" = Some suit ->
  req !! "rank" = Some rank ->
  CardGame.getPlayerById playerId g = Ok player ->
  HandInfo.validatePlayerMove h (Player.getCards player)
    (PlayerMove.mk player (Card.mk suit rank))
    (CardGame.trumpSuit g) = false ->
  exists s',
    GameServer.makeMove req s = Some (Ok tt, s')
    /\ GameServer.outbox s' = GameServer.outbox s ++ [invalidMoveMsg playerId]
    /\ GameServer.hand s' = GameServer.hand s
    /\ GameServer.cardGame s' = GameServer.cardGame s
    /\ GameServer.scores s' = GameServer.scores s
    /\ GameServer.players s' = GameServer.players s.
Proof.
  intros Hg Hh Hw Hid Hsuit Hrank Hplayer Hvalid.
  destruct s as [ps wr cg sk hnd]. simpl in *. subst.
  eexists. split.
  - unfold GameServer.makeMove, GameServer.field.
    rewrite Hid, Hsuit, Hrank. step.
    rewrite Hplayer. step. rewrite Hvalid. reflexivity.
  - simpl. repeat split; reflexivity.
Qed.

(** In the waiting match the human player holds the seven of S2 but plays
    the eight of S2, which is not in the hand. *)
Lemma makeMove_invalid_witness :
  exists s',
    @GameServer.makeMove Demo.rules (Demo.moveReq Demo.S2 (JNum 8))
                         Demo.waiting = Some (Ok tt, s')
    /\ GameServer.outbox s' =
         GameServer.outbox Demo.waiting ++ [invalidMoveMsg (JNum 1)]
    /\ GameServer.hand s' = GameServer.hand Demo.waiting
    /\ GameServer.cardGame s' = GameServer.cardGame Demo.waiting
    /\ GameServer.scores s' = GameServer.scores Demo.waiting
    /\ GameServer.players s' = GameServer.players Demo.waiting.
Proof.
  refine (@makeMove_invalid Demo.rules (Demo.moveReq Demo.S2 (JNum 8))
            Demo.waiting
            (Demo.gameOf Demo.waiting)
            HandInfo.new
            (Demo.writerOf Demo.waiting)
            (JNum 1) Demo.S2 (JNum 8)
            (Demo.playerAt 0 Demo.waiting)
            _ _ _ _ _ _ _ _); vm_compute; reflexivity.
Defined.

(** ** Starting a match *)

(** C9.  [startGame] builds the roster of [createPlayers], four players
    with the one human player at position 0.  Whatever starting index the
    constructor of the game has selected, [startGame] sets
    [startingPlayerIndex] to 0 and only then fixes the playing order: the
    rotation is 0, 1, 2, 3 and the player who leads the first trick is the
    human player.  With a writer in place the request succeeds and reports
    this roster and this order. *)
Theorem startGame_human_leads
    (env : Env) (req : Request) (s : GameServer.t)
    (playerName playerTeam opponentTeam : JVal) :
  req !! "playerName" = Some playerName ->
  req !! "playerTeam" = Some playerTeam ->
  req !! "opponentTeam" = Some opponentTeam ->
  exists r s' g,
    GameServer.startGame env req s = Some (r, s')
    /\ GameServer.cardGame s' = Some g
    /\ CardGame.getPlayers g =
         GameServer.createPlayers playerName playerTeam opponentTeam
    /\ length (CardGame.getPlayers g) = 4
    /\ Player.isHuman <$> CardGame.getPlayers g = [true; false; false; false]
    /\ CardGame.startingPlayerIndex g = 0
    /\ CardGame.getOrder g = [0; 1; 2; 3]
    /\ CardGame.getNextPlayer 0 g =
         Ok (Player.HumanPlayer (JNum 1) playerName playerTeam)
    /\ (forall w, GameServer.writer s = IsWriter w ->
          r = Ok tt
          /\ GameServer.outbox s' =
               GameServer.outbox s ++
               [startGameMsg "SUCCESS"
                  (imap GameServer.playerInfo
                     (GameServer.createPlayers playerName playerTeam
                                               opponentTeam))
                  [0; 1; 2; 3] (newGameId env)]).
Proof.
  intros Hname Hteam Hopp. destruct s as [ps wr cg sk hnd].
  unfold GameServer.startGame, GameServer.field.
  rewrite Hname, Hteam, Hopp. step.
  destruct wr as [|w|v]; cbn; do 3 eexists;
    (split; [reflexivity|]); cbn; repeat split; try discriminate;
    match goal with
    | E : IsWriter _ = IsWriter _ |- _ => inversion E; subst; reflexivity
    end.
Qed.

Lemma startGame_human_leads_witness :
  exists r s' g,
    GameServer.startGame Demo.env Demo.startReq
      Demo.opened = Some (r, s')
    /\ GameServer.cardGame s' = Some g
    /\ CardGame.getPlayers g =
         GameServer.createPlayers (JStr "Ann") (JStr "East") (JStr "West")
    /\ length (CardGame.getPlayers g) = 4
    /\ Player.isHuman <$> CardGame.getPlayers g = [true; false; false; false]
    /\ CardGame.startingPlayerIndex g = 0
    /\ CardGame.getOrder g = [0; 1; 2; 3]
    /\ CardGame.getNextPlayer 0 g =
         Ok (Player.HumanPlayer (JNum 1) (JStr "Ann") (JStr "East"))
    /\ (forall w,
          GameServer.writer Demo.opened
            = IsWriter w ->
          r = Ok tt
          /\ GameServer.outbox s' =
               GameServer.outbox Demo.opened
               ++ [startGameMsg "SUCCESS"
                     (imap GameServer.playerInfo
                        (GameServer.createPlayers (JStr "Ann") (JStr "East")
                                                  (JStr "West")))
                     [0; 1; 2; 3] (newGameId Demo.env)]).
Proof.
  apply (startGame_human_leads Demo.env Demo.startReq
           Demo.opened
           (JStr "Ann") (JStr "East") (JStr "West"));
    vm_compute; reflexivity.
Defined.

(** What the override is for.  In the demo session the constructor selects
    seat 2: left alone, the game would let the automated player of that
    seat lead, and an override that came after [setPlayingOrder] would
    leave the rotation of the selection in place. *)
Example selected_index_would_lead :
  let roster :=
    GameServer.createPlayers (JStr "Ann") (JStr "East") (JStr "West") in
  let g := CardGame.new (newGameId Demo.env) (shuffled Demo.env)
             (selectedIndex Demo.env) roster in
  CardGame.getNextPlayer 0 (CardGame.setPlayingOrder g)
  = Ok (Player.Player (JNum 2) (JStr "Bob Marley") (JStr "East"))
  /\ CardGame.getOrder
       (CardGame.setStartingPlayerIndex 0 (CardGame.setPlayingOrder g))
     = [2; 3; 0; 1].
Proof. split; vm_compute; reflexivity. Qed.

(** ** The ask-players loop *)

Lemma sameMatch_refl (g : CardGame.t) : sameMatch g g.
Proof. split; [destruct g; reflexivity | reflexivity]. Qed.

Lemma sameMatch_trans (g1 g2 g3 : CardGame.t) :
  sameMatch g1 g2 -> sameMatch g2 g3 -> sameMatch g1 g3.
Proof.
  intros [E12 I12] [E23 I23]. split; [|congruence].
  rewrite <- E12, <- E23. destruct g3; reflexivity.
Qed.

Lemma replaceFirst_identity (old new : Player.t) (ps : list Player.t) :
  identity new = identity old ->
  identity <$> CardGame.replaceFirst old new ps = identity <$> ps.
Proof.
  intros Hid. induction ps as [|p ps IH]; [reflexivity|].
  cbn [CardGame.replaceFirst]. case_bool_decide as Hp; rewrite !fmap_cons.
  - subst p. rewrite Hid. reflexivity.
  - rewrite IH. reflexivity.
Qed.

Lemma putPlayer_sameMatch (old new : Player.t) (g : CardGame.t) :
  identity new = identity old ->
  sameMatch g (CardGame.putPlayer old new g).
Proof.
  intros Hid. split.
  - destruct g; reflexivity.
  - simpl. apply replaceFirst_identity, Hid.
Qed.

Lemma sameMatch_fields (g g' : CardGame.t) :
  sameMatch g g' ->
  CardGame.startingPlayerIndex g' = CardGame.startingPlayerIndex g
  /\ CardGame.trumpSuit g' = CardGame.trumpSuit g
  /\ CardGame.decidedFor g' = CardGame.decidedFor g
  /\ length (CardGame.players g') = length (CardGame.players g).
Proof.
  intros [E I]. rewrite <- E. simpl. repeat split.
  rewrite <- (length_fmap identity (CardGame.players g')), I, length_fmap.
  rewrite <- E. reflexivity.
Qed.

Lemma turnOf_sameMatch (g g' : CardGame.t) (step : nat) :
  sameMatch g g' -> turnOf g' step = turnOf g step.
Proof.
  intros Hsame. destruct (sameMatch_fields _ _ Hsame) as (Hs & _ & _ & Hl).
  destruct Hsame as [_ I]. unfold turnOf. rewrite Hs, Hl.
  set (i := (_ + _) mod _).
  assert (identity <$> CardGame.players g' !! i
          = identity <$> CardGame.players g !! i) as Hi
      by (rewrite <- !list_lookup_fmap, I; reflexivity).
  destruct (CardGame.players g' !! i) as [p'|],
           (CardGame.players g !! i) as [p|]; simpl in *; try discriminate;
    [|reflexivity].
  inversion Hi as [Hpp]. unfold identity in Hpp. congruence.
Qed.

Lemma getNextPlayer_Ok (step : nat) (g : CardGame.t) (p : Player.t) :
  CardGame.getNextPlayer step g = Ok p ->
  CardGame.decidedFor g = None
  /\ turnOf g step = Some (Player.id p, Player.kind p).
Proof.
  unfold CardGame.getNextPlayer, turnOf.
  destruct (CardGame.decidedFor g); [discriminate|].
  destruct (CardGame.players g !! _) as [q|]; [|discriminate].
  intros E. inversion E; subst. split; reflexivity.
Qed.

Lemma getNextMove_Ok (p : Player.t) (h : HandInfo.t)
    (trumpSuit : option JVal) (mv : Card.t * Player.t) :
  AutomatedPlayer.getNextMove p h trumpSuit = Ok mv ->
  Player.kind p = Player.Automated
  /\ identity (snd mv) = identity p
  /\ HandInfo.validatePlayerMove h (Player.cards p)
       (PlayerMove.mk p (fst mv)) trumpSuit = true.
Proof.
  unfold AutomatedPlayer.getNextMove. destruct (Player.kind p) eqn:K; [discriminate|].
  destruct (find _ _) as [c|] eqn:F; [|discriminate].
  intros E. inversion E; subst; simpl. repeat split.
  apply find_some in F. apply F.
Qed.

Lemma addPlayerMove_Ok (m : PlayerMove.t) (h h' : HandInfo.t) :
  HandInfo.addPlayerMove m h = Ok h' ->
  HandInfo.moves h' = HandInfo.moves h ++ [m]
  /\ HandInfo.isComplete h = false.
Proof.
  unfold HandInfo.addPlayerMove.
  destruct (HandInfo.isComplete h); [discriminate|].
  destruct (HandInfo.hasMoved _ _); [discriminate|].
  intros E. inversion E; subst. split; reflexivity.
Qed.

Lemma identity_id (p p' : Player.t) :
  identity p' = identity p -> Player.id p' = Player.id p.
Proof. unfold identity. intros E. inversion E. reflexivity. Qed.

Lemma isHuman_kind (p : Player.t) :
  Player.isHuman p = true <-> Player.kind p = Player.Human.
Proof. unfold Player.isHuman. destruct (Player.kind p); split; congruence. Qed.

Lemma askLoop_S (fuel : nat) (trumpSuit : option JVal) :
  GameServer.askLoop (S fuel) trumpSuit =
  (h <- GameServer.theHand ;;
   if HandInfo.isComplete h then ret tt
   else
     g <- GameServer.theCardGame ;;
     player <- liftRes (CardGame.getNextPlayer (HandInfo.getStep h) g) ;;
     if Player.isHuman player then
       h <- GameServer.theHand ;;
       GameServer.sendMessage (askMoveMsg h)
     else
       h <- GameServer.theHand ;;
       move <- liftRes (AutomatedPlayer.getNextMove player h trumpSuit) ;;
       GameServer.updatePlayer player (snd move) ;;;
       h <- GameServer.theHand ;;
       h' <- liftRes (HandInfo.addPlayerMove
                        (PlayerMove.mk (snd move) (fst move)) h) ;;
       GameServer.modify (GameServer.withHand (Some h')) ;;;
       GameServer.askLoop fuel trumpSuit)%server.
Proof. reflexivity. Qed.

#[local] Arguments GameServer.askLoop : simpl never.

(** What one run of the loop does to a server that has a game and a trick:
    the roster keeps its players, the trick is extended by moves of
    automated players, and the loop ends on a complete trick, at a human
    player (one ['askMove'] with the trick as it stands) or on an
    exception. *)
Lemma askLoop_spec (fuel : nat) (trumpSuit : option JVal)
    (ps : list JVal) (wr : WriterSlot) (g : CardGame.t)
    (sk : option ScoreKeeper.t) (h : HandInfo.t)
    (r : Res unit) (s' : GameServer.t) :
  GameServer.askLoop fuel trumpSuit
    (GameServer.mk ps wr (Some g) sk (Some h)) = Some (r, s') ->
  exists g' h' added wr',
    s' = GameServer.mk ps wr' (Some g') sk (Some h')
    /\ sameMatch g g'
    /\ HandInfo.moves h' = HandInfo.moves h ++ added
    /\ automatedMoves g (length (HandInfo.moves h)) added
    /\ ((wr' = wr /\ (r = Ok tt -> HandInfo.isComplete h' = true))
        \/ (r = Ok tt
            /\ HandInfo.isComplete h' = false
            /\ (exists w, wr = IsWriter w
                          /\ wr' = IsWriter (MessageWriter.sendMessage
                                               (askMoveMsg h') w))
            /\ (exists i, turnOf g (HandInfo.getStep h')
                          = Some (i, Player.Human))
            /\ CardGame.decidedFor g = None)).
Proof.
  revert g h r s'. induction fuel as [|fuel IH]; intros g h r s' Hrun.
  { discriminate. }
  assert (automatedMoves g (length (HandInfo.moves h)) []) as Hnil
      by (intros j m Hj; rewrite lookup_nil in Hj; discriminate).
  assert (forall g0 r0,
            sameMatch g g0 ->
            (r0 = Ok tt -> HandInfo.isComplete h = true) ->
            exists g' h' added wr',
              GameServer.mk ps wr (Some g0) sk (Some h)
              = GameServer.mk ps wr' (Some g') sk (Some h')
              /\ sameMatch g g'
              /\ HandInfo.moves h' = HandInfo.moves h ++ added
              /\ automatedMoves g (length (HandInfo.moves h)) added
              /\ ((wr' = wr /\ (r0 = Ok tt -> HandInfo.isComplete h' = true))
                  \/ (r0 = Ok tt
                      /\ HandInfo.isComplete h' = false
                      /\ (exists w, wr = IsWriter w
                                    /\ wr' = IsWriter (MessageWriter.sendMessage
                                                         (askMoveMsg h') w))
                      /\ (exists i, turnOf g (HandInfo.getStep h')
                                    = Some (i, Player.Human))
                      /\ CardGame.decidedFor g = None))) as Hstop.
  { intros g0 r0 Hsame0 Hr0. exists g0, h, [], wr. rewrite app_nil_r.
    split; [reflexivity|]. split; [exact Hsame0|]. split; [reflexivity|].
    split; [exact Hnil|]. left. split; [reflexivity | exact Hr0]. }
  revert Hrun. rewrite askLoop_S. step.
  destruct (HandInfo.isComplete h) eqn:Hc; cbn.
  { intros E. inversion E; subst; clear E.
    apply Hstop; auto using sameMatch_refl. }
  destruct (CardGame.getNextPlayer (HandInfo.getStep h) g) as [player|e]
    eqn:Hnext; cbn.
  2:{ intros E. inversion E; subst; clear E.
      apply Hstop; [apply sameMatch_refl | discriminate]. }
  apply getNextPlayer_Ok in Hnext as [Hdec Hturn].
  destruct (Player.isHuman player) eqn:Hhuman; cbn.
  { destruct wr as [|w|v]; cbn; intros E; inversion E; subst; clear E;
      try (apply Hstop; [apply sameMatch_refl | discriminate]).
    exists g, h, []; eexists; rewrite app_nil_r.
    split; [reflexivity|]. split; [apply sameMatch_refl|].
    split; [reflexivity|]. split; [exact Hnil|].
    right. split; [reflexivity|]. split; [exact Hc|]. split; [eauto|].
    split; [|exact Hdec].
    apply isHuman_kind in Hhuman. rewrite Hhuman in Hturn. eauto. }
  destruct (AutomatedPlayer.getNextMove player h trumpSuit) as [mv|e]
    eqn:Hmove; cbn.
  2:{ intros E. inversion E; subst; clear E.
      apply Hstop; [apply sameMatch_refl | discriminate]. }
  apply getNextMove_Ok in Hmove as (Hkind & Hident & _).
  pose proof (putPlayer_sameMatch player (snd mv) g Hident) as Hsame.
  destruct (HandInfo.addPlayerMove _ h) as [h1|e] eqn:Hadd; cbn.
  2:{ intros E. inversion E; subst; clear E.
      apply Hstop; [exact Hsame | discriminate]. }
  apply addPlayerMove_Ok in Hadd as [Hmoves _].
  intros Hrun. apply IH in Hrun
    as (g' & h' & added & wr' & -> & Hsame' & Hmoves' & Hauto & Hexit).
  exists g', h', (PlayerMove.mk (snd mv) (fst mv) :: added), wr'.
  split; [reflexivity|]. split; [eauto using sameMatch_trans|].
  split; [rewrite Hmoves', Hmoves, <- app_assoc; reflexivity|].
  split.
  - intros [|j] m Hj; simpl in Hj.
    + inversion Hj; subst; simpl. rewrite Nat.add_0_r.
      unfold HandInfo.getStep in Hturn.
      rewrite Hturn, Hkind, (identity_id _ _ Hident). reflexivity.
    + specialize (Hauto j m Hj). rewrite (turnOf_sameMatch _ _ _ Hsame) in Hauto.
      rewrite Hmoves, length_app in Hauto. simpl in Hauto.
      rewrite <- Hauto. f_equal. lia.
  - destruct Hexit as [Hexit|(Hr & Hc' & Hw & (i & Hi) & _)];
      [left; exact Hexit|].
    right. split; [exact Hr|]. split; [exact Hc'|]. split; [exact Hw|].
    split; [|exact Hdec]. exists i.
    rewrite <- (turnOf_sameMatch _ _ _ Hsame). exact Hi.
Qed.

(** The bound of [askPlayers] is never reached on a well-formed trick: each
    iteration that goes on has added a move. *)
Lemma askLoop_returns (fuel : nat) (trumpSuit : option JVal)
    (s : GameServer.t) :
  (forall h, GameServer.hand s = Some h ->
     wellFormed h
     /\ HandInfo.numPlayers <= length (HandInfo.moves h) + fuel) ->
  exists r s', GameServer.askLoop (S fuel) trumpSuit s = Some (r, s').
Proof.
  revert s. induction fuel as [|fuel IH]; intros [ps wr cg sk hnd] Hwf;
    rewrite askLoop_S; step.
  - destruct hnd as [h|]; cbn; [|eauto].
    destruct (Hwf h eq_refl) as [Hle Hge]. unfold wellFormed in Hle.
    unfold HandInfo.isComplete. rewrite bool_decide_eq_true_2 by lia. eauto.
  - destruct hnd as [h|]; cbn; [|eauto].
    destruct (Hwf h eq_refl) as [Hle Hge]. unfold wellFormed in Hle.
    destruct (HandInfo.isComplete h) eqn:Hc; cbn; [eauto|].
    apply bool_decide_eq_false in Hc.
    destruct cg as [g|]; cbn; [|eauto].
    destruct (CardGame.getNextPlayer _ g) as [player|e]; cbn; [|eauto].
    destruct (Player.isHuman player); cbn.
    { destruct wr; cbn; eauto. }
    destruct (AutomatedPlayer.getNextMove player h trumpSuit) as [mv|e]; cbn; [|eauto].
    destruct (HandInfo.addPlayerMove _ h) as [h1|e] eqn:Hadd; cbn; [|eauto].
    apply addPlayerMove_Ok in Hadd as [Hmoves _].
    apply IH. cbn. intros h' E. inversion E; subst h'. unfold wellFormed.
    rewrite Hmoves, length_app. simpl. lia.
Qed.

Lemma changePlayingOrder_Ok (winner : Player.t) (g g' : CardGame.t) :
  CardGame.changePlayingOrder winner g = Ok g' ->
  CardGame.decidedFor g = None
  /\ CardGame.decidedFor g' = None
  /\ CardGame.players g' = CardGame.players g
  /\ exists i, CardGame.indexOf (Player.id winner) (CardGame.players g)
               = Some i
               /\ CardGame.startingPlayerIndex g' = i.
Proof.
  unfold CardGame.changePlayingOrder.
  destruct (CardGame.decidedFor g) eqn:Hd; [discriminate|].
  destruct (CardGame.indexOf _ _) as [i|] eqn:Hi; [|discriminate].
  intros E. inversion E; subst; cbn. repeat split; eauto.
Qed.

(** What [askPlayers] does to a server that has a game and a trick.  The
    three ways out: suspended at a human player, trick complete and
    resolved, or an exception. *)
Lemma askPlayers_spec `{Rules}
    (ps : list JVal) (wr : WriterSlot) (g : CardGame.t)
    (sk : option ScoreKeeper.t) (h : HandInfo.t)
    (r : Res unit) (s' : GameServer.t) :
  GameServer.askPlayers (GameServer.mk ps wr (Some g) sk (Some h))
    = Some (r, s') ->
  exists g1 h' added,
    sameMatch g g1
    /\ HandInfo.moves h' = HandInfo.moves h ++ added
    /\ automatedMoves g (length (HandInfo.moves h)) added
    /\ GameServer.hand s' = Some h'
    /\ GameServer.players s' = ps
    /\ ((r = Ok tt
         /\ HandInfo.isComplete h' = false
         /\ (exists w, wr = IsWriter w
               /\ s' = GameServer.mk ps
                         (IsWriter (MessageWriter.sendMessage
                                      (askMoveMsg h') w))
                         (Some g1) sk (Some h'))
         /\ (exists i, turnOf g (HandInfo.getStep h')
                       = Some (i, Player.Human))
         /\ CardGame.decidedFor g = None)
        \/ (r = Ok tt
            /\ HandInfo.isComplete h' = true
            /\ exists w winningMove winningPlayer sk0 g2,
                 wr = IsWriter w
                 /\ sk = Some sk0
                 /\ HandInfo.decideWinner h' (CardGame.trumpSuit g)
                    = Ok winningMove
                 /\ winningPlayer = PlayerMove.getPlayer winningMove
                 /\ CardGame.changePlayingOrder winningPlayer g1 = Ok g2
                 /\ s' = GameServer.mk ps
                           (IsWriter
                              (MessageWriter.sendMessage
                                 (handPlayedMsg h'
                                    (PlayerMove.card winningMove)
                                    (Player.id winningPlayer)
                                    (ScoreKeeper.getScores
                                       (ScoreKeeper.registerWin
                                          winningPlayer sk0))) w))
                           (Some g2)
                           (Some (ScoreKeeper.registerWin winningPlayer sk0))
                           (Some h'))
        \/ (exists e, r = Raise e
            /\ GameServer.writer s' = wr
            /\ (GameServer.scores s' = sk
                \/ exists winningPlayer sk0,
                     sk = Some sk0
                     /\ GameServer.scores s'
                        = Some (ScoreKeeper.registerWin winningPlayer sk0))
            /\ exists g2, GameServer.cardGame s' = Some g2
                          /\ CardGame.decidedFor g2 = CardGame.decidedFor g)).
Proof.
  unfold GameServer.askPlayers. step.
  destruct (GameServer.askLoop _ _ _) as [[[[]|e] s1]|] eqn:Hloop;
    [| |discriminate];
    apply askLoop_spec in Hloop
      as (g1 & h' & added & wr' & -> & Hsame & Hmoves & Hauto & Hexit);
    destruct (sameMatch_fields _ _ Hsame) as (_ & _ & Hdec & _);
    cbn; intros Hrun; exists g1, h', added;
    (split; [exact Hsame|]); (split; [exact Hmoves|]);
    (split; [exact Hauto|]).
  - (* the loop returned *)
    destruct (HandInfo.isComplete h') eqn:Hc; cbn in Hrun.
    + destruct Hexit as [[-> _]|(_ & Hc' & _)]; [|congruence].
      destruct (HandInfo.decideWinner h' (CardGame.trumpSuit g))
        as [winningMove|e] eqn:Hwin; cbn in Hrun.
      2:{ inversion Hrun; subst; cbn. repeat split.
          right; right. exists e. repeat split; eauto. }
      set (winningPlayer := PlayerMove.getPlayer winningMove) in *.
      destruct sk as [sk0|]; cbn in Hrun.
      2:{ inversion Hrun; subst; cbn. repeat split.
          right; right. exists AttributeError. repeat split; eauto. }
      destruct (CardGame.changePlayingOrder winningPlayer g1) as [g2|e]
        eqn:Hch; cbn in Hrun.
      2:{ inversion Hrun; subst; cbn. repeat split.
          right; right. exists e. repeat split; eauto. }
      pose proof (changePlayingOrder_Ok _ _ _ Hch) as (Hd1 & Hd2 & _).
      destruct wr as [|w|v]; cbn in Hrun; inversion Hrun; subst; cbn;
        repeat split.
      * right; right. exists AttributeError. repeat split; eauto.
        exists g2. split; [reflexivity|congruence].
      * right; left. repeat split. exists w, winningMove, winningPlayer, sk0, g2.
        repeat split; auto.
      * right; right. exists AttributeError. repeat split; eauto.
        exists g2. split; [reflexivity|congruence].
    + inversion Hrun; subst; cbn. repeat split.
      destruct Hexit as [[_ Hc']|(_ & _ & (w & -> & ->) & Hturn & Hopen)].
      * discriminate (Hc' eq_refl).
      * left. repeat split; eauto.
  - (* the loop raised *)
    inversion Hrun; subst; cbn. repeat split.
    destruct Hexit as [[-> _]|(Habs & _)]; [|discriminate Habs].
    right; right. exists e. repeat split; eauto.
Qed.

(** [askPlayers] returns on every well-formed trick. *)
Lemma askPlayers_returns `{Rules} (s : GameServer.t) :
  (forall h, GameServer.hand s = Some h -> wellFormed h) ->
  exists r s', GameServer.askPlayers s = Some (r, s').
Proof.
  intros Hwf. unfold GameServer.askPlayers.
  assert (forall (m : M GameServer.t unit) s0,
            (exists r s', m s0 = Some (r, s')) ->
            forall k : unit -> M GameServer.t unit,
              (forall u s1, exists r s', k u s1 = Some (r, s')) ->
              exists r s', bind m k s0 = Some (r, s')) as Hbind.
  { intros m s0 (r0 & s1 & E) k Hk. unfold bind. rewrite E.
    destruct r0 as [u|e]; eauto. }
  destruct s as [ps wr cg sk hnd]. step.
  destruct cg as [g|]; cbn; [|eauto].
  apply Hbind.
  - apply askLoop_returns. intros h Hh. split; [apply Hwf, Hh|].
    unfold HandInfo.numPlayers. lia.
  - intros [] [ps1 wr1 cg1 sk1 hnd1]. step.
    destruct hnd1 as [h1|]; cbn; [|eauto].
    destruct (HandInfo.isComplete h1); cbn; [|eauto].
    destruct (HandInfo.decideWinner h1 _); cbn; [|eauto].
    destruct sk1 as [sk0|]; cbn; [|eauto].
    destruct cg1 as [g1|]; cbn; [|eauto].
    destruct (CardGame.changePlayingOrder _ g1); cbn; [|eauto].
    destruct wr1; cbn; eauto.
Qed.

Lemma getPlayerById_Ok (i : JVal) (g : CardGame.t) (p : Player.t) :
  CardGame.getPlayerById i g = Ok p ->
  Player.id p = i
  /\ exists k, CardGame.indexOf i (CardGame.players g) = Some k
               /\ CardGame.players g !! k = Some p.
Proof.
  unfold CardGame.getPlayerById.
  destruct (CardGame.decidedFor g); [discriminate|].
  destruct (find _ _) as [q|] eqn:F; [|discriminate].
  intros E. inversion E; subst q; clear E.
  induction (CardGame.players g) as [|q ps IH]; [discriminate|].
  cbn [find] in F. cbn [CardGame.indexOf].
  destruct (bool_decide (Player.id q = i)) eqn:Hq.
  - inversion F; subst q. apply bool_decide_eq_true in Hq.
    split; [exact Hq|]. exists 0. split; reflexivity.
  - destruct (IH F) as (Hid & k & Hk & Hp). split; [exact Hid|].
    exists (S k). rewrite Hk. split; [reflexivity | exact Hp].
Qed.

(** The lookup answers only while the match is open. *)
Lemma getPlayerById_open (i : JVal) (g : CardGame.t) (p : Player.t) :
  CardGame.getPlayerById i g = Ok p -> CardGame.decidedFor g = None.
Proof.
  unfold CardGame.getPlayerById.
  destruct (CardGame.decidedFor g); [discriminate | reflexivity].
Qed.

Lemma getPlayerById_concluded (i tm : JVal) (g : CardGame.t) :
  CardGame.decidedFor g = Some tm ->
  CardGame.getPlayerById i g = Raise MatchAlreadyDecidedError.
Proof. unfold CardGame.getPlayerById. intros ->. reflexivity. Qed.

Lemma indexOf_Some (i : JVal) (ps : list Player.t) (k : nat) :
  CardGame.indexOf i ps = Some k ->
  exists p, ps !! k = Some p /\ Player.id p = i.
Proof.
  revert k. induction ps as [|q ps IH]; intros k; [discriminate|].
  cbn [CardGame.indexOf]. case_bool_decide as Hq.
  - intros E. inversion E; subst k. exists q. split; [reflexivity | exact Hq].
  - destruct (CardGame.indexOf i ps) as [k'|]; [|discriminate].
    intros E. inversion E; subst k. apply (IH k' eq_refl).
Qed.

(** The rotation law: after [changePlayingOrder(winner)] the player that
    [getNextPlayer(0)] returns is the member of the roster that has the id
    of [winner]. *)
Lemma changePlayingOrder_leads (winner : Player.t) (g g' : CardGame.t) :
  CardGame.changePlayingOrder winner g = Ok g' ->
  exists leader,
    CardGame.getNextPlayer 0 g' = Ok leader
    /\ Player.id leader = Player.id winner
    /\ leader ∈ CardGame.players g.
Proof.
  intros Hch.
  apply changePlayingOrder_Ok in Hch as (_ & Hd & Hps & i & Hi & Hstart).
  apply indexOf_Some in Hi as (leader & Hl & Hid).
  exists leader. split; [|split; [exact Hid|]].
  - unfold CardGame.getNextPlayer. rewrite Hd, Hstart, Hps, Nat.add_0_r.
    rewrite Nat.mod_small by (eapply lookup_lt_Some; exact Hl).
    rewrite Hl. reflexivity.
  - eapply list_elem_of_lookup_2, Hl.
Qed.

(** Two players of a roster with distinct ids that have one id are one
    player. *)
Lemma ids_elem_of_inj (ps : list Player.t) (x y : Player.t) :
  NoDup (Player.id <$> ps) ->
  x ∈ ps -> y ∈ ps -> Player.id x = Player.id y -> x = y.
Proof.
  intros Hnd Hx Hy E.
  apply list_elem_of_lookup in Hx as (a & Ha).
  apply list_elem_of_lookup in Hy as (b & Hb).
  assert (a = b) as ->.
  { eapply NoDup_lookup; [exact Hnd| |].
    - rewrite list_lookup_fmap, Ha. reflexivity.
    - rewrite list_lookup_fmap, Hb. simpl. congruence. }
  congruence.
Qed.

(** ** Choosing the trump suit *)

Lemma giveTo_deck (count : nat) (order : list nat)
    (st : list Player.t * list Card.t) :
  snd (foldl (CardGame.giveTo count) st order)
  = drop (count * length order) (snd st).
Proof.
  revert st. induction order as [|i order IH]; intros st; simpl.
  - rewrite Nat.mul_0_r. reflexivity.
  - rewrite IH. simpl. rewrite drop_drop. f_equal. lia.
Qed.

Lemma dealPartial_deck (count : nat) (g g' : CardGame.t) :
  CardGame.dealPartial count g = Ok g' ->
  CardGame.deck g' = drop (count * length (CardGame.playingOrder g))
                          (CardGame.deck g)
  /\ CardGame.trumpSuit g' = CardGame.trumpSuit g.
Proof.
  unfold CardGame.dealPartial.
  destruct (Nat.ltb _ _); [discriminate|].
  intros E. inversion E; subst; clear E. simpl.
  rewrite giveTo_deck. split; reflexivity.
Qed.

Lemma giveTo_other (count : nat) (order : list nat)
    (st : list Player.t * list Card.t) (k : nat) :
  k ∉ order ->
  fst (foldl (CardGame.giveTo count) st order) !! k = fst st !! k.
Proof.
  revert st. induction order as [|i order IH]; intros st Hk; [reflexivity|].
  apply not_elem_of_cons in Hk as [Hki Hk]. simpl. rewrite (IH _ Hk). simpl.
  apply list_lookup_alter_ne. congruence.
Qed.

(** The player at the [j]-th place of the order takes the [j]-th slice of
    [count] cards. *)
Lemma giveTo_share (count : nat) (order : list nat)
    (st : list Player.t * list Card.t) (j k : nat) :
  NoDup order ->
  order !! j = Some k ->
  fst (foldl (CardGame.giveTo count) st order) !! k
  = (fun p => Player.setCards
                (Player.cards p ++ take count (drop (j * count) (snd st))) p)
      <$> fst st !! k.
Proof.
  revert st j. induction order as [|i order IH]; intros st j Hnd Hj;
    [rewrite lookup_nil in Hj; discriminate|].
  apply NoDup_cons in Hnd as [Hi Hnd]. destruct j as [|j]; simpl in Hj.
  - inversion Hj; subst i. simpl. rewrite (giveTo_other _ _ _ _ Hi). simpl.
    rewrite list_lookup_alter. rewrite decide_True by reflexivity.
    reflexivity.
  - simpl. rewrite (IH _ j Hnd Hj). simpl. rewrite drop_drop.
    rewrite list_lookup_alter_ne.
    + replace (count + j * count) with (count + j * count) by lia.
      reflexivity.
    + intros ->. apply Hi. eapply list_elem_of_lookup_2, Hj.
Qed.

Lemma giveTo_ids (count : nat) (order : list nat)
    (st : list Player.t * list Card.t) :
  identity <$> fst (foldl (CardGame.giveTo count) st order)
  = identity <$> fst st.
Proof.
  revert st. induction order as [|i order IH]; intros st; [reflexivity|].
  simpl. rewrite IH. simpl.
  apply list_eq. intros k. rewrite !list_lookup_fmap.
  destruct (decide (i = k)) as [->|Hne].
  - rewrite list_lookup_alter, decide_True by reflexivity.
    destruct (fst st !! k); reflexivity.
  - rewrite list_lookup_alter_ne by exact Hne. reflexivity.
Qed.

Lemma find_indexOf (i : JVal) (ps : list Player.t) :
  find (fun p => bool_decide (Player.id p = i)) ps
  = CardGame.indexOf i ps ≫= (ps !!.).
Proof.
  induction ps as [|q ps IH]; [reflexivity|].
  cbn [find CardGame.indexOf]. destruct (bool_decide (Player.id q = i));
    [reflexivity|].
  rewrite IH. destruct (CardGame.indexOf i ps); reflexivity.
Qed.

Lemma indexOf_identity (i : JVal) (ps ps' : list Player.t) :
  identity <$> ps' = identity <$> ps ->
  CardGame.indexOf i ps' = CardGame.indexOf i ps.
Proof.
  revert ps'. induction ps as [|q ps IH]; intros [|q' ps'] E;
    try discriminate; [reflexivity|].
  rewrite !fmap_cons in E. inversion E as [[E1 E2 E3 E4 E5]].
  cbn [CardGame.indexOf]. rewrite E1, (IH ps') by exact E5. reflexivity.
Qed.

(** What a deal of [count] cards per player gives to the player of a
    seat. *)
Lemma dealPartial_hands (count : nat) (g g' : CardGame.t) (j k : nat)
    (p : Player.t) :
  CardGame.dealPartial count g = Ok g' ->
  NoDup (CardGame.playingOrder g) ->
  CardGame.playingOrder g !! j = Some k ->
  CardGame.players g !! k = Some p ->
  CardGame.players g' !! k
  = Some (Player.setCards
            (Player.cards p
               ++ take count (drop (j * count) (CardGame.deck g))) p).
Proof.
  unfold CardGame.dealPartial. destruct (Nat.ltb _ _); [discriminate|].
  intros E Hnd Hj Hp. inversion E; subst; clear E. simpl.
  rewrite (giveTo_share _ _ _ j k Hnd Hj). simpl. rewrite Hp. reflexivity.
Qed.

Lemma dealPartial_identity (count : nat) (g g' : CardGame.t) :
  CardGame.dealPartial count g = Ok g' ->
  identity <$> CardGame.players g' = identity <$> CardGame.players g.
Proof.
  unfold CardGame.dealPartial. destruct (Nat.ltb _ _); [discriminate|].
  intros E. inversion E; subst; clear E. simpl. apply giveTo_ids.
Qed.

Lemma seated_place (g : CardGame.t) (k : nat) :
  seated g ->
  k < length (CardGame.players g) ->
  NoDup (CardGame.playingOrder g)
  /\ length (CardGame.playingOrder g) = length (CardGame.players g)
  /\ exists j, CardGame.playingOrder g !! j = Some k.
Proof.
  intros [_ Hperm] Hk. split; [|split].
  - rewrite Hperm. apply NoDup_seq.
  - rewrite Hperm. apply length_seq.
  - apply list_elem_of_lookup. rewrite Hperm. apply elem_of_seq. lia.
Qed.

Lemma slice_length {A} (d : list A) (n share j : nat) :
  share = length d / n -> j < n ->
  length (take share (drop (j * share) d)) = share.
Proof.
  intros -> Hj. rewrite length_take, length_drop.
  pose proof (Nat.div_mod_eq (length d) n) as Hdm.
  set (q := length d / n) in *. nia.
Qed.

(** C7.  A ['chooseTrump'] request that succeeds has recorded the suit
    and dealt the remainder in the same action: the [CardGame] is the one
    produced by [chooseTrump] followed by [dealCards], its trump suit is the
    requested one, fewer cards than players are left in the deck once the
    playing order covers the roster, and the one message sent carries the
    hand the acting player holds after that deal together with the suit.
    When the players are seated (distinct ids, a playing order that visits
    every seat once), the deal has given every player an equal share, one
    card at least: the player at the [j]-th place of the playing order holds
    the cards held before followed by the [j]-th slice of the deck, and the
    hand in the message is the hand the acting player held before the
    request followed by that player's share.  [dealCards] itself fails with
    [DealOrderError] on every game whose trump suit is unset. *)
Theorem chooseTrump_deals_remainder `{Rules} :
  (forall (request : Request) (s s' : GameServer.t),
     GameServer.chooseTrump request s = Some (Ok tt, s') ->
     exists trumpSuit playerId g g1 g2 player,
       request !! "suit" = Some trumpSuit
       /\ request !! "playerId" = Some playerId
       /\ GameServer.cardGame s = Some g
       /\ CardGame.chooseTrump trumpSuit g = Ok g1
       /\ CardGame.dealCards g1 = Ok g2
       /\ GameServer.cardGame s' = Some g2
       /\ CardGame.trumpSuit g2 = Some trumpSuit
       /\ (length (CardGame.playingOrder g) = length (CardGame.players g) ->
           length (CardGame.deck g2) < length (CardGame.players g))
       /\ CardGame.getPlayerById playerId g2 = Ok player
       /\ GameServer.outbox s' =
            GameServer.outbox s ++ [allCardsMsg (Player.getCards player)
                                                trumpSuit]
       /\ (seated g ->
           let share :=
             length (CardGame.deck g) / length (CardGame.players g) in
           0 < share
           /\ (forall k p,
                 CardGame.players g !! k = Some p ->
                 exists j,
                   CardGame.playingOrder g !! j = Some k
                   /\ length (take share (drop (j * share) (CardGame.deck g)))
                      = share
                   /\ CardGame.players g2 !! k
                      = Some (Player.setCards
                                (Player.cards p
                                   ++ take share
                                        (drop (j * share) (CardGame.deck g)))
                                p))
           /\ exists before j,
                CardGame.getPlayerById playerId g = Ok before
                /\ (exists k, CardGame.players g !! k = Some before
                              /\ CardGame.playingOrder g !! j = Some k)
                /\ Player.getCards player
                   = Player.getCards before
                       ++ take share (drop (j * share) (CardGame.deck g))))
  /\ (forall g : CardGame.t,
        CardGame.trumpSuit g = None ->
        CardGame.dealCards g = Raise DealOrderError).
Proof.
  split.
  - intros request s s' Hrun. destruct s as [ps wr cg sk hnd].
    unfold GameServer.chooseTrump, GameServer.field in Hrun.
    destruct (request !! "suit") as [trumpSuit|] eqn:Hsuit;
      [|revert Hrun; step; destruct wr; discriminate].
    destruct (request !! "playerId") as [playerId|] eqn:Hid.
    + revert Hrun. step.
      destruct cg as [g|]; [|destruct wr; discriminate]. cbn.
      destruct (CardGame.chooseTrump trumpSuit g) as [g1|e] eqn:Hg1;
        [|cbn; destruct wr; discriminate]. cbn.
      destruct (CardGame.dealCards g1) as [g2|e] eqn:Hg2;
        [|cbn; destruct wr; discriminate]. cbn.
      destruct (CardGame.getPlayerById playerId g2) as [player|e] eqn:Hp;
        [|cbn; destruct wr; discriminate]. cbn.
      destruct wr as [|w|v]; cbn; try discriminate.
      intros E. inversion E; subst; clear E.
      exists trumpSuit, playerId, g, g1, g2, player. cbn.
      assert (CardGame.trumpSuit g1 = Some trumpSuit
              /\ CardGame.deck g1 = CardGame.deck g
              /\ CardGame.players g1 = CardGame.players g
              /\ CardGame.playingOrder g1 = CardGame.playingOrder g
              /\ CardGame.decidedFor g1 = CardGame.decidedFor g)
        as (Ht1 & Hd1 & Hp1 & Ho1 & Hm1).
      { revert Hg1. unfold CardGame.chooseTrump.
        destruct (_ && _); [|discriminate].
        intros E. inversion E; subst. cbn. repeat split. }
      assert (length (CardGame.deck g) / length (CardGame.players g) <> 0
              /\ CardGame.dealPartial
                   (length (CardGame.deck g) / length (CardGame.players g)) g1
                 = Ok g2) as (Hshare & Hdeal).
      { revert Hg2. unfold CardGame.dealCards, CardGame.dealRemainder.
        rewrite Ht1, Hd1, Hp1.
        destruct (bool_decide _) eqn:Hshare; [discriminate|].
        apply bool_decide_eq_false in Hshare. auto. }
      set (share := length (CardGame.deck g) / length (CardGame.players g))
        in *.
      pose proof (dealPartial_deck _ _ _ Hdeal) as [Hdeck Htrump].
      pose proof (dealPartial_identity _ _ _ Hdeal) as Hident.
      rewrite Hp1 in Hident.
      assert (CardGame.decidedFor g2 = CardGame.decidedFor g) as Hm2.
      { revert Hdeal. unfold CardGame.dealPartial.
        destruct (Nat.ltb _ _); [discriminate|].
        intros E. inversion E; subst. cbn. exact Hm1. }
      split; [reflexivity|]. split; [reflexivity|]. split; [reflexivity|].
      split; [exact Hg1|]. split; [exact Hg2|]. split; [reflexivity|].
      split; [congruence|]. split.
      { intros Hlen. rewrite Hdeck, Ho1, Hd1, Hlen, length_drop.
        subst share.
        set (d := length (CardGame.deck g)) in *.
        set (n := length (CardGame.players g)) in *.
        assert (n <> 0) as Hn by (intros E; apply Hshare; rewrite E; reflexivity).
        pose proof (Nat.div_mod_eq d n) as Hdm.
        pose proof (Nat.mod_upper_bound d n Hn) as Hm.
        nia. }
      split; [exact Hp|]. split; [reflexivity|].
      intros Hseated. cbv zeta. fold share.
      assert (forall k p,
                CardGame.players g !! k = Some p ->
                exists j,
                  CardGame.playingOrder g !! j = Some k
                  /\ length (take share (drop (j * share) (CardGame.deck g)))
                     = share
                  /\ CardGame.players g2 !! k
                     = Some (Player.setCards
                               (Player.cards p
                                  ++ take share
                                       (drop (j * share) (CardGame.deck g)))
                               p)) as Hall.
      { intros k p Hk.
        destruct (seated_place g k Hseated) as (Hnd & Hlen & j & Hj);
          [eapply lookup_lt_Some, Hk|].
        exists j. split; [exact Hj|]. split.
        - apply (slice_length _ (length (CardGame.players g)));
            [reflexivity|].
          rewrite <- Hlen. eapply lookup_lt_Some, Hj.
        - rewrite <- Hd1.
          apply (dealPartial_hands share g1 g2 j k p Hdeal);
            congruence. }
      split; [lia|]. split; [exact Hall|].
      pose proof (getPlayerById_open _ _ _ Hp) as Hopen.
      apply getPlayerById_Ok in Hp as (_ & k & Hk & Hpk).
      rewrite (indexOf_identity _ _ _ Hident) in Hk.
      destruct (indexOf_Some _ _ _ Hk) as (before & Hb & _).
      destruct (Hall k before Hb) as (j & Hj & _ & Hafter).
      exists before, j. split; [|split].
      * unfold CardGame.getPlayerById. rewrite <- Hm2, Hopen, find_indexOf, Hk.
        simpl. rewrite Hb. reflexivity.
      * exists k. split; [exact Hb | exact Hj].
      * rewrite Hafter in Hpk. inversion Hpk. reflexivity.
    + revert Hrun. step.
      destruct cg as [g|]; [|destruct wr; discriminate]. cbn.
      destruct (CardGame.chooseTrump trumpSuit g) as [g1|e];
        [|cbn; destruct wr; discriminate]. cbn.
      destruct (CardGame.dealCards g1) as [g2|e];
        cbn; destruct wr; discriminate.
  - intros g Hnone. unfold CardGame.dealCards. rewrite Hnone. reflexivity.
Qed.

(** The human player of the demo match chooses S1 after the first five
    cards: the answer carries these five and three more, and the deck is
    empty. *)
Lemma chooseTrump_deals_remainder_witness :
  exists trumpSuit playerId g g1 g2 player,
    Demo.trumpReq !! "suit" = Some trumpSuit
    /\ Demo.trumpReq !! "playerId" = Some playerId
    /\ GameServer.cardGame Demo.dealt = Some g
    /\ @CardGame.chooseTrump Demo.rules trumpSuit g = Ok g1
    /\ CardGame.dealCards g1 = Ok g2
    /\ GameServer.cardGame Demo.trumped = Some g2
    /\ CardGame.trumpSuit g2 = Some trumpSuit
    /\ (length (CardGame.playingOrder g) = length (CardGame.players g) ->
        length (CardGame.deck g2) < length (CardGame.players g))
    /\ CardGame.getPlayerById playerId g2 = Ok player
    /\ GameServer.outbox Demo.trumped =
         GameServer.outbox Demo.dealt ++ [allCardsMsg (Player.getCards player)
                                                     trumpSuit]
    /\ (seated g ->
        let share :=
          length (CardGame.deck g) / length (CardGame.players g) in
        0 < share
        /\ (forall k p,
              CardGame.players g !! k = Some p ->
              exists j,
                CardGame.playingOrder g !! j = Some k
                /\ length (take share (drop (j * share) (CardGame.deck g)))
                   = share
                /\ CardGame.players g2 !! k
                   = Some (Player.setCards
                             (Player.cards p
                                ++ take share
                                     (drop (j * share) (CardGame.deck g)))
                             p))
        /\ exists before j,
             CardGame.getPlayerById playerId g = Ok before
             /\ (exists k, CardGame.players g !! k = Some before
                           /\ CardGame.playingOrder g !! j = Some k)
             /\ Player.getCards player
                = Player.getCards before
                    ++ take share (drop (j * share) (CardGame.deck g))).
Proof.
  apply (proj1 (@chooseTrump_deals_remainder Demo.rules)
           Demo.trumpReq Demo.dealt Demo.trumped).
  vm_compute. reflexivity.
Defined.

(** The demo match is seated when the trump suit is chosen. *)
Example dealt_match_seated : seated (Demo.gameOf Demo.dealt).
Proof.
  split.
  - apply (bool_decide_eq_true_1
             (NoDup (Player.id <$> CardGame.players (Demo.gameOf Demo.dealt)))).
    vm_compute. reflexivity.
  - vm_compute. reflexivity.
Qed.

(** The shares of the demo match: three cards each, the first three of the
    deck for the human player, who is first in the playing order, and the
    last three for the player of seat 3. *)
Example chooseTrump_shares :
  let deck := CardGame.deck (Demo.gameOf Demo.dealt) in
  length deck = 12
  /\ Player.getCards (Demo.playerAt 0 Demo.trumped)
     = Player.getCards (Demo.playerAt 0 Demo.dealt) ++ take 3 deck
  /\ Player.getCards (Demo.playerAt 3 Demo.trumped)
     = Player.getCards (Demo.playerAt 3 Demo.dealt) ++ take 3 (drop 9 deck).
Proof. repeat split; vm_compute; reflexivity. Qed.

Example chooseTrump_full_hand :
  exists cards,
    last (GameServer.outbox Demo.trumped) = Some (allCardsMsg cards Demo.S1)
    /\ length cards = 8
    /\ (CardGame.deck <$> GameServer.cardGame Demo.trumped) = Some [].
Proof. eexists. repeat split; vm_compute; reflexivity. Qed.

(** ** When [askPlayers] returns normally *)

Lemma turn_inj (s j l : nat) :
  j < 4 -> l < 4 -> (s + j) mod 4 = (s + l) mod 4 -> j = l.
Proof.
  intros Hj Hl E.
  pose proof (Nat.div_mod_eq (s + j) 4).
  pose proof (Nat.div_mod_eq (s + l) 4).
  lia.
Qed.

Lemma find_exists {A} (f : A -> bool) (l : list A) (x : A) :
  In x l -> f x = true -> exists y, find f l = Some y.
Proof.
  intros Hin Hx. destruct (find f l) as [y|] eqn:F; [eauto|].
  rewrite (find_none _ _ F x Hin) in Hx. discriminate.
Qed.

(** An automated player with a card has a legal card. *)
Lemma getNextMove_automated (p : Player.t) (h : HandInfo.t)
    (trumpSuit : option JVal) :
  Player.kind p = Player.Automated ->
  Player.cards p <> [] ->
  exists mv, AutomatedPlayer.getNextMove p h trumpSuit = Ok mv.
Proof.
  intros Hkind Hcards. unfold AutomatedPlayer.getNextMove. rewrite Hkind.
  assert (exists c, In c (Player.cards p)
                    /\ HandInfo.validatePlayerMove h (Player.cards p)
                         (PlayerMove.mk p c) trumpSuit = true)
    as (c & Hin & Hvalid).
  { unfold HandInfo.validatePlayerMove, HandInfo.followsSuit. simpl.
    destruct (HandInfo.ledSuit h) as [led|].
    - destruct (HandInfo.holdsSuit led (Player.cards p)) eqn:Hholds.
      + unfold HandInfo.holdsSuit in Hholds.
        apply existsb_exists in Hholds as (c & Hin & Hc).
        exists c. split; [exact Hin|]. rewrite Hc, andb_true_r.
        apply bool_decide_eq_true, list_elem_of_In, Hin.
      + destruct (Player.cards p) as [|c cs]; [congruence|].
        exists c. split; [left; reflexivity|]. rewrite andb_true_r.
        apply bool_decide_eq_true. left.
    - destruct (Player.cards p) as [|c cs]; [congruence|].
      exists c. split; [left; reflexivity|]. rewrite andb_true_r.
      apply bool_decide_eq_true. left. }
  destruct (find_exists
              (fun c => HandInfo.validatePlayerMove h (Player.cards p)
                          (PlayerMove.mk p c) trumpSuit)
              _ c Hin Hvalid) as [y ->].
  eauto.
Qed.

Lemma replaceFirst_insert (old new : Player.t) (ps : list Player.t) (i : nat) :
  NoDup (Player.id <$> ps) ->
  ps !! i = Some old ->
  CardGame.replaceFirst old new ps = <[i := new]> ps.
Proof.
  revert i. induction ps as [|p ps IH]; intros i Hnd Hi; [discriminate|].
  rewrite fmap_cons in Hnd. apply NoDup_cons in Hnd as [Hnotin Hnd].
  cbn [CardGame.replaceFirst]. case_bool_decide as Hp.
  - subst p. destruct i as [|i]; [reflexivity|]. simpl in Hi.
    exfalso. apply Hnotin. apply list_elem_of_fmap. exists old.
    split; [reflexivity|]. eapply list_elem_of_lookup_2, Hi.
  - destruct i as [|i]; simpl in Hi; [congruence|].
    simpl. f_equal. apply IH; assumption.
Qed.

Lemma identity_ids (ps ps' : list Player.t) :
  identity <$> ps' = identity <$> ps ->
  Player.id <$> ps' = Player.id <$> ps.
Proof.
  intros E.
  assert (forall l : list Player.t,
            Player.id <$> l
            = (fun x : JVal * JVal * JVal * Player.Kind => fst (fst (fst x)))
                <$> (identity <$> l)) as Hc.
  { intros l. rewrite <- list_fmap_compose. reflexivity. }
  rewrite !Hc, E. reflexivity.
Qed.

Lemma ids_lookup_inj (ps : list Player.t) (a b : nat) (x y : Player.t) :
  NoDup (Player.id <$> ps) ->
  ps !! a = Some x -> ps !! b = Some y -> Player.id x = Player.id y -> a = b.
Proof.
  intros Hnd Ha Hb E.
  eapply NoDup_lookup; [exact Hnd| |].
  - rewrite list_lookup_fmap, Ha. reflexivity.
  - rewrite list_lookup_fmap, Hb. simpl. congruence.
Qed.

Lemma turnOf_Some (g : CardGame.t) (j : nat) (i : JVal) (k : Player.Kind) :
  turnOf g j = Some (i, k) ->
  exists p, CardGame.players g !! ((CardGame.startingPlayerIndex g + j)
                                   mod length (CardGame.players g)) = Some p
            /\ Player.id p = i /\ Player.kind p = k.
Proof.
  unfold turnOf. destruct (CardGame.players g !! _) as [p|]; [|discriminate].
  simpl. intros E. inversion E; subst. eauto.
Qed.

(** One automated move keeps the match ready for the rest of the trick. *)
Lemma ready_step (g : CardGame.t) (h h1 : HandInfo.t) (p p' : Player.t)
    (c : Card.t) :
  ready g h ->
  length (HandInfo.moves h) < HandInfo.numPlayers ->
  CardGame.players g !! ((CardGame.startingPlayerIndex g
                          + length (HandInfo.moves h))
                         mod length (CardGame.players g)) = Some p ->
  identity p' = identity p ->
  HandInfo.moves h1 = HandInfo.moves h ++ [PlayerMove.mk p' c] ->
  ready (CardGame.putPlayer p p' g) h1.
Proof.
  intros (Hdec & Hlen & Hnd & Hturns & Hcards) Hlt Hp Hident Hmoves.
  pose proof (putPlayer_sameMatch p p' g Hident) as Hsame.
  destruct (sameMatch_fields _ _ Hsame) as (Hs1 & _ & Hd1 & Hl1).
  split; [congruence|]. split; [congruence|]. split.
  { rewrite (identity_ids (CardGame.players g)); [exact Hnd|]. apply Hsame. }
  split.
  - intros j m Hj. rewrite (turnOf_sameMatch _ _ _ Hsame).
    rewrite Hmoves in Hj.
    destruct (decide (j < length (HandInfo.moves h))) as [Hjl|Hjl].
    + rewrite lookup_app_l in Hj by exact Hjl. apply Hturns, Hj.
    + rewrite lookup_app_r in Hj by lia.
      destruct (j - length (HandInfo.moves h)) as [|d] eqn:Hd;
        [|rewrite lookup_cons, lookup_nil in Hj; discriminate].
      inversion Hj; subst m. simpl. exists (Player.kind p).
      assert (j = length (HandInfo.moves h)) as -> by lia.
      unfold turnOf. rewrite Hp, (identity_id _ _ Hident). reflexivity.
  - intros j q [Hj1 Hj2] Hq Hkind.
    rewrite Hmoves, length_app in Hj1. simpl in Hj1.
    rewrite Hs1, Hl1 in Hq. simpl in Hq.
    rewrite (replaceFirst_insert p p' _ _ Hnd Hp) in Hq.
    rewrite list_lookup_insert_ne in Hq.
    + apply (Hcards j q); [lia | exact Hq | exact Hkind].
    + rewrite Hlen. unfold HandInfo.numPlayers in *. intros E.
      apply turn_inj in E; lia.
Qed.

(** In a ready match the loop ends normally, and leaves the match ready. *)
Lemma askLoop_ok (fuel : nat) (trumpSuit : option JVal)
    (ps : list JVal) (w : MessageWriter.t) (g : CardGame.t)
    (sk : option ScoreKeeper.t) (h : HandInfo.t) :
  ready g h ->
  wellFormed h ->
  HandInfo.numPlayers <= length (HandInfo.moves h) + fuel ->
  exists s' g' h',
    GameServer.askLoop (S fuel) trumpSuit
      (GameServer.mk ps (IsWriter w) (Some g) sk (Some h)) = Some (Ok tt, s')
    /\ GameServer.cardGame s' = Some g'
    /\ GameServer.hand s' = Some h'
    /\ ready g' h'
    /\ (ledByFirst h -> ledByFirst h').
Proof.
  revert g h. induction fuel as [|fuel IH]; intros g h Hready Hwf Hfuel;
    rewrite askLoop_S; step; unfold wellFormed in Hwf.
  { unfold HandInfo.isComplete. rewrite bool_decide_eq_true_2 by lia. cbn.
    eauto 10. }
  destruct (HandInfo.isComplete h) eqn:Hc; cbn; [eauto 10|].
  apply bool_decide_eq_false in Hc.
  assert (length (HandInfo.moves h) < HandInfo.numPlayers) as Hlt by lia.
  pose proof Hready as (Hdec & Hlen & Hnd & Hturns & Hcards).
  destruct (lookup_lt_is_Some_2 (CardGame.players g)
              ((CardGame.startingPlayerIndex g + length (HandInfo.moves h))
               mod length (CardGame.players g))) as [p Hp].
  { apply Nat.mod_upper_bound. rewrite Hlen. discriminate. }
  unfold CardGame.getNextPlayer, HandInfo.getStep. rewrite Hdec, Hp. cbn.
  destruct (Player.isHuman p) eqn:Hhuman; cbn; [eauto 10|].
  assert (Player.kind p = Player.Automated) as Hkind.
  { unfold Player.isHuman in Hhuman. destruct (Player.kind p); congruence. }
  destruct (getNextMove_automated p h trumpSuit Hkind) as [mv Hmv].
  { apply (Hcards (length (HandInfo.moves h)) p); auto. }
  rewrite Hmv. cbn.
  apply getNextMove_Ok in Hmv as (_ & Hident & _).
  unfold HandInfo.addPlayerMove.
  unfold HandInfo.isComplete. rewrite bool_decide_eq_false_2 by exact Hc.
  cbn [PlayerMove.player PlayerMove.card].
  rewrite (identity_id _ _ Hident).
  assert (HandInfo.hasMoved (Player.id p) h = false) as ->.
  { apply bool_decide_eq_false. intros Hin.
    apply list_elem_of_fmap in Hin as (m & Hm & Hin). simpl in Hm.
    apply list_elem_of_lookup in Hin as (j & Hj).
    pose proof (lookup_lt_Some _ _ _ Hj) as Hjl.
    destruct (Hturns j m Hj) as (k & Hk).
    apply turnOf_Some in Hk as (q & Hq & Hqid & _).
    assert ((CardGame.startingPlayerIndex g + j)
              mod length (CardGame.players g)
            = (CardGame.startingPlayerIndex g + length (HandInfo.moves h))
                mod length (CardGame.players g)) as E
        by (eapply ids_lookup_inj; eauto; congruence).
    rewrite Hlen in E. unfold HandInfo.numPlayers in *.
    apply turn_inj in E; lia. }
  cbn.
  set (h1 := HandInfo.mk _ _).
  assert (HandInfo.moves h1
          = HandInfo.moves h ++ [PlayerMove.mk (snd mv) (fst mv)])
    as Hmoves by reflexivity.
  destruct (IH (CardGame.putPlayer p (snd mv) g) h1)
    as (s' & g' & h' & Hrun & Hg' & Hh' & Hready' & Hled').
  - eapply ready_step; eauto.
  - unfold wellFormed. rewrite Hmoves, length_app. simpl. lia.
  - rewrite Hmoves, length_app. simpl. lia.
  - exists s', g', h'. split; [exact Hrun|]. split; [exact Hg'|].
    split; [exact Hh'|]. split; [exact Hready'|].
    intros Hled. apply Hled'. unfold ledByFirst in *. subst h1. cbn.
    destruct (HandInfo.moves h) as [|m0 ms]; [reflexivity|exact Hled].
Qed.

Lemma best_spec (score : JVal -> nat) (ms : list PlayerMove.t) :
  match HandInfo.best score ms with
  | Some w => w ∈ ms
  | None => ms = []
  end.
Proof.
  unfold HandInfo.best.
  assert (forall (l : list PlayerMove.t) (acc : option PlayerMove.t),
            match foldl (fun acc m =>
                           match acc with
                           | None => Some m
                           | Some b =>
                               if Nat.ltb (score (Card.rank (PlayerMove.card b)))
                                          (score (Card.rank (PlayerMove.card m)))
                               then Some m else Some b
                           end) acc l with
            | Some w => w ∈ l \/ acc = Some w
            | None => acc = None /\ l = []
            end) as Hgen.
  { induction l as [|m l IH]; intros acc; simpl.
    - destruct acc; auto.
    - specialize (IH (match acc with
                      | None => Some m
                      | Some b =>
                          if Nat.ltb (score (Card.rank (PlayerMove.card b)))
                                     (score (Card.rank (PlayerMove.card m)))
                          then Some m else Some b
                      end)).
      destruct (foldl _ _ l) as [w|].
      + destruct IH as [Hin|Hacc]; [left; right; exact Hin|].
        destruct acc as [b|].
        * destruct (Nat.ltb _ _); inversion Hacc; subst; [left; left|right];
            reflexivity.
        * inversion Hacc; subst. left; left.
      + destruct IH as [Hacc _]. destruct acc as [b|];
          [destruct (Nat.ltb _ _)|]; discriminate. }
  specialize (Hgen ms None). destruct (foldl _ _ ms) as [w|].
  - destruct Hgen as [Hin|Habs]; [exact Hin | discriminate].
  - apply Hgen.
Qed.

(** A complete trick that was led by its first move has a winner, one of
    its moves. *)
Lemma decideWinner_ok `{Rules} (h : HandInfo.t) (trumpSuit : option JVal) :
  HandInfo.isComplete h = true ->
  ledByFirst h ->
  exists w, HandInfo.decideWinner h trumpSuit = Ok w /\ w ∈ HandInfo.moves h.
Proof.
  intros Hc Hled. unfold HandInfo.decideWinner. rewrite Hc. simpl.
  set (trumps := match trumpSuit with
                 | Some tr => HandInfo.ofSuit tr (HandInfo.moves h)
                 | None => []
                 end).
  assert (forall w, w ∈ trumps -> w ∈ HandInfo.moves h) as Hsub.
  { subst trumps. destruct trumpSuit as [tr|]; intros w Hw.
    - unfold HandInfo.ofSuit in Hw. apply list_elem_of_filter in Hw. apply Hw.
    - apply elem_of_nil in Hw. destruct Hw. }
  pose proof (best_spec trumpOrder trumps) as Hbest.
  destruct (HandInfo.best trumpOrder trumps) as [w|]; [eauto|].
  apply bool_decide_eq_true in Hc. unfold ledByFirst in Hled.
  destruct (HandInfo.moves h) as [|m0 ms] eqn:Hms; [discriminate|].
  simpl in Hled. rewrite Hled.
  pose proof (best_spec plainOrder
                (HandInfo.ofSuit (Card.suit (PlayerMove.card m0)) (m0 :: ms)))
    as Hplain.
  destruct (HandInfo.best plainOrder _) as [w|].
  - exists w. split; [reflexivity|].
    unfold HandInfo.ofSuit in Hplain. apply list_elem_of_filter in Hplain.
    apply Hplain.
  - exfalso. unfold HandInfo.ofSuit in Hplain.
    assert (m0 ∈ filter (fun m => Card.suit (PlayerMove.card m)
                                  = Card.suit (PlayerMove.card m0)) (m0 :: ms))
      as Hin by (apply list_elem_of_filter; split; [reflexivity|left]).
    rewrite Hplain in Hin. apply elem_of_nil in Hin. exact Hin.
Qed.

Lemma getPlayerById_some (g : CardGame.t) (q : Player.t) :
  CardGame.decidedFor g = None ->
  q ∈ CardGame.players g ->
  exists p, CardGame.getPlayerById (Player.id q) g = Ok p.
Proof.
  intros Hopen Hin. unfold CardGame.getPlayerById. rewrite Hopen.
  destruct (find_exists (fun p => bool_decide (Player.id p = Player.id q))
              (CardGame.players g) q) as [p ->]; [| |eauto].
  - apply list_elem_of_In, Hin.
  - apply bool_decide_eq_true. reflexivity.
Qed.

(** In a ready match with a writer and a score keeper [askPlayers] returns
    normally. *)
Lemma askPlayers_ok `{Rules}
    (ps : list JVal) (w : MessageWriter.t) (g : CardGame.t)
    (sk : ScoreKeeper.t) (h : HandInfo.t) :
  ready g h ->
  wellFormed h ->
  ledByFirst h ->
  exists s',
    GameServer.askPlayers
      (GameServer.mk ps (IsWriter w) (Some g) (Some sk) (Some h))
    = Some (Ok tt, s').
Proof.
  intros Hready Hwf Hled. unfold GameServer.askPlayers. step.
  destruct (askLoop_ok HandInfo.numPlayers (CardGame.trumpSuit g) ps w g
              (Some sk) h Hready Hwf)
    as (s1 & g' & h' & Hloop & Hg' & Hh' & Hready' & Hled'); [lia|].
  rewrite Hloop.
  apply askLoop_spec in Hloop
    as (g1 & h1 & added & wr' & -> & _ & _ & _ & Hexit).
  cbn in Hg', Hh'. inversion Hg'; subst g1. inversion Hh'; subst h1. cbn.
  assert (exists w', wr' = IsWriter w') as [w' ->]
      by (destruct Hexit as [[-> _]|(_ & _ & (w0 & E & ->) & _)]; eauto).
  destruct (HandInfo.isComplete h') eqn:Hc; cbn; [|eauto].
  destruct (decideWinner_ok h' (CardGame.trumpSuit g) Hc (Hled' Hled))
    as (wm & -> & Hin). cbn.
  destruct Hready' as (Hdec & _ & _ & Hturns & _).
  apply list_elem_of_lookup in Hin as (j & Hj).
  destruct (Hturns j wm Hj) as (k & Hk).
  apply turnOf_Some in Hk as (q & Hq & Hqid & _).
  destruct (getPlayerById_some g' q Hdec) as [wp Hwp];
    [eapply list_elem_of_lookup_2, Hq|].
  apply getPlayerById_Ok in Hwp as (Hid & i & Hi & _).
  unfold PlayerMove.getPlayer, CardGame.changePlayingOrder.
  rewrite Hdec, <- Hqid, Hi. cbn. eauto.
Qed.

(** ** Asking the players *)

(** C3.  On a server with a game and a well-formed trick [askPlayers]
    returns, and every move it has added to the trick was made by the
    automated player whose turn it was.  When it returns normally with the
    trick still incomplete, it has stopped at a human player: one
    ['askMove'] message carrying the trick as it stands has been sent and
    nothing else has changed but the hands of the automated players that
    moved.  When the turn is a human player's on entry, the only effect of
    the call is that message: no move is made and the trick is the one of
    the state before the call.  In a match that is ready for the trick (not
    concluded, four distinct players, every automated player still to move
    holding a card) the call returns normally. *)
Theorem askPlayers_suspends_at_human `{Rules}
    (s : GameServer.t) (g : CardGame.t) (h : HandInfo.t) :
  GameServer.cardGame s = Some g ->
  GameServer.hand s = Some h ->
  wellFormed h ->
  exists r s' h' added,
    GameServer.askPlayers s = Some (r, s')
    /\ GameServer.hand s' = Some h'
    /\ HandInfo.moves h' = HandInfo.moves h ++ added
    /\ automatedMoves g (length (HandInfo.moves h)) added
    /\ (r = Ok tt -> HandInfo.isComplete h' = false ->
        exists w g' i,
          GameServer.writer s = IsWriter w
          /\ s' = GameServer.mk (GameServer.players s)
                    (IsWriter (MessageWriter.sendMessage (askMoveMsg h') w))
                    (Some g') (GameServer.scores s) (Some h')
          /\ sameMatch g g'
          /\ turnOf g (HandInfo.getStep h') = Some (i, Player.Human))
    /\ (forall player w,
          HandInfo.isComplete h = false ->
          CardGame.getNextPlayer (HandInfo.getStep h) g = Ok player ->
          Player.isHuman player = true ->
          GameServer.writer s = IsWriter w ->
          r = Ok tt
          /\ s' = GameServer.withWriter
                    (IsWriter (MessageWriter.sendMessage (askMoveMsg h) w)) s)
    /\ (forall w sk,
          GameServer.writer s = IsWriter w ->
          GameServer.scores s = Some sk ->
          ready g h -> ledByFirst h ->
          r = Ok tt).
Proof.
  intros Hg Hh Hwf. destruct s as [ps wr cg sk hnd]. simpl in *. subst.
  destruct (askPlayers_returns (GameServer.mk ps wr (Some g) sk (Some h)))
    as (r & s' & Hrun).
  { intros h0 E. inversion E; subst. exact Hwf. }
  pose proof (askPlayers_spec _ _ _ _ _ _ _ Hrun)
    as (g1 & h' & added & Hsame & Hmoves & Hauto & Hhand & Hps & Hout).
  exists r, s', h', added.
  split; [exact Hrun|]. split; [exact Hhand|]. split; [exact Hmoves|].
  split; [exact Hauto|]. split; [|split].
  - intros Hr Hc.
    destruct Hout as [(_ & _ & (w & -> & ->) & (i & Hi) & _)
                     |[(_ & Hc' & _)|(e & He & _)]]; [|congruence..].
    exists w, g1, i. repeat split; auto; apply Hsame.
  - intros player w Hc Hnext Hhuman E. subst wr.
    revert Hrun. unfold GameServer.askPlayers. step.
    rewrite askLoop_S. step. rewrite Hc. cbn. rewrite Hnext. cbn.
    rewrite Hhuman. cbn. rewrite Hc. cbn.
    intros E. inversion E; subst. split; reflexivity.
  - intros w sk0 -> -> Hready Hled.
    destruct (askPlayers_ok ps w g sk0 h Hready Hwf Hled) as [s2 Hok].
    congruence.
Qed.

(** The demo match is ready for its second trick. *)
Example second_trick_ready :
  ready (Demo.gameOf Demo.secondTrick) HandInfo.new.
Proof.
  split; [vm_compute; reflexivity|]. split; [vm_compute; reflexivity|].
  split.
  { apply (bool_decide_eq_true_1
             (NoDup (Player.id
                       <$> CardGame.players (Demo.gameOf Demo.secondTrick)))).
    vm_compute. reflexivity. }
  split.
  - intros j m Hj. simpl in Hj. rewrite lookup_nil in Hj. discriminate.
  - intros j p [_ Hj] Hp Hkind Hcards.
    unfold HandInfo.numPlayers in Hj.
    destruct j as [|[|[|[|j]]]]; [| | | |lia];
      vm_compute in Hp; inversion Hp; subst p; discriminate.
Qed.

(** The second trick of the demo match: player 4 won the first trick and
    leads, the human player is next. *)
Lemma askPlayers_suspends_at_human_witness :
  exists r s' h' added,
    @GameServer.askPlayers Demo.rules Demo.secondTrick = Some (r, s')
    /\ GameServer.hand s' = Some h'
    /\ HandInfo.moves h' = HandInfo.moves HandInfo.new ++ added
    /\ automatedMoves (Demo.gameOf Demo.secondTrick)
         (length (HandInfo.moves HandInfo.new)) added
    /\ (r = Ok tt -> HandInfo.isComplete h' = false ->
        exists w g' i,
          GameServer.writer Demo.secondTrick = IsWriter w
          /\ s' = GameServer.mk (GameServer.players Demo.secondTrick)
                    (IsWriter (MessageWriter.sendMessage (askMoveMsg h') w))
                    (Some g') (GameServer.scores Demo.secondTrick) (Some h')
          /\ sameMatch (Demo.gameOf Demo.secondTrick) g'
          /\ turnOf (Demo.gameOf Demo.secondTrick) (HandInfo.getStep h')
             = Some (i, Player.Human))
    /\ (forall player w,
          HandInfo.isComplete HandInfo.new = false ->
          CardGame.getNextPlayer (HandInfo.getStep HandInfo.new)
            (Demo.gameOf Demo.secondTrick) = Ok player ->
          Player.isHuman player = true ->
          GameServer.writer Demo.secondTrick = IsWriter w ->
          r = Ok tt
          /\ s' = GameServer.withWriter
                    (IsWriter (MessageWriter.sendMessage
                                 (askMoveMsg HandInfo.new) w))
                    Demo.secondTrick)
    /\ (forall w sk,
          GameServer.writer Demo.secondTrick = IsWriter w ->
          GameServer.scores Demo.secondTrick = Some sk ->
          ready (Demo.gameOf Demo.secondTrick) HandInfo.new ->
          ledByFirst HandInfo.new ->
          r = Ok tt).
Proof.
  apply (@askPlayers_suspends_at_human Demo.rules Demo.secondTrick
           (Demo.gameOf Demo.secondTrick) HandInfo.new).
  - vm_compute. reflexivity.
  - vm_compute. reflexivity.
  - unfold wellFormed. simpl. lia.
Defined.

(** What the call does there: player 4 plays the first card of the hand,
    and the human player is asked with that one move on the trick. *)
Example askPlayers_second_trick :
  exists s',
    @GameServer.askPlayers Demo.rules Demo.secondTrick = Some (Ok tt, s')
    /\ GameServer.hand s'
       = Some (HandInfo.mk [PlayerMove.mk (Demo.playerAt 3 s')
                              (Card.mk Demo.S4 (JNum 10))]
                           (Some Demo.S4))
    /\ last (GameServer.outbox s') = Some (askMoveMsg (Demo.trickOf s')).
Proof. eexists. repeat split; vm_compute; reflexivity. Qed.

(** In the waiting match the trick is empty and the human player leads:
    the call only repeats the ['askMove']. *)
Example askPlayers_human_leads :
  @GameServer.askPlayers Demo.rules Demo.waiting
  = Some (Ok tt,
          GameServer.withWriter
            (IsWriter (MessageWriter.sendMessage (askMoveMsg HandInfo.new)
                         (Demo.writerOf Demo.waiting)))
            Demo.waiting).
Proof. vm_compute. reflexivity. Qed.

(** ** A complete trick *)

(** C4.  When [askPlayers] returns normally and leaves a complete trick,
    it has decided the winner of that trick, registered the player held by
    the winning move with the score keeper, re-anchored the playing order at
    that player, and sent one message, ['handPlayed'], with the trick, the
    winning card, the winner's id and the scores after the registration.
    After the re-anchoring [getNextPlayer(0)] returns the member of the
    roster that has the winner's id; when the winner is one of the players
    of the game and their ids are distinct, that member is the winner (the
    same id, name, team and class).  And the call does return normally when
    the match is ready for the trick and the server has a writer and a
    score keeper. *)
Theorem askPlayers_resolves_trick `{Rules}
    (s : GameServer.t) (g : CardGame.t) (h : HandInfo.t) :
  GameServer.cardGame s = Some g ->
  GameServer.hand s = Some h ->
  (forall s' h',
     GameServer.askPlayers s = Some (Ok tt, s') ->
     GameServer.hand s' = Some h' ->
     HandInfo.isComplete h' = true ->
     exists winningMove sk g' leader,
       HandInfo.decideWinner h' (CardGame.trumpSuit g) = Ok winningMove
       /\ GameServer.scores s = Some sk
       /\ GameServer.scores s'
          = Some (ScoreKeeper.registerWin
                    (PlayerMove.getPlayer winningMove) sk)
       /\ GameServer.cardGame s' = Some g'
       /\ CardGame.getNextPlayer 0 g' = Ok leader
       /\ leader ∈ CardGame.players g'
       /\ Player.id leader = Player.id (PlayerMove.getPlayer winningMove)
       /\ (NoDup (Player.id <$> CardGame.players g) ->
           identity (PlayerMove.getPlayer winningMove)
             ∈ identity <$> CardGame.players g ->
           identity leader = identity (PlayerMove.getPlayer winningMove))
       /\ GameServer.outbox s' =
            GameServer.outbox s ++
            [handPlayedMsg h' (PlayerMove.card winningMove)
               (Player.id (PlayerMove.getPlayer winningMove))
               (ScoreKeeper.getScores
                  (ScoreKeeper.registerWin
                     (PlayerMove.getPlayer winningMove) sk))])
  /\ (forall w sk,
        GameServer.writer s = IsWriter w ->
        GameServer.scores s = Some sk ->
        ready g h -> wellFormed h -> ledByFirst h ->
        exists s', GameServer.askPlayers s = Some (Ok tt, s')).
Proof.
  intros Hg Hh. destruct s as [ps wr cg sk hnd]. simpl in *. subst. split.
  - intros s' h' Hrun Hh' Hc. apply askPlayers_spec in Hrun
      as (g1 & h1 & added & Hsame & Hmoves & Hauto & Hhand & Hps & Hout).
    assert (h1 = h') as -> by congruence.
    destruct Hout as [(_ & Hc' & _)
                     |[(_ & _ & w & wm & wp & sk0 & g2 & -> & -> & Hwin & ->
                        & Hch & ->)
                      |(e & He & _)]]; [congruence| |discriminate].
    pose proof (changePlayingOrder_Ok _ _ _ Hch) as (_ & _ & Hps2 & _).
    destruct (changePlayingOrder_leads _ _ _ Hch)
      as (leader & Hlead & Hid & Hin).
    exists wm, sk0, g2, leader. cbn.
    split; [exact Hwin|]. split; [reflexivity|]. split; [reflexivity|].
    split; [reflexivity|]. split; [exact Hlead|].
    split; [rewrite Hps2; exact Hin|]. split; [exact Hid|].
    split; [|reflexivity].
    intros Hnd Hmember. destruct Hsame as [_ Hident].
    rewrite <- Hident in Hmember.
    apply list_elem_of_fmap in Hmember as (q & Hq & Hqin).
    assert (q = leader) as <-; [|symmetry; exact Hq].
    apply (ids_elem_of_inj (CardGame.players g1)); auto.
    + rewrite (identity_ids (CardGame.players g) (CardGame.players g1) Hident).
      exact Hnd.
    + rewrite Hid. symmetry. apply identity_id. exact Hq.
  - intros w sk0 -> -> Hready Hwf Hled. apply askPlayers_ok; assumption.
Qed.

(** The first card of the match: the human player leads the seven of S1,
    the three automated players follow, and the trick resolves. *)
Lemma askPlayers_resolves_trick_witness :
  exists winningMove sk g' leader,
    @HandInfo.decideWinner Demo.rules (Demo.trickOf Demo.resolved)
      (CardGame.trumpSuit (Demo.gameOf Demo.led)) = Ok winningMove
    /\ GameServer.scores Demo.led = Some sk
    /\ GameServer.scores Demo.resolved
       = Some (@ScoreKeeper.registerWin Demo.rules
                 (PlayerMove.getPlayer winningMove) sk)
    /\ GameServer.cardGame Demo.resolved = Some g'
    /\ CardGame.getNextPlayer 0 g' = Ok leader
    /\ leader ∈ CardGame.players g'
    /\ Player.id leader = Player.id (PlayerMove.getPlayer winningMove)
    /\ (NoDup (Player.id <$> CardGame.players (Demo.gameOf Demo.led)) ->
        identity (PlayerMove.getPlayer winningMove)
          ∈ identity <$> CardGame.players (Demo.gameOf Demo.led) ->
        identity leader = identity (PlayerMove.getPlayer winningMove))
    /\ GameServer.outbox Demo.resolved =
         GameServer.outbox Demo.led ++
         [handPlayedMsg (Demo.trickOf Demo.resolved)
            (PlayerMove.card winningMove)
            (Player.id (PlayerMove.getPlayer winningMove))
            (ScoreKeeper.getScores
               (@ScoreKeeper.registerWin Demo.rules
                  (PlayerMove.getPlayer winningMove) sk))].
Proof.
  apply (proj1 (@askPlayers_resolves_trick Demo.rules Demo.led
                  (Demo.gameOf Demo.led) (Demo.trickOf Demo.led)
                  ltac:(vm_compute; reflexivity)
                  ltac:(vm_compute; reflexivity))
           Demo.resolved (Demo.trickOf Demo.resolved));
    vm_compute; reflexivity.
Defined.

(** The winner is the player the move holds, not a player looked up by
    id.  In the rematch the trick left over from the first match is
    completed by the seven of S4 of the human player and won by the ace of
    the former player 4, of team West: the win goes to West, a team of the
    first match, and the player of the new roster with id 4, of team South,
    leads the next trick. *)
Example leftover_trick_credits_its_player :
  exists s',
    @GameServer.makeMove Demo.rules (Demo.moveReq Demo.S4 (JNum 7))
      Demo.rematch = Some (Ok tt, s')
    /\ map_to_list (ScoreKeeper.getScores (Demo.keeperOf s'))
       = [(JStr "West", 7); (JStr "South", 0); (JStr "North", 0)]
    /\ Player.team <$> CardGame.players (Demo.gameOf s')
       = [JStr "North"; JStr "South"; JStr "North"; JStr "South"]
    /\ (exists leader,
          CardGame.getNextPlayer 0 (Demo.gameOf s') = Ok leader
          /\ Player.id leader = JNum 4
          /\ Player.team leader = JStr "South").
Proof.
  eexists. split; [vm_compute; reflexivity|].
  split; [vm_compute; reflexivity|]. split; [vm_compute; reflexivity|].
  eexists. split; [vm_compute; reflexivity|]. split; reflexivity.
Qed.

(** The winner of that trick: player 4, with the jack of trumps. *)
Example first_trick_winner :
  last (GameServer.outbox Demo.resolved)
  = Some (handPlayedMsg (Demo.trickOf Demo.resolved)
            (Card.mk Demo.S1 (JStr "J")) (JNum 4)
            (ScoreKeeper.getScores (Demo.keeperOf Demo.resolved)))
  /\ ScoreKeeper.scoreOf (JStr "West") (Demo.keeperOf Demo.resolved) = 7
  /\ CardGame.getNextPlayer 0 (Demo.gameOf Demo.resolved)
     = Ok (Demo.playerAt 3 Demo.resolved).
Proof. repeat split; vm_compute; reflexivity. Qed.

#[local] Arguments GameServer.askPlayers : simpl never.

(** ** Checking the outcome of a round *)

Lemma isGameDecided_getWinningTeam `{Rules} (sk : ScoreKeeper.t) :
  ScoreKeeper.isGameDecided sk = true ->
  exists team, ScoreKeeper.getWinningTeam sk = Ok team
               /\ winThreshold <= ScoreKeeper.scoreOf team sk.
Proof.
  unfold ScoreKeeper.isGameDecided, ScoreKeeper.getWinningTeam.
  intros Hex. destruct (find _ _) as [[tm n]|] eqn:F.
  - exists tm. split; [reflexivity|].
    apply find_some in F as [Hin Hreached].
    apply list_elem_of_In, elem_of_map_to_list in Hin.
    unfold ScoreKeeper.scoreOf. rewrite Hin. simpl.
    apply Nat.leb_le. exact Hreached.
  - apply existsb_exists in Hex as (x & Hin & Hx).
    rewrite (find_none _ _ F x Hin) in Hx. discriminate.
Qed.

(** The error handler changes nothing but the writer, and always raises. *)
Lemma report_inv {A} (e : Exn) (s : GameServer.t) (r : Res A)
    (s' : GameServer.t) :
  GameServer.report e s = Some (r, s') ->
  (exists e', r = Raise e')
  /\ GameServer.players s' = GameServer.players s
  /\ GameServer.cardGame s' = GameServer.cardGame s
  /\ GameServer.scores s' = GameServer.scores s
  /\ GameServer.hand s' = GameServer.hand s.
Proof.
  destruct s as [ps wr cg sk hnd]. step.
  destruct wr; cbn; intros E; inversion E; subst; cbn; eauto 10.
Qed.

Lemma report_returns {A} (e : Exn) (s : GameServer.t) :
  exists r s', @GameServer.report A e s = Some (r, s').
Proof. destruct s as [ps wr cg sk hnd]. step. destruct wr; cbn; eauto. Qed.

(** C6.  On a started match with a writer, ['isReady'] has one of two
    outcomes.  If the score keeper reports the match decided, the winning
    team (a team that has reached the threshold) is passed to [processWin]
    and one ['gameDecided'] message with the scores and that team is sent.
    Otherwise a new empty trick replaces the current one and [askPlayers]
    runs on it; the call returns, and when it returns normally in a match
    where a human player has a turn, the one message sent is an ['askMove']
    with the moves of the automated players that precede the human player,
    whose turn it is.  It does return normally when the match is ready for
    a trick (not concluded, four distinct players, every automated player
    holding a card); when the human player leads, it asks for the first card
    of the empty trick. *)
Theorem isReady_outcomes `{Rules}
    (req : Request) (s : GameServer.t) (sk : ScoreKeeper.t)
    (g : CardGame.t) (w : MessageWriter.t) :
  GameServer.scores s = Some sk ->
  GameServer.cardGame s = Some g ->
  GameServer.writer s = IsWriter w ->
  (ScoreKeeper.isGameDecided sk = true ->
   exists winningTeam,
     ScoreKeeper.getWinningTeam sk = Ok winningTeam
     /\ winThreshold <= ScoreKeeper.scoreOf winningTeam sk
     /\ GameServer.isReady req s =
          Some (Ok tt,
                GameServer.mk (GameServer.players s)
                  (IsWriter (MessageWriter.sendMessage
                               (gameDecidedMsg (ScoreKeeper.getScores sk)
                                               winningTeam) w))
                  (Some (CardGame.processWin winningTeam g))
                  (Some sk) (GameServer.hand s)))
  /\ (ScoreKeeper.isGameDecided sk = false ->
      exists r s',
        GameServer.isReady req s = Some (r, s')
        /\ (r = Ok tt -> humanTakesPart g ->
            exists h' g' i,
              s' = GameServer.mk (GameServer.players s)
                     (IsWriter (MessageWriter.sendMessage (askMoveMsg h') w))
                     (Some g') (Some sk) (Some h')
              /\ sameMatch g g'
              /\ automatedMoves g 0 (HandInfo.moves h')
              /\ HandInfo.isComplete h' = false
              /\ turnOf g (HandInfo.getStep h') = Some (i, Player.Human))
        /\ (ready g HandInfo.new -> r = Ok tt))
  /\ (ScoreKeeper.isGameDecided sk = false ->
      forall player,
        CardGame.getNextPlayer 0 g = Ok player ->
        Player.isHuman player = true ->
        GameServer.isReady req s =
          Some (Ok tt,
                GameServer.mk (GameServer.players s)
                  (IsWriter (MessageWriter.sendMessage
                               (askMoveMsg HandInfo.new) w))
                  (Some g) (Some sk) (Some HandInfo.new))).
Proof.
  intros Hsk Hg Hw. destruct s as [ps wr cg sk0 hnd]. simpl in *. subst.
  split; [|split]; intros Hdec.
  - destruct (isGameDecided_getWinningTeam sk Hdec) as (tm & Htm & Hreach).
    exists tm. split; [exact Htm|]. split; [exact Hreach|].
    unfold GameServer.isReady. step. rewrite Hdec. cbn. rewrite Htm.
    reflexivity.
  - unfold GameServer.isReady, tryExcept.
    unfold bind, GameServer.theScores, GameServer.modify, GameServer.withHand.
    cbn [GameServer.scores GameServer.players GameServer.writer
         GameServer.cardGame GameServer.hand].
    rewrite Hdec.
    cbn [GameServer.scores GameServer.players GameServer.writer
         GameServer.cardGame GameServer.hand].
    destruct (askPlayers_returns
                (GameServer.mk ps (IsWriter w) (Some g) (Some sk)
                               (Some HandInfo.new)))
      as (r0 & s1 & Hrun).
    { intros h0 E. inversion E; subst. unfold wellFormed. simpl.
      unfold HandInfo.numPlayers. lia. }
    rewrite Hrun.
    pose proof (askPlayers_spec _ _ _ _ _ _ _ Hrun)
      as (g1 & h' & added & Hsame & Hmoves & Hauto & Hhand & Hps & Hout).
    simpl in Hmoves, Hauto.
    destruct r0 as [[]|e].
    + exists (Ok tt), s1. split; [reflexivity|]. split; [|reflexivity].
      intros _ (step & i & Hstep & Hturn).
      destruct Hout as [(_ & Hc & (w' & Ew & ->) & (i' & Hi') & _)
                       |[(_ & Hc & _)|(e & He & _)]]; [| |discriminate].
      * inversion Ew; subst w'. exists h', g1, i'.
        rewrite Hmoves. repeat split; auto; apply Hsame.
      * exfalso. apply bool_decide_eq_true in Hc.
        rewrite Hmoves in Hc.
        destruct (lookup_lt_is_Some_2 added step) as [m Hm];
          [rewrite Hc; exact Hstep|].
        specialize (Hauto step m Hm). simpl in Hauto. congruence.
    + destruct (@report_returns unit e s1) as (r & s' & Hrep).
      rewrite Hrep. exists r, s'. split; [reflexivity|]. split.
      * intros ->. apply report_inv in Hrep as ((e' & He') & _).
        discriminate.
      * intros Hready.
        destruct (askPlayers_ok ps w g sk HandInfo.new Hready)
          as [s2 Hok]; [| |congruence].
        -- unfold wellFormed. simpl. unfold HandInfo.numPlayers. lia.
        -- reflexivity.
  - intros player Hnext Hhuman.
    unfold GameServer.isReady, GameServer.askPlayers. step.
    rewrite Hdec. cbn. rewrite askLoop_S. step.
    change (HandInfo.isComplete HandInfo.new) with false. cbn.
    rewrite Hnext. cbn. rewrite Hhuman. reflexivity.
Qed.

(** The createPlayers roster: whoever leads, the human player has one of the
    four turns. *)
Lemma createPlayers_humanTakesPart (g : CardGame.t) (n t1 t2 : JVal) :
  identity <$> CardGame.players g
    = identity <$> GameServer.createPlayers n t1 t2 ->
  humanTakesPart g.
Proof.
  intros Hident.
  assert (length (CardGame.players g) = 4) as Hlen
      by (rewrite <- (length_fmap identity), Hident; reflexivity).
  set (k := CardGame.startingPlayerIndex g mod 4).
  exists ((4 - k) mod 4), (JNum 1). split.
  - apply Nat.mod_upper_bound. discriminate.
  - unfold turnOf. rewrite Hlen.
    assert ((CardGame.startingPlayerIndex g + (4 - k) mod 4) mod 4 = 0)
      as ->.
    { assert (k < 4) as Hk by (apply Nat.mod_upper_bound; discriminate).
      rewrite Nat.Div0.add_mod_idemp_r, <- Nat.Div0.add_mod_idemp_l.
      fold k. replace (k + (4 - k)) with 4 by lia. reflexivity. }
    destruct (CardGame.players g) as [|p ps]; [discriminate|].
    rewrite fmap_cons in Hident. inversion Hident as [[Hp _]].
    simpl. unfold identity in Hp. inversion Hp. congruence.
Qed.

(** The match after the deal: no team has a point, the human player leads
    and is asked for a card. *)
Lemma isReady_outcomes_witness :
  @GameServer.isReady Demo.rules Demo.readyReq Demo.trumped =
    Some (Ok tt,
          GameServer.mk (GameServer.players Demo.trumped)
            (IsWriter (MessageWriter.sendMessage (askMoveMsg HandInfo.new)
                         (Demo.writerOf Demo.trumped)))
            (Some (Demo.gameOf Demo.trumped))
            (Some (Demo.keeperOf Demo.trumped))
            (Some HandInfo.new)).
Proof.
  apply (proj2 (proj2
           (@isReady_outcomes Demo.rules Demo.readyReq Demo.trumped
              (Demo.keeperOf Demo.trumped)
              (Demo.gameOf Demo.trumped)
              (Demo.writerOf Demo.trumped)
              ltac:(vm_compute; reflexivity)
              ltac:(vm_compute; reflexivity)
              ltac:(vm_compute; reflexivity)))
           ltac:(vm_compute; reflexivity)
           (Demo.playerAt 0 Demo.trumped)).
  - vm_compute. reflexivity.
  - vm_compute. reflexivity.
Defined.

(** ** What a request can do to the scores and to a concluded match *)

Lemma advances_refl (s : GameServer.t) : advances s s.
Proof. split; auto. Qed.

Lemma advances_trans (s1 s2 s3 : GameServer.t) :
  advances s1 s2 -> advances s2 s3 -> advances s1 s3.
Proof.
  intros [L12 C12] [L23 C23]. split; [|auto].
  intros tm. etransitivity; [apply L12 | apply L23].
Qed.

(** A step that leaves the score keeper alone and keeps the mark of
    [processWin] advances. *)
Lemma advances_frame (s s' : GameServer.t) :
  GameServer.scores s' = GameServer.scores s ->
  (forall g, GameServer.cardGame s = Some g ->
     exists g', GameServer.cardGame s' = Some g'
                /\ (CardGame.decidedFor g <> None ->
                    CardGame.decidedFor g' <> None)) ->
  advances s s'.
Proof.
  intros Hsk Hcg. split.
  - intros tm. unfold teamScore. rewrite Hsk. reflexivity.
  - intros (g & tm & Hg & Hd). destruct (Hcg g Hg) as (g' & Hg' & Hkeep).
    destruct (CardGame.decidedFor g') as [tm'|] eqn:Hd'.
    + exists g', tm'. auto.
    + destruct Hkeep; congruence.
Qed.

Lemma report_advances {A} (e : Exn) (s : GameServer.t) (r : Res A)
    (s' : GameServer.t) :
  GameServer.report e s = Some (r, s') -> advances s s'.
Proof.
  intros Hrep. apply report_inv in Hrep as (_ & _ & Hcg & Hsk & _).
  apply advances_frame; [exact Hsk|]. intros g Hg. exists g.
  split; [congruence | auto].
Qed.

Lemma registerWin_scoreOf `{Rules} (p : Player.t) (sk : ScoreKeeper.t)
    (tm : JVal) :
  ScoreKeeper.scoreOf tm sk
  <= ScoreKeeper.scoreOf tm (ScoreKeeper.registerWin p sk).
Proof.
  unfold ScoreKeeper.registerWin, ScoreKeeper.scoreOf at 2. simpl.
  rewrite lookup_insert. case_decide as Htm; simpl.
  - subst tm. lia.
  - reflexivity.
Qed.

Lemma dealPartial_decidedFor (count : nat) (g g' : CardGame.t) :
  CardGame.dealPartial count g = Ok g' ->
  CardGame.decidedFor g' = CardGame.decidedFor g.
Proof.
  unfold CardGame.dealPartial. destruct (Nat.ltb _ _); [discriminate|].
  intros E. inversion E; subst. reflexivity.
Qed.

Lemma dealFirstCards_decidedFor `{Rules} (g g' : CardGame.t) :
  CardGame.dealFirstCards g = Ok g' ->
  CardGame.decidedFor g' = CardGame.decidedFor g.
Proof.
  unfold CardGame.dealFirstCards.
  destruct (CardGame.dealPartial _ g) as [g1|e] eqn:Hd; [|discriminate].
  intros E. inversion E; subst. simpl. eapply dealPartial_decidedFor, Hd.
Qed.

Lemma chooseTrump_decidedFor `{Rules} (s : JVal) (g g' : CardGame.t) :
  CardGame.chooseTrump s g = Ok g' ->
  CardGame.decidedFor g' = CardGame.decidedFor g.
Proof.
  unfold CardGame.chooseTrump. destruct (_ && _); [|discriminate].
  intros E. inversion E; subst. reflexivity.
Qed.

Lemma dealCards_decidedFor (g g' : CardGame.t) :
  CardGame.dealCards g = Ok g' ->
  CardGame.decidedFor g' = CardGame.decidedFor g.
Proof.
  unfold CardGame.dealCards, CardGame.dealRemainder.
  destruct (CardGame.trumpSuit g); [|discriminate].
  destruct (bool_decide _); [discriminate|]. apply dealPartial_decidedFor.
Qed.

(** [askPlayers] never lowers a score and never lifts the mark. *)
Lemma askPlayers_advances `{Rules} (s : GameServer.t) (r : Res unit)
    (s' : GameServer.t) :
  GameServer.askPlayers s = Some (r, s') -> advances s s'.
Proof.
  destruct s as [ps wr cg sk hnd].
  destruct cg as [g|].
  2:{ unfold GameServer.askPlayers. step. intros E. inversion E; subst.
      apply advances_refl. }
  destruct hnd as [h|].
  2:{ unfold GameServer.askPlayers. step. rewrite askLoop_S. step.
      intros E. inversion E; subst. apply advances_refl. }
  intros Hrun. apply askPlayers_spec in Hrun
    as (g1 & h' & added & Hsame & _ & _ & _ & _ & Hout).
  destruct (sameMatch_fields _ _ Hsame) as (_ & _ & Hdec & _).
  destruct Hout as [(_ & _ & (w & -> & ->) & _)
                   |[(_ & _ & w & wm & wp & sk0 & g2 & -> & -> & _ & _
                      & Hch & ->)
                    |(e & _ & _ & Hsk & g2 & Hg2 & Hd2)]].
  - apply advances_frame; [reflexivity|]. cbn. intros g0 E.
    inversion E; subst g0. exists g1. split; [reflexivity|congruence].
  - apply changePlayingOrder_Ok in Hch as (Hd1 & _). split.
    + intros tm. unfold teamScore. cbn. apply registerWin_scoreOf.
    + intros (g0 & tm & E & Hd). cbn in E. inversion E; subst g0. congruence.
  - split.
    + intros tm. unfold teamScore.
      destruct Hsk as [->|(wp & sk0 & -> & ->)]; cbn;
        [reflexivity | apply registerWin_scoreOf].
    + intros (g0 & tm & E & Hd). cbn in E. inversion E; subst g0.
      exists g2, tm. split; [exact Hg2 | congruence].
Qed.

(** A concluded match lets [askPlayers] end in an exception only. *)
Lemma askPlayers_concluded `{Rules} (s : GameServer.t) (r : Res unit)
    (s' : GameServer.t) :
  isConcluded s ->
  GameServer.askPlayers s = Some (r, s') ->
  exists e, r = Raise e.
Proof.
  intros (g & tm & Hg & Hd). destruct s as [ps wr cg sk hnd].
  simpl in Hg. subst cg. destruct hnd as [h|].
  2:{ unfold GameServer.askPlayers. step. rewrite askLoop_S. step.
      intros E. inversion E; subst. eauto. }
  intros Hrun. apply askPlayers_spec in Hrun
    as (g1 & h' & added & Hsame & _ & _ & _ & _ & Hout).
  destruct (sameMatch_fields _ _ Hsame) as (_ & _ & Hdec & _).
  destruct Hout as [(_ & _ & _ & _ & Hopen)
                   |[(_ & _ & w & wm & wp & sk0 & g2 & _ & _ & _ & _
                      & Hch & _)
                    |(e & -> & _)]]; [| |eauto].
  - (* suspended: [getNextPlayer] has answered, so the match is open *)
    congruence.
  - apply changePlayingOrder_Ok in Hch as (Hd1 & _). congruence.
Qed.

Lemma tryExcept_report_advances {A} (body : M GameServer.t A)
    (s : GameServer.t) (r : Res A) (s' : GameServer.t) :
  (forall r1 s1, body s = Some (r1, s1) -> advances s s1) ->
  tryExcept body GameServer.report s = Some (r, s') ->
  advances s s'.
Proof.
  intros Hbody. unfold tryExcept.
  destruct (body s) as [[[a|e] s1]|] eqn:Hb; [| |discriminate].
  - intros E. inversion E; subst. eapply Hbody; reflexivity.
  - intros Hrep. eapply advances_trans; [eapply Hbody; reflexivity|].
    eapply report_advances, Hrep.
Qed.

Lemma sendMessage_advances (m : Message) (s : GameServer.t) (r : Res unit)
    (s' : GameServer.t) :
  GameServer.sendMessage m s = Some (r, s') -> advances s s'.
Proof.
  destruct s as [ps wr cg sk hnd]. unfold GameServer.sendMessage.
  destruct wr; cbn; intros E; inversion E; subst;
    apply advances_frame; try reflexivity; cbn; eauto.
Qed.

(** Closes a branch in which the score keeper is untouched and the game
    has kept or replaced its mark. *)
Ltac frame_rest :=
  intros ? ?;
  match goal with
  | Eg : None = Some _ |- _ => discriminate Eg
  | Eg : Some _ = Some _ |- _ =>
      inversion Eg; subst;
      eexists; (split; [reflexivity|]); cbn; congruence
  | Eg : _ = Some _ |- _ =>
      subst; eexists; (split; [reflexivity|]); cbn; congruence
  end.

Ltac frame_leaf :=
  let E := fresh "E" in
  intros E;
  first [ discriminate E
        | inversion E; subst; clear E;
          apply advances_frame; [reflexivity | cbn; frame_rest] ].

Lemma dealFirstCards_advances `{Rules} (req : Request) (s : GameServer.t)
    (r : Res unit) (s' : GameServer.t) :
  GameServer.dealFirstCards req s = Some (r, s') -> advances s s'.
Proof.
  unfold GameServer.dealFirstCards. intros Hrun.
  apply bind_inv in Hrun as [(msg & s1 & Htry & Hsend)|(e & Htry & _)].
  2:{ revert Htry. apply tryExcept_report_advances.
      clear. intros r1 s1. destruct s as [ps wr cg sk hnd].
      unfold GameServer.field. step. destruct cg as [g|]; cbn; [|frame_leaf].
      destruct (CardGame.dealFirstCards g) as [g1|e] eqn:Hd; cbn;
        [|frame_leaf].
      apply dealFirstCards_decidedFor in Hd.
      destruct (req !! "playerId"); cbn; [|frame_leaf].
      destruct (CardGame.getPlayerById _ g1); cbn; frame_leaf. }
  eapply advances_trans; [|eapply sendMessage_advances, Hsend].
  revert Htry. apply tryExcept_report_advances.
  clear. intros r1 s1. destruct s as [ps wr cg sk hnd].
  unfold GameServer.field. step. destruct cg as [g|]; cbn; [|frame_leaf].
  destruct (CardGame.dealFirstCards g) as [g1|e] eqn:Hd; cbn; [|frame_leaf].
  apply dealFirstCards_decidedFor in Hd.
  destruct (req !! "playerId"); cbn; [|frame_leaf].
  destruct (CardGame.getPlayerById _ g1); cbn; frame_leaf.
Qed.

Lemma chooseTrump_advances `{Rules} (req : Request) (s : GameServer.t)
    (r : Res unit) (s' : GameServer.t) :
  GameServer.chooseTrump req s = Some (r, s') -> advances s s'.
Proof.
  unfold GameServer.chooseTrump. apply tryExcept_report_advances.
  intros r1 s1. destruct s as [ps wr cg sk hnd].
  unfold GameServer.field. destruct (req !! "suit") as [suit|]; step;
    [|frame_leaf].
  destruct cg as [g|]; cbn; [|frame_leaf].
  destruct (CardGame.chooseTrump suit g) as [g1|e] eqn:H1; cbn; [|frame_leaf].
  apply chooseTrump_decidedFor in H1.
  destruct (CardGame.dealCards g1) as [g2|e] eqn:H2; cbn; [|frame_leaf].
  apply dealCards_decidedFor in H2.
  destruct (req !! "playerId"); cbn; [|frame_leaf].
  destruct (CardGame.getPlayerById _ g2); cbn; [|frame_leaf].
  destruct wr; cbn; frame_leaf.
Qed.

Lemma nextGame_concluded (env : Env) (req : Request) (s : GameServer.t)
    (r : Res unit) (s' : GameServer.t) :
  isConcluded s ->
  GameServer.nextGame env req s = Some (r, s') ->
  isConcluded s'.
Proof.
  intros (g & tm & Hg & Hd). destruct s as [ps wr cg sk hnd].
  simpl in Hg. subst cg. unfold GameServer.nextGame. step.
  destruct sk as [sk0|]; cbn; destruct wr; cbn; intros E; inversion E; subst;
    exists (CardGame.clearGame (shuffled env) g), tm; split; auto.
Qed.

(** The three ways in which [makeMove] ends. *)
Lemma makeMove_cases `{Rules} (req : Request) (s : GameServer.t)
    (r : Res unit) (s' : GameServer.t) :
  GameServer.makeMove req s = Some (r, s') ->
  ((exists e, r = Raise e) /\ advances s s')
  \/ (r = Ok tt
      /\ exists playerId,
           req !! "playerId" = Some playerId
           /\ GameServer.outbox s' =
                GameServer.outbox s ++ [invalidMoveMsg playerId]
           /\ GameServer.hand s' = GameServer.hand s
           /\ GameServer.cardGame s' = GameServer.cardGame s
           /\ GameServer.scores s' = GameServer.scores s)
  \/ (r = Ok tt
      /\ exists s2, GameServer.askPlayers s2 = Some (Ok tt, s')
                    /\ advances s s2).
Proof.
  unfold GameServer.makeMove, tryExcept.
  destruct (bind _ _ s) as [[[[]|e] s1]|] eqn:Hbody; [| |discriminate].
  - (* the body returned *)
    intros E. inversion E; subst r s1; clear E. revert Hbody.
    destruct s as [ps wr cg sk hnd]. unfold GameServer.field. step.
    destruct cg as [g|]; cbn; [|discriminate].
    destruct (req !! "playerId") as [playerId|] eqn:Hid; cbn; [|discriminate].
    destruct (CardGame.getPlayerById playerId g) as [player|e]; cbn;
      [|discriminate].
    destruct (req !! "suit") as [suit|]; cbn; [|discriminate].
    destruct (req !! "rank") as [rank|]; cbn; [|discriminate].
    destruct hnd as [h|]; cbn; [|discriminate].
    destruct (HandInfo.validatePlayerMove _ _ _ _); cbn.
    + destruct (HandInfo.addPlayerMove _ h) as [h1|e]; cbn; [|discriminate].
      destruct (Player.removeCard _ player) as [player'|e]; cbn;
        [|discriminate].
      intros Hask. right; right. split; [reflexivity|].
      eexists. split; [exact Hask|].
      apply advances_frame; [reflexivity|]. cbn. intros g0 Eg.
      inversion Eg; subst. eexists. split; [reflexivity|]. cbn. auto.
    + destruct wr as [|w|v]; cbn; try discriminate.
      intros E. inversion E; subst. right; left. split; [reflexivity|].
      exists playerId. cbn. repeat split.
  - (* the body raised *)
    intros Hrep. left. split.
    { apply report_inv in Hrep as (He & _). exact He. }
    eapply advances_trans; [|eapply report_advances, Hrep].
    clear Hrep. revert Hbody.
    destruct s as [ps wr cg sk hnd]. unfold GameServer.field. step.
    destruct cg as [g|]; cbn; [|frame_leaf].
    destruct (req !! "playerId") as [playerId|]; cbn; [|frame_leaf].
    destruct (CardGame.getPlayerById playerId g) as [player|e']; cbn;
      [|frame_leaf].
    destruct (req !! "suit") as [suit|]; cbn; [|frame_leaf].
    destruct (req !! "rank") as [rank|]; cbn; [|frame_leaf].
    destruct hnd as [h|]; cbn; [|frame_leaf].
    destruct (HandInfo.validatePlayerMove _ _ _ _); cbn.
    + destruct (HandInfo.addPlayerMove _ h) as [h1|e']; cbn; [|frame_leaf].
      destruct (Player.removeCard _ player) as [player'|e']; cbn;
        [|frame_leaf].
      intros Hask. eapply advances_trans; [|eapply askPlayers_advances, Hask].
      apply advances_frame; [reflexivity|]. cbn. intros g0 Eg.
      inversion Eg; subst. eexists. split; [reflexivity|]. cbn. auto.
    + destruct wr; cbn; frame_leaf.
Qed.

Lemma makeMove_advances `{Rules} (req : Request) (s : GameServer.t)
    (r : Res unit) (s' : GameServer.t) :
  GameServer.makeMove req s = Some (r, s') -> advances s s'.
Proof.
  intros Hrun. apply makeMove_cases in Hrun
    as [[_ Hadv]|[(_ & pid & _ & _ & _ & Hcg & Hsk)|(_ & s2 & Hask & Hadv)]].
  - exact Hadv.
  - apply advances_frame; [exact Hsk|]. intros g Hg. exists g.
    split; [congruence | auto].
  - eapply advances_trans; [exact Hadv | eapply askPlayers_advances, Hask].
Qed.

Lemma isReady_advances `{Rules} (req : Request) (s : GameServer.t)
    (r : Res unit) (s' : GameServer.t) :
  GameServer.isReady req s = Some (r, s') -> advances s s'.
Proof.
  unfold GameServer.isReady. apply tryExcept_report_advances.
  intros r1 s1. destruct s as [ps wr cg sk hnd]. step.
  destruct sk as [sk0|]; cbn; [|frame_leaf].
  destruct (ScoreKeeper.isGameDecided sk0); cbn.
  - destruct (ScoreKeeper.getWinningTeam sk0) as [team|e]; cbn; [|frame_leaf].
    destruct cg as [g|]; cbn; [|frame_leaf].
    destruct wr; cbn; frame_leaf.
  - intros Hask. eapply advances_trans; [|eapply askPlayers_advances, Hask].
    apply advances_frame; [reflexivity|]. cbn. intros g0 Eg. exists g0.
    split; [exact Eg | auto].
Qed.

(** ** After the decision *)

(** C5.  Once [processWin] has marked the match as concluded, the
    operations of the game fail with [MatchAlreadyDecidedError], and through
    them the requests that would play on.  A ['makeMove'] request never
    reaches the trick: it raises, [MatchAlreadyDecidedError] if it names a
    player, and the error report is the only change to the server.  An
    ['isReady'] request for which the score keeper reports no decision
    (the scores were cleared in between) puts the new empty trick in place
    and fails there, with [MatchAlreadyDecidedError] and without asking
    anybody.  And the mark is sticky: it is still there after every
    ['nextGame'], ['dealFirstCards'], ['chooseTrump'], ['makeMove'] and
    ['isReady'] request, however the request ends. *)
Theorem concluded_match_refuses_moves `{Rules}
    (s : GameServer.t) (g : CardGame.t) (team : JVal)
    (w : MessageWriter.t) :
  GameServer.cardGame s = Some g ->
  CardGame.decidedFor g = Some team ->
  GameServer.writer s = IsWriter w ->
  (forall (step : nat) (winner : Player.t) (i : JVal),
     CardGame.getNextPlayer step g = Raise MatchAlreadyDecidedError
     /\ CardGame.changePlayingOrder winner g = Raise MatchAlreadyDecidedError
     /\ CardGame.getPlayerById i g = Raise MatchAlreadyDecidedError)
  /\ (forall req : Request,
        GameServer.makeMove req s
        = let e := match req !! "playerId" with
                   | Some _ => MatchAlreadyDecidedError
                   | None => KeyError "playerId"
                   end in
          Some (Raise e,
                GameServer.withWriter
                  (IsWriter (MessageWriter.sendError e w)) s))
  /\ (forall (req : Request) (sk : ScoreKeeper.t),
        GameServer.scores s = Some sk ->
        ScoreKeeper.isGameDecided sk = false ->
        GameServer.isReady req s
        = Some (Raise MatchAlreadyDecidedError,
                GameServer.withWriter
                  (IsWriter (MessageWriter.sendError
                               MatchAlreadyDecidedError w))
                  (GameServer.withHand (Some HandInfo.new) s)))
  /\ (forall (env : Env) (req : Request) (r : Res unit) (s' : GameServer.t),
        GameServer.nextGame env req s = Some (r, s')
        \/ GameServer.dealFirstCards req s = Some (r, s')
        \/ GameServer.chooseTrump req s = Some (r, s')
        \/ GameServer.makeMove req s = Some (r, s')
        \/ GameServer.isReady req s = Some (r, s') ->
        isConcluded s').
Proof.
  intros Hg Hd Hw.
  assert (isConcluded s) as Hcon by (exists g, team; auto).
  destruct s as [ps wr cg sk hnd]. simpl in Hg, Hw. subst cg wr.
  split; [|split; [|split]].
  - intros step winner i.
    unfold CardGame.getNextPlayer, CardGame.changePlayingOrder,
      CardGame.getPlayerById.
    rewrite Hd. repeat split.
  - intros req. unfold GameServer.makeMove, GameServer.field. step.
    destruct (req !! "playerId") as [playerId|]; cbn; [|reflexivity].
    rewrite (getPlayerById_concluded _ _ _ Hd). reflexivity.
  - intros req sk0 Hsk Hopen. simpl in Hsk. subst sk.
    unfold GameServer.isReady. step. rewrite Hopen. cbn.
    unfold GameServer.askPlayers. step. rewrite askLoop_S. step.
    change (HandInfo.isComplete HandInfo.new) with false. cbn.
    unfold CardGame.getNextPlayer. rewrite Hd. reflexivity.
  - intros env req r s' [Hrun|[Hrun|[Hrun|[Hrun|Hrun]]]].
    + eapply nextGame_concluded; eauto.
    + apply dealFirstCards_advances in Hrun. apply Hrun, Hcon.
    + apply chooseTrump_advances in Hrun. apply Hrun, Hcon.
    + apply makeMove_advances in Hrun. apply Hrun, Hcon.
    + apply isReady_advances in Hrun. apply Hrun, Hcon.
Qed.

(** The concluded match of the demo session: the human player holds the
    queen of S2 and sends it. *)
Lemma concluded_match_refuses_moves_witness :
  @GameServer.makeMove Demo.rules (Demo.moveReq Demo.S2 (JStr "Q"))
    Demo.concluded
  = Some (Raise MatchAlreadyDecidedError,
          GameServer.withWriter
            (IsWriter (MessageWriter.sendError MatchAlreadyDecidedError
                         (Demo.writerOf Demo.concluded)))
            Demo.concluded).
Proof.
  apply (proj1 (proj2 (@concluded_match_refuses_moves Demo.rules
                         Demo.concluded (Demo.gameOf Demo.concluded)
                         (JStr "West") (Demo.writerOf Demo.concluded)
                         ltac:(vm_compute; reflexivity)
                         ltac:(vm_compute; reflexivity)
                         ltac:(vm_compute; reflexivity)))
           (Demo.moveReq Demo.S2 (JStr "Q"))).
Defined.

(** The match was concluded by the ['isReady'] request that found the
    decision: before it the game carries no mark, after it the mark of the
    winning team. *)
Example isReady_concludes :
  CardGame.decidedFor (Demo.gameOf Demo.decided) = None
  /\ CardGame.decidedFor (Demo.gameOf Demo.concluded) = Some (JStr "West").
Proof. split; vm_compute; reflexivity. Qed.

(** ** The next game *)

Lemma clearTeamScores_scoreOf (sk : ScoreKeeper.t) (tm : JVal) :
  ScoreKeeper.scoreOf tm (ScoreKeeper.clearTeamScores sk) = 0.
Proof.
  unfold ScoreKeeper.scoreOf, ScoreKeeper.clearTeamScores. simpl.
  rewrite lookup_fmap. destruct (ScoreKeeper.teamScores sk !! tm); reflexivity.
Qed.

(** C1, as the code has it.  A ['nextGame'] request that succeeds has
    called [clearGame] and then [clearTeamScores]: the game is the cleared
    game, the score of every team is zero afterwards, the teams are the
    same, and the acknowledgement is the one message sent.  [clearGame]
    comes first: on a server without a score keeper the request fails with
    the game already cleared.  The other requests of a running match,
    ['dealFirstCards'], ['chooseTrump'], ['makeMove'] and ['isReady'],
    never lower the score of a team. *)
Theorem nextGame_clears_team_scores `{Rules} :
  (forall (env : Env) (req : Request) (s s' : GameServer.t),
     GameServer.nextGame env req s = Some (Ok tt, s') ->
     (exists g, GameServer.cardGame s = Some g
                /\ GameServer.cardGame s'
                   = Some (CardGame.clearGame (shuffled env) g))
     /\ (exists sk, GameServer.scores s = Some sk
                    /\ GameServer.scores s'
                       = Some (ScoreKeeper.clearTeamScores sk)
                    /\ dom (ScoreKeeper.teamScores
                              (ScoreKeeper.clearTeamScores sk))
                       = dom (ScoreKeeper.teamScores sk))
     /\ (forall tm, teamScore tm s' = 0)
     /\ GameServer.outbox s' = GameServer.outbox s ++ [nextGameMsg "SUCCESS"])
  /\ (forall (env : Env) (req : Request) (s : GameServer.t)
             (g : CardGame.t) (w : MessageWriter.t),
        GameServer.cardGame s = Some g ->
        GameServer.scores s = None ->
        GameServer.writer s = IsWriter w ->
        GameServer.nextGame env req s
        = Some (Raise AttributeError,
                GameServer.withWriter
                  (IsWriter (MessageWriter.sendError AttributeError w))
                  (GameServer.withCardGame
                     (Some (CardGame.clearGame (shuffled env) g)) s)))
  /\ (forall (req : Request) (s s' : GameServer.t) (r : Res unit) (tm : JVal),
        GameServer.dealFirstCards req s = Some (r, s')
        \/ GameServer.chooseTrump req s = Some (r, s')
        \/ GameServer.makeMove req s = Some (r, s')
        \/ GameServer.isReady req s = Some (r, s') ->
        teamScore tm s <= teamScore tm s').
Proof.
  split; [|split].
  - intros env req [ps wr cg sk hnd] s'. unfold GameServer.nextGame. step.
    destruct cg as [g|]; cbn; [|destruct wr; discriminate].
    destruct sk as [sk0|]; cbn; [|destruct wr; discriminate].
    destruct wr as [|w|v]; cbn; try discriminate.
    intros E. inversion E; subst; clear E. cbn. split; [|split; [|split]].
    + exists g. split; reflexivity.
    + exists sk0. repeat split.
      unfold ScoreKeeper.clearTeamScores. simpl. apply dom_fmap_L.
    + intros tm. unfold teamScore. cbn. apply clearTeamScores_scoreOf.
    + reflexivity.
  - intros env req [ps wr cg sk hnd] g w. simpl. intros -> -> ->.
    reflexivity.
  - intros req s s' r tm [Hrun|[Hrun|[Hrun|Hrun]]].
    + apply dealFirstCards_advances in Hrun. apply Hrun.
    + apply chooseTrump_advances in Hrun. apply Hrun.
    + apply makeMove_advances in Hrun. apply Hrun.
    + apply isReady_advances in Hrun. apply Hrun.
Qed.

(** After one trick West has seven points; the next game starts at zero. *)
Lemma nextGame_clears_team_scores_witness :
  (exists g, GameServer.cardGame (Demo.tricks 1) = Some g
             /\ GameServer.cardGame (Demo.send Demo.nextReq (Demo.tricks 1))
                = Some (CardGame.clearGame (shuffled Demo.env) g))
  /\ (exists sk, GameServer.scores (Demo.tricks 1) = Some sk
                 /\ GameServer.scores (Demo.send Demo.nextReq (Demo.tricks 1))
                    = Some (ScoreKeeper.clearTeamScores sk)
                 /\ dom (ScoreKeeper.teamScores
                           (ScoreKeeper.clearTeamScores sk))
                    = dom (ScoreKeeper.teamScores sk))
  /\ (forall tm, teamScore tm (Demo.send Demo.nextReq (Demo.tricks 1)) = 0)
  /\ GameServer.outbox (Demo.send Demo.nextReq (Demo.tricks 1))
     = GameServer.outbox (Demo.tricks 1) ++ [nextGameMsg "SUCCESS"].
Proof.
  apply (proj1 (@nextGame_clears_team_scores Demo.rules)
           Demo.env Demo.nextReq (Demo.tricks 1)
           (Demo.send Demo.nextReq (Demo.tricks 1))).
  vm_compute. reflexivity.
Defined.

(** C1 as stated fails.  West has won the first trick and holds seven
    points; the ['nextGame'] request succeeds and leaves West with none. *)
Lemma nextGame_changes_scores :
  teamScore (JStr "West") (Demo.tricks 1) = 7
  /\ exists s',
       GameServer.nextGame Demo.env Demo.nextReq (Demo.tricks 1)
         = Some (Ok tt, s')
       /\ teamScore (JStr "West") s' = 0
       /\ GameServer.scores s' <> GameServer.scores (Demo.tricks 1).
Proof.
  split; [vm_compute; reflexivity|].
  eexists. split; [vm_compute; reflexivity|].
  split; [vm_compute; reflexivity|].
  intros E.
  assert (teamScore (JStr "West") (Demo.tricks 1) = 0) as Hz.
  { unfold teamScore. rewrite <- E. vm_compute. reflexivity. }
  vm_compute in Hz. discriminate Hz.
Qed.

(** * Further properties of the server *)

(** ** One answer to every request *)

Lemma tryExcept_report_replied (body : M GameServer.t unit)
    (s : GameServer.t) (r : Res unit) (s' : GameServer.t) :
  (forall r1 s1, body s = Some (r1, s1) -> sendsOnce s r1 s1) ->
  tryExcept body GameServer.report s = Some (r, s') ->
  replied s r s'.
Proof.
  intros Hbody. unfold tryExcept, replied.
  destruct (body s) as [[[[]|e] s1]|] eqn:Hb; [| |discriminate];
    destruct (Hbody _ _ eq_refl) as [(e0 & He0 & Hw)|(Hr & w & m & Hw & Hw1 & Hm)];
    try discriminate.
  - intros E. inversion E; subst. rewrite Hw. eauto.
  - inversion He0; subst e0. rewrite <- Hw.
    destruct s1 as [ps wr cg sk hnd]. step.
    destruct wr as [|w|v]; cbn; intros E; inversion E; subst; cbn; eauto.
Qed.

Lemma quiet_then_send_replied (body : M GameServer.t Message)
    (s : GameServer.t) (r : Res unit) (s' : GameServer.t) :
  (forall r1 s1, body s = Some (r1, s1) ->
     GameServer.writer s1 = GameServer.writer s
     /\ forall m, r1 = Ok m -> isErrorMsg m = false) ->
  bind (tryExcept body GameServer.report)
       (fun m => GameServer.sendMessage m) s = Some (r, s') ->
  replied s r s'.
Proof.
  intros Hbody. unfold bind, tryExcept, replied.
  destruct (body s) as [[[m|e] s1]|] eqn:Hb; [| |discriminate];
    destruct (Hbody _ _ eq_refl) as [Hw Hm]; rewrite <- Hw;
    destruct s1 as [ps wr cg sk hnd]; step.
  - specialize (Hm m eq_refl).
    destruct wr as [|w|v]; cbn; intros E; inversion E; subst; cbn; eauto.
  - destruct wr as [|w|v]; cbn; intros E; inversion E; subst; cbn; eauto.
Qed.

(** Closes a branch of a body that has not touched the writer. *)
Ltac quiet_leaf :=
  let E := fresh "E" in
  let Em := fresh "Em" in
  intros E;
  first [ discriminate E
        | inversion E; subst; clear E; cbn; split;
          [ reflexivity
          | intros ? Em; first [discriminate Em | inversion Em; reflexivity] ] ].

(** Closes a branch of a body that ends by raising or by sending. *)
Ltac once_leaf :=
  let E := fresh "E" in
  intros E;
  first [ discriminate E
        | inversion E; subst; clear E;
          first [ left; eexists; split; reflexivity
                | right; split; [reflexivity|];
                  do 2 eexists; repeat split; reflexivity ] ].

Lemma startGame_replied (env : Env) (req : Request)
    (s : GameServer.t) (r : Res unit) (s' : GameServer.t) :
  GameServer.startGame env req s = Some (r, s') -> replied s r s'.
Proof.
  unfold GameServer.startGame. apply quiet_then_send_replied.
  intros r1 s1. destruct s as [ps wr cg sk hnd]. unfold GameServer.field.
  destruct (req !! "playerName"); [|step; quiet_leaf].
  destruct (req !! "playerTeam"); [|step; quiet_leaf].
  destruct (req !! "opponentTeam"); step; quiet_leaf.
Qed.

Lemma nextGame_replied (env : Env) (req : Request)
    (s : GameServer.t) (r : Res unit) (s' : GameServer.t) :
  GameServer.nextGame env req s = Some (r, s') -> replied s r s'.
Proof.
  unfold GameServer.nextGame. apply quiet_then_send_replied.
  intros r1 s1. destruct s as [ps wr cg sk hnd]. step.
  destruct cg as [g|]; cbn; [|quiet_leaf].
  destruct sk as [sk0|]; cbn; quiet_leaf.
Qed.

Lemma dealFirstCards_replied `{Rules} (req : Request)
    (s : GameServer.t) (r : Res unit) (s' : GameServer.t) :
  GameServer.dealFirstCards req s = Some (r, s') -> replied s r s'.
Proof.
  unfold GameServer.dealFirstCards. apply quiet_then_send_replied.
  intros r1 s1. destruct s as [ps wr cg sk hnd].
  unfold GameServer.field. step. destruct cg as [g|]; cbn; [|quiet_leaf].
  destruct (CardGame.dealFirstCards g) as [g1|e]; cbn; [|quiet_leaf].
  destruct (req !! "playerId"); cbn; [|quiet_leaf].
  destruct (CardGame.getPlayerById _ g1); cbn; quiet_leaf.
Qed.

Lemma chooseTrump_replied `{Rules} (req : Request)
    (s : GameServer.t) (r : Res unit) (s' : GameServer.t) :
  GameServer.chooseTrump req s = Some (r, s') -> replied s r s'.
Proof.
  unfold GameServer.chooseTrump. apply tryExcept_report_replied.
  intros r1 s1. destruct s as [ps wr cg sk hnd].
  unfold GameServer.field. destruct (req !! "suit") as [suit|]; step;
    [|once_leaf].
  destruct cg as [g|]; cbn; [|once_leaf].
  destruct (CardGame.chooseTrump suit g) as [g1|e]; cbn; [|once_leaf].
  destruct (CardGame.dealCards g1) as [g2|e]; cbn; [|once_leaf].
  destruct (req !! "playerId"); cbn; [|once_leaf].
  destruct (CardGame.getPlayerById _ g2); cbn; [|once_leaf].
  destruct wr; cbn; once_leaf.
Qed.

(** [askPlayers] raises before it has written, or returns after one
    ['askMove'] or one ['handPlayed']. *)
Lemma askPlayers_sendsOnce `{Rules} (s : GameServer.t) (r : Res unit)
    (s' : GameServer.t) :
  GameServer.askPlayers s = Some (r, s') -> sendsOnce s r s'.
Proof.
  destruct s as [ps wr [g|] sk hnd].
  2:{ unfold GameServer.askPlayers. step. once_leaf. }
  destruct hnd as [h|].
  2:{ unfold GameServer.askPlayers. step. rewrite askLoop_S. step. once_leaf. }
  intros Hrun. apply askPlayers_spec in Hrun
    as (g1 & h' & added & _ & _ & _ & _ & _ & Hexit).
  destruct Hexit
    as [(-> & _ & (w & -> & ->) & _)
       |[(-> & _ & w & wm & wp & sk0 & g2 & -> & _ & _ & _ & _ & ->)
        |(e & -> & Hw & _)]].
  - right. split; [reflexivity|]. do 2 eexists. repeat split; reflexivity.
  - right. split; [reflexivity|]. do 2 eexists. repeat split; reflexivity.
  - left. eauto.
Qed.

Lemma sendsOnce_after (s s2 : GameServer.t) (r : Res unit)
    (s' : GameServer.t) :
  GameServer.writer s2 = GameServer.writer s ->
  sendsOnce s2 r s' -> sendsOnce s r s'.
Proof. unfold sendsOnce. intros ->. auto. Qed.

Lemma makeMove_replied `{Rules} (req : Request)
    (s : GameServer.t) (r : Res unit) (s' : GameServer.t) :
  GameServer.makeMove req s = Some (r, s') -> replied s r s'.
Proof.
  unfold GameServer.makeMove. apply tryExcept_report_replied.
  intros r1 s1. destruct s as [ps wr cg sk hnd].
  unfold GameServer.field. step.
  destruct cg as [g|]; cbn; [|once_leaf].
  destruct (req !! "playerId") as [playerId|]; cbn; [|once_leaf].
  destruct (CardGame.getPlayerById playerId g) as [player|e]; cbn;
    [|once_leaf].
  destruct (req !! "suit") as [suit|]; cbn; [|once_leaf].
  destruct (req !! "rank") as [rank|]; cbn; [|once_leaf].
  destruct hnd as [h|]; cbn; [|once_leaf].
  destruct (HandInfo.validatePlayerMove _ _ _ _); cbn.
  - destruct (HandInfo.addPlayerMove _ h) as [h1|e]; cbn; [|once_leaf].
    destruct (Player.removeCard _ player) as [player'|e]; cbn; [|once_leaf].
    intros Hask. apply askPlayers_sendsOnce in Hask.
    revert Hask. apply sendsOnce_after. reflexivity.
  - destruct wr; cbn; once_leaf.
Qed.

Lemma isReady_replied `{Rules} (req : Request)
    (s : GameServer.t) (r : Res unit) (s' : GameServer.t) :
  GameServer.isReady req s = Some (r, s') -> replied s r s'.
Proof.
  unfold GameServer.isReady. apply tryExcept_report_replied.
  intros r1 s1. destruct s as [ps wr cg sk hnd]. step.
  destruct sk as [sk0|]; cbn; [|once_leaf].
  destruct (ScoreKeeper.isGameDecided sk0); cbn.
  - destruct (ScoreKeeper.getWinningTeam sk0) as [team|e]; cbn; [|once_leaf].
    destruct cg as [g|]; cbn; [|once_leaf].
    destruct wr; cbn; once_leaf.
  - intros Hask. apply askPlayers_sendsOnce in Hask.
    revert Hask. apply sendsOnce_after. reflexivity.
Qed.

Lemma handles_replied `{Rules} (env : Env) (req : Request)
    (s : GameServer.t) (r : Res unit) (s' : GameServer.t) :
  handles env req s r s' -> replied s r s'.
Proof.
  intros [Hrun|[Hrun|[Hrun|[Hrun|[Hrun|Hrun]]]]];
    eauto using startGame_replied, nextGame_replied, dealFirstCards_replied,
      chooseTrump_replied, makeMove_replied, isReady_replied.
Qed.

(** X1.  With a writer in place, every request method that returns has sent
    exactly one message more than had been sent before the call: the error
    report of the exception when the call raises, and a message that is no
    error report when it returns normally. *)
Theorem request_answered_once `{Rules} (env : Env) (req : Request)
    (s : GameServer.t) (w : MessageWriter.t)
    (r : Res unit) (s' : GameServer.t) :
  GameServer.writer s = IsWriter w ->
  handles env req s r s' ->
  exists m,
    GameServer.outbox s' = GameServer.outbox s ++ [m]
    /\ match r with
       | Ok _ => isErrorMsg m = false
       | Raise e => m = errorMsg e
       end.
Proof.
  intros Hw Hrun. apply handles_replied in Hrun. unfold replied in Hrun.
  rewrite Hw in Hrun. destruct Hrun as (m & Hw' & Hm). exists m.
  split; [|exact Hm]. unfold GameServer.outbox. rewrite Hw, Hw'. reflexivity.
Qed.

Lemma request_answered_once_witness :
  exists m,
    GameServer.outbox Demo.waiting
    = GameServer.outbox Demo.trumped ++ [m]
    /\ isErrorMsg m = false.
Proof.
  apply (@request_answered_once Demo.rules Demo.env Demo.readyReq
           Demo.trumped (Demo.writerOf Demo.trumped) (Ok tt) Demo.waiting).
  - vm_compute. reflexivity.
  - do 5 right. vm_compute. reflexivity.
Defined.

(** X2.  Without a writer (none was set, or the attribute holds something
    else), no request method returns normally: whatever the request, the
    call raises [AttributeError] and the writer attribute is left as it
    was. *)
Theorem request_without_writer `{Rules} (env : Env) (req : Request)
    (s : GameServer.t) (r : Res unit) (s' : GameServer.t) :
  (forall w, GameServer.writer s <> IsWriter w) ->
  handles env req s r s' ->
  r = Raise AttributeError /\ GameServer.writer s' = GameServer.writer s.
Proof.
  intros Hw Hrun. apply handles_replied in Hrun. unfold replied in Hrun.
  destruct (GameServer.writer s) as [|w|v]; [exact Hrun| |exact Hrun].
  destruct (Hw w eq_refl).
Qed.

Lemma request_without_writer_witness :
  exists s',
    GameServer.startGame Demo.env Demo.startReq GameServer.new
    = Some (Raise AttributeError, s')
    /\ GameServer.writer s' = NoWriter.
Proof.
  eexists. split; [vm_compute; reflexivity|].
  apply (@request_without_writer Demo.rules Demo.env Demo.startReq
           GameServer.new (Raise AttributeError)).
  - intros w. discriminate.
  - left. vm_compute. reflexivity.
Defined.

(** ** Requests that cannot be served *)

(** X3.  On a server that holds no game and no score keeper (as after
    [open], before any ['startGame']), every other request method fails: it
    changes nothing, sends the one error report and raises
    [AttributeError]; ['chooseTrump'] reads the suit first and raises
    [KeyError] when the request has none. *)
Theorem request_before_startGame `{Rules} (env : Env) (req : Request)
    (s : GameServer.t) (w : MessageWriter.t) :
  GameServer.writer s = IsWriter w ->
  GameServer.cardGame s = None ->
  GameServer.scores s = None ->
  let failed e :=
    Some (Raise e,
          GameServer.withWriter (IsWriter (MessageWriter.sendError e w)) s) in
  GameServer.nextGame env req s = failed AttributeError
  /\ GameServer.dealFirstCards req s = failed AttributeError
  /\ GameServer.chooseTrump req s
     = failed (match req !! "suit" with
               | Some _ => AttributeError
               | None => KeyError "suit"
               end)
  /\ GameServer.makeMove req s = failed AttributeError
  /\ GameServer.isReady req s = failed AttributeError.
Proof.
  destruct s as [ps wr cg sk hnd]. simpl. intros -> -> ->.
  split; [reflexivity|]. split; [reflexivity|].
  split; [|split; reflexivity].
  unfold GameServer.chooseTrump, GameServer.field.
  destruct (req !! "suit"); reflexivity.
Qed.

Lemma request_before_startGame_witness :
  @GameServer.isReady Demo.rules Demo.readyReq Demo.opened
  = Some (Raise AttributeError,
          GameServer.withWriter
            (IsWriter (MessageWriter.sendError AttributeError
                         MessageWriter.new))
            Demo.opened).
Proof.
  apply (@request_before_startGame Demo.rules Demo.env Demo.readyReq
           Demo.opened MessageWriter.new); reflexivity.
Defined.

(** X4.  ['startGame'] reads its three fields before it assigns anything: a
    request that lacks one of them raises [KeyError] for the first one that
    is missing, sends the error report, and leaves the players, the game,
    the scores and the trick of the server as they were. *)
Theorem startGame_missing_field (env : Env) (req : Request)
    (s : GameServer.t) (w : MessageWriter.t) (key : string) :
  GameServer.writer s = IsWriter w ->
  key ∈ ["playerName"; "playerTeam"; "opponentTeam"] ->
  req !! key = None ->
  exists before k after,
    ["playerName"; "playerTeam"; "opponentTeam"] = before ++ k :: after
    /\ (forall k0, k0 ∈ before -> req !! k0 <> None)
    /\ req !! k = None
    /\ GameServer.startGame env req s
       = Some (Raise (KeyError k),
               GameServer.withWriter
                 (IsWriter (MessageWriter.sendError (KeyError k) w)) s).
Proof.
  destruct s as [ps wr cg sk hnd]. simpl. intros -> Hkey Hnone.
  unfold GameServer.startGame, GameServer.field.
  destruct (req !! "playerName") as [n|] eqn:Hn.
  2:{ exists [], "playerName", ["playerTeam"; "opponentTeam"].
      split; [reflexivity|]. split; [intros k0 Hk0; inversion Hk0|].
      split; [exact Hn | reflexivity]. }
  destruct (req !! "playerTeam") as [t1|] eqn:Ht1.
  2:{ exists ["playerName"], "playerTeam", ["opponentTeam"].
      split; [reflexivity|]. split.
      { intros k0 Hk0. apply list_elem_of_singleton in Hk0. subst k0.
        rewrite Hn. discriminate. }
      split; [exact Ht1 | reflexivity]. }
  destruct (req !! "opponentTeam") as [t2|] eqn:Ht2.
  2:{ exists ["playerName"; "playerTeam"], "opponentTeam", [].
      split; [reflexivity|]. split.
      { intros k0 Hk0. apply elem_of_cons in Hk0 as [->|Hk0];
          [rewrite Hn; discriminate|].
        apply list_elem_of_singleton in Hk0. subst k0.
        rewrite Ht1. discriminate. }
      split; [exact Ht2 | reflexivity]. }
  exfalso. repeat (apply elem_of_cons in Hkey as [->|Hkey]; [congruence|]).
  inversion Hkey.
Qed.

Lemma startGame_missing_field_witness :
  exists before k after,
    ["playerName"; "playerTeam"; "opponentTeam"] = before ++ k :: after
    /\ (forall k0, k0 ∈ before -> Demo.readyReq !! k0 <> None)
    /\ Demo.readyReq !! k = None
    /\ GameServer.startGame Demo.env Demo.readyReq Demo.decided
       = Some (Raise (KeyError k),
               GameServer.withWriter
                 (IsWriter (MessageWriter.sendError (KeyError k)
                              (Demo.writerOf Demo.decided)))
                 Demo.decided).
Proof.
  apply (startGame_missing_field Demo.env Demo.readyReq Demo.decided
           (Demo.writerOf Demo.decided) "playerTeam").
  - vm_compute. reflexivity.
  - apply (bool_decide_eq_true_1
             ("playerTeam" ∈ ["playerName"; "playerTeam"; "opponentTeam"])).
    vm_compute. reflexivity.
  - vm_compute. reflexivity.
Defined.

(** X5.  ['startGame'] can be sent in any state.  With a writer and the
    three fields it returns normally, whatever game was there before: the
    new game is not concluded, has no trump suit and holds the deck as
    shuffled, every team stands at zero, and the reply is the one
    ['startGame'] message.  The trick of the server is not reset: it is the
    one that was there before the call. *)
Theorem startGame_starts_afresh (env : Env) (req : Request)
    (s : GameServer.t) (w : MessageWriter.t) (n t1 t2 : JVal) :
  GameServer.writer s = IsWriter w ->
  req !! "playerName" = Some n ->
  req !! "playerTeam" = Some t1 ->
  req !! "opponentTeam" = Some t2 ->
  exists g sk m,
    GameServer.startGame env req s
    = Some (Ok tt,
            GameServer.mk (Player.id <$> GameServer.createPlayers n t1 t2)
              (IsWriter (MessageWriter.sendMessage m w))
              (Some g) (Some sk) (GameServer.hand s))
    /\ response m = "startGame"
    /\ CardGame.players g = GameServer.createPlayers n t1 t2
    /\ CardGame.deck g = shuffled env
    /\ CardGame.trumpSuit g = None
    /\ CardGame.decidedFor g = None
    /\ forall tm, ScoreKeeper.scoreOf tm sk = 0.
Proof.
  destruct s as [ps wr cg sk hnd]. simpl. intros -> Hn Ht1 Ht2.
  unfold GameServer.startGame, GameServer.field. rewrite Hn, Ht1, Ht2.
  do 3 eexists. split; [reflexivity|]. cbn.
  do 5 (split; [reflexivity|]).
  intros tm. unfold ScoreKeeper.scoreOf, ScoreKeeper.new.
  cbn [ScoreKeeper.teamScores].
  match goal with |- default 0 ?o = 0 => destruct o as [v|] eqn:Hv end;
    [|reflexivity].
  apply elem_of_list_to_map_2 in Hv. cbn in Hv. cbn.
  repeat (apply elem_of_cons in Hv as [Hv|Hv]; [congruence|]).
  inversion Hv.
Qed.

Lemma startGame_starts_afresh_witness :
  exists g sk m,
    GameServer.startGame Demo.env Demo.startReq Demo.concluded
    = Some (Ok tt,
            GameServer.mk
              (Player.id <$> GameServer.createPlayers
                               (JStr "Ann") (JStr "East") (JStr "West"))
              (IsWriter (MessageWriter.sendMessage m
                           (Demo.writerOf Demo.concluded)))
              (Some g) (Some sk) (GameServer.hand Demo.concluded))
    /\ response m = "startGame"
    /\ CardGame.players g
       = GameServer.createPlayers (JStr "Ann") (JStr "East") (JStr "West")
    /\ CardGame.deck g = shuffled Demo.env
    /\ CardGame.trumpSuit g = None
    /\ CardGame.decidedFor g = None
    /\ forall tm, ScoreKeeper.scoreOf tm sk = 0.
Proof.
  apply (startGame_starts_afresh Demo.env Demo.startReq Demo.concluded
           (Demo.writerOf Demo.concluded));
    vm_compute; reflexivity.
Defined.

(** ** Updates that outlive a failed request *)

(** X6.  ['dealFirstCards'] deals before it looks for the player.  Once the
    game has dealt, the game held by the server is the game after the deal,
    whether the request ends normally or not (a request without
    ['playerId'], or with an unknown one, raises and still has dealt); the
    call returns normally only when the player was found, and then with the
    cards that player holds after the deal. *)
Theorem dealFirstCards_keeps_deal `{Rules} (req : Request)
    (s : GameServer.t) (g g' : CardGame.t)
    (r : Res unit) (s' : GameServer.t) :
  GameServer.cardGame s = Some g ->
  CardGame.dealFirstCards g = Ok g' ->
  GameServer.dealFirstCards req s = Some (r, s') ->
  GameServer.cardGame s' = Some g'
  /\ GameServer.scores s' = GameServer.scores s
  /\ GameServer.hand s' = GameServer.hand s
  /\ (req !! "playerId" = None -> exists e, r = Raise e)
  /\ (r = Ok tt ->
      exists playerId player,
        req !! "playerId" = Some playerId
        /\ CardGame.getPlayerById playerId g' = Ok player
        /\ GameServer.outbox s'
           = GameServer.outbox s
               ++ [dealFirstCardsMsg (Player.getCards player)]).
Proof.
  destruct s as [ps wr cg sk hnd]. simpl. intros -> Hdeal.
  unfold GameServer.dealFirstCards, GameServer.field. step. rewrite Hdeal. cbn.
  destruct (req !! "playerId") as [playerId|]; cbn.
  2:{ destruct wr; cbn; intros E; inversion E; subst; cbn;
        repeat split; eauto; discriminate. }
  destruct (CardGame.getPlayerById playerId g') as [player|e] eqn:Hp; cbn;
    destruct wr as [|w|v]; cbn; intros E; inversion E; subst; cbn;
    (split; [reflexivity|]); (split; [reflexivity|]);
    (split; [reflexivity|]); (split; [discriminate|]);
    try discriminate.
  intros _. exists playerId, player. auto.
Qed.

Lemma dealFirstCards_keeps_deal_witness :
  exists s',
    @GameServer.dealFirstCards Demo.rules Demo.nextReq Demo.started
    = Some (Raise (KeyError "playerId"), s')
    /\ GameServer.cardGame s' = GameServer.cardGame Demo.dealt.
Proof.
  eexists. split; [vm_compute; reflexivity|].
  eapply (@dealFirstCards_keeps_deal Demo.rules Demo.nextReq Demo.started
            (Demo.gameOf Demo.started) (Demo.gameOf Demo.dealt)
            (Raise (KeyError "playerId"))).
  - vm_compute. reflexivity.
  - vm_compute. reflexivity.
  - vm_compute. reflexivity.
Defined.

(** X7.  ['chooseTrump'] is not undone by a failure either.  Once the game
    has accepted the suit, a request that raises leaves the server with the
    game in which the trump is chosen: the game after [chooseTrump] when
    dealing the rest failed, the game after [dealCards] when the player
    could not be found or the reply could not be sent. *)
Theorem chooseTrump_not_undone `{Rules} (req : Request)
    (s : GameServer.t) (g g1 : CardGame.t) (suit : JVal)
    (e : Exn) (s' : GameServer.t) :
  GameServer.cardGame s = Some g ->
  req !! "suit" = Some suit ->
  CardGame.chooseTrump suit g = Ok g1 ->
  GameServer.chooseTrump req s = Some (Raise e, s') ->
  (exists e1, CardGame.dealCards g1 = Raise e1
              /\ GameServer.cardGame s' = Some g1)
  \/ (exists g2, CardGame.dealCards g1 = Ok g2
                 /\ GameServer.cardGame s' = Some g2).
Proof.
  destruct s as [ps wr cg sk hnd]. simpl. intros -> Hsuit Htrump.
  unfold GameServer.chooseTrump, GameServer.field. rewrite Hsuit. step.
  rewrite Htrump. cbn.
  destruct (CardGame.dealCards g1) as [g2|e1]; cbn.
  2:{ destruct wr; cbn; intros E; inversion E; subst; cbn; left; eauto. }
  destruct (req !! "playerId") as [playerId|]; cbn.
  2:{ destruct wr; cbn; intros E; inversion E; subst; cbn; right; eauto. }
  destruct (CardGame.getPlayerById playerId g2); cbn;
    destruct wr; cbn; intros E; inversion E; subst; cbn; right; eauto.
Qed.

Lemma chooseTrump_not_undone_witness :
  let req := Demo.request [("suit", Demo.S1)] in
  let g := Demo.gameOf Demo.dealt in
  exists g1 e s',
    @CardGame.chooseTrump Demo.rules Demo.S1 g = Ok g1
    /\ @GameServer.chooseTrump Demo.rules req Demo.dealt = Some (Raise e, s')
    /\ ((exists e1, CardGame.dealCards g1 = Raise e1
                    /\ GameServer.cardGame s' = Some g1)
        \/ (exists g2, CardGame.dealCards g1 = Ok g2
                       /\ GameServer.cardGame s' = Some g2)).
Proof.
  intros req g. do 3 eexists.
  split; [vm_compute; reflexivity|].
  split; [vm_compute; reflexivity|].
  eapply (@chooseTrump_not_undone Demo.rules req Demo.dealt g _ Demo.S1);
    vm_compute; reflexivity.
Defined.

(** ** Playing a card *)

(** X8.  ['makeMove'] reads the player and the card before it touches the
    trick.  A request that lacks ['playerId'], ['suit'] or ['rank'], or that
    arrives while the server holds no trick, raises; the error report is
    the only change to the server. *)
Theorem makeMove_malformed `{Rules} (req : Request)
    (s : GameServer.t) (w : MessageWriter.t) :
  GameServer.writer s = IsWriter w ->
  req !! "playerId" = None \/ req !! "suit" = None \/ req !! "rank" = None
  \/ GameServer.hand s = None ->
  exists e,
    GameServer.makeMove req s
    = Some (Raise e,
            GameServer.withWriter
              (IsWriter (MessageWriter.sendError e w)) s).
Proof.
  destruct s as [ps wr cg sk hnd]. simpl. intros -> Hbad.
  unfold GameServer.makeMove, GameServer.field. step.
  destruct cg as [g|]; cbn; [|eauto].
  destruct (req !! "playerId") as [playerId|]; cbn; [|eauto].
  destruct (CardGame.getPlayerById playerId g) as [player|e]; cbn; [|eauto].
  destruct (req !! "suit") as [suit|]; cbn; [|eauto].
  destruct (req !! "rank") as [rank|]; cbn; [|eauto].
  destruct hnd as [h|]; cbn; [|eauto].
  destruct Hbad as [Hbad|[Hbad|[Hbad|Hbad]]]; discriminate Hbad.
Qed.

Lemma makeMove_malformed_witness :
  exists e,
    @GameServer.makeMove Demo.rules Demo.dealReq Demo.waiting
    = Some (Raise e,
            GameServer.withWriter
              (IsWriter (MessageWriter.sendError e
                           (Demo.writerOf Demo.waiting)))
              Demo.waiting).
Proof.
  apply (@makeMove_malformed Demo.rules Demo.dealReq Demo.waiting
           (Demo.writerOf Demo.waiting)).
  - vm_compute. reflexivity.
  - right; left. vm_compute. reflexivity.
Defined.

(** X9.  A card that passes validation on an open trick in which the player
    has not moved yet is put on the trick before anything else happens:
    however the call ends, the trick of the server afterwards consists of
    the moves it had, then this move, then moves made by the automated
    players whose turn it was. *)
Theorem makeMove_accepted `{Rules} (req : Request)
    (s : GameServer.t) (g : CardGame.t) (h : HandInfo.t)
    (playerId suit rank : JVal) (player : Player.t)
    (r : Res unit) (s' : GameServer.t) :
  GameServer.cardGame s = Some g ->
  GameServer.hand s = Some h ->
  req !! "playerId" = Some playerId ->
  req !! "suit" = Some suit ->
  req !! "rank" = Some rank ->
  CardGame.getPlayerById playerId g = Ok player ->
  HandInfo.validatePlayerMove h (Player.getCards player)
    (PlayerMove.mk player (Card.mk suit rank))
    (CardGame.trumpSuit g) = true ->
  HandInfo.isComplete h = false ->
  HandInfo.hasMoved (Player.id player) h = false ->
  GameServer.makeMove req s = Some (r, s') ->
  exists h' added,
    GameServer.hand s' = Some h'
    /\ HandInfo.moves h'
       = HandInfo.moves h
           ++ PlayerMove.mk player (Card.mk suit rank) :: added
    /\ automatedMoves g (S (length (HandInfo.moves h))) added.
Proof.
  destruct s as [ps wr cg sk hnd]. simpl.
  intros -> -> Hid Hsuit Hrank Hplayer Hvalid Hopen Hnew.
  unfold GameServer.makeMove, GameServer.field.
  rewrite Hid, Hsuit, Hrank. unfold tryExcept. step.
  rewrite Hplayer. cbn. rewrite Hvalid. cbn.
  unfold HandInfo.addPlayerMove. cbn [PlayerMove.player].
  rewrite Hopen, Hnew. cbn.
  unfold HandInfo.validatePlayerMove in Hvalid.
  apply andb_prop in Hvalid as [Hheld _]. cbn in Hheld.
  unfold Player.removeCard. unfold Player.getCards in Hheld.
  rewrite Hheld. cbn.
  pose proof (putPlayer_sameMatch player
                (Player.setCards
                   (Player.removeFirst (Card.mk suit rank)
                      (Player.cards player)) player) g eq_refl) as Hput.
  assert (forall h' added,
            HandInfo.moves h'
            = (HandInfo.moves h
                 ++ [PlayerMove.mk player (Card.mk suit rank)])
                ++ added ->
            automatedMoves
              (CardGame.putPlayer player
                 (Player.setCards
                    (Player.removeFirst (Card.mk suit rank)
                       (Player.cards player)) player) g)
              (length (HandInfo.moves h
                         ++ [PlayerMove.mk player
                               (Card.mk suit rank)])) added ->
            HandInfo.moves h'
            = HandInfo.moves h
                ++ PlayerMove.mk player (Card.mk suit rank)
                     :: added
            /\ automatedMoves g (S (length (HandInfo.moves h))) added)
    as Hshape.
  { intros h' added Hmoves Hauto. split.
    - rewrite Hmoves, <- app_assoc. reflexivity.
    - intros j m Hj. specialize (Hauto j m Hj).
      rewrite (turnOf_sameMatch _ _ _ Hput) in Hauto.
      rewrite length_app in Hauto. simpl in Hauto.
      rewrite <- Hauto. f_equal. lia. }
  match goal with
  | |- context [GameServer.askPlayers ?s2] =>
      destruct (GameServer.askPlayers s2) as [[[[]|e] s1]|] eqn:Hask
  end; [| |discriminate];
    apply askPlayers_spec in Hask
      as (g1 & h' & added & Hsame & Hmoves & Hauto & Hhand & _);
    destruct (Hshape h' added Hmoves Hauto) as [Hm Ha].
  - intros E. inversion E; subst. exists h', added. auto.
  - intros Hrep. apply report_inv in Hrep as (_ & _ & _ & _ & Hh).
    exists h', added. split; [congruence | auto].
Qed.

Lemma makeMove_accepted_witness :
  exists h' added,
    GameServer.hand Demo.resolved = Some h'
    /\ HandInfo.moves h'
       = HandInfo.moves (Demo.trickOf Demo.waiting)
           ++ PlayerMove.mk (Demo.playerAt 0 Demo.waiting)
                (Card.mk Demo.S1 (JNum 7)) :: added
    /\ automatedMoves (Demo.gameOf Demo.waiting)
         (S (length (HandInfo.moves (Demo.trickOf Demo.waiting)))) added.
Proof.
  apply (@makeMove_accepted Demo.rules (Demo.moveReq Demo.S1 (JNum 7))
           Demo.waiting (Demo.gameOf Demo.waiting)
           (Demo.trickOf Demo.waiting) (JNum 1) Demo.S1 (JNum 7)
           (Demo.playerAt 0 Demo.waiting) (Ok tt) Demo.resolved);
    vm_compute; reflexivity.
Defined.

(** ** The trick between requests *)

(** Closes a branch that has left the trick alone. *)
Ltac hand_leaf :=
  let E := fresh "E" in
  intros E; first [discriminate E | inversion E; subst; reflexivity].

(** The four request methods without a loop leave the trick alone. *)
Lemma trick_frame `{Rules} (env : Env) (req : Request)
    (s : GameServer.t) (r : Res unit) (s' : GameServer.t) :
  GameServer.startGame env req s = Some (r, s')
  \/ GameServer.nextGame env req s = Some (r, s')
  \/ GameServer.dealFirstCards req s = Some (r, s')
  \/ GameServer.chooseTrump req s = Some (r, s') ->
  GameServer.hand s' = GameServer.hand s.
Proof.
  destruct s as [ps wr cg sk hnd]. intros [Hrun|[Hrun|[Hrun|Hrun]]];
    revert Hrun.
  - unfold GameServer.startGame, GameServer.field.
    destruct (req !! "playerName"); [|step; destruct wr; cbn; hand_leaf].
    destruct (req !! "playerTeam"); [|step; destruct wr; cbn; hand_leaf].
    destruct (req !! "opponentTeam"); step; destruct wr; cbn; hand_leaf.
  - unfold GameServer.nextGame. step.
    destruct cg as [g|]; cbn; [|destruct wr; cbn; hand_leaf].
    destruct sk as [sk0|]; cbn; destruct wr; cbn; hand_leaf.
  - unfold GameServer.dealFirstCards, GameServer.field. step.
    destruct cg as [g|]; cbn; [|destruct wr; cbn; hand_leaf].
    destruct (CardGame.dealFirstCards g) as [g1|e]; cbn;
      [|destruct wr; cbn; hand_leaf].
    destruct (req !! "playerId"); cbn; [|destruct wr; cbn; hand_leaf].
    destruct (CardGame.getPlayerById _ g1); cbn; destruct wr; cbn; hand_leaf.
  - unfold GameServer.chooseTrump, GameServer.field.
    destruct (req !! "suit") as [suit|]; step;
      [|destruct wr; cbn; hand_leaf].
    destruct cg as [g|]; cbn; [|destruct wr; cbn; hand_leaf].
    destruct (CardGame.chooseTrump suit g) as [g1|e]; cbn;
      [|destruct wr; cbn; hand_leaf].
    destruct (CardGame.dealCards g1) as [g2|e]; cbn;
      [|destruct wr; cbn; hand_leaf].
    destruct (req !! "playerId"); cbn; [|destruct wr; cbn; hand_leaf].
    destruct (CardGame.getPlayerById _ g2); cbn; destruct wr; cbn; hand_leaf.
Qed.

(** X10.  The trick belongs to ['makeMove'] and ['isReady'] alone: no
    ['startGame'], ['nextGame'], ['dealFirstCards'] or ['chooseTrump']
    request, successful or not, touches it.  A new match or a new round
    starts with the trick that was there before. *)
Theorem trick_untouched `{Rules} (env : Env) (req : Request)
    (s : GameServer.t) (r : Res unit) (s' : GameServer.t) :
  GameServer.startGame env req s = Some (r, s')
  \/ GameServer.nextGame env req s = Some (r, s')
  \/ GameServer.dealFirstCards req s = Some (r, s')
  \/ GameServer.chooseTrump req s = Some (r, s') ->
  GameServer.hand s' = GameServer.hand s.
Proof. apply trick_frame. Qed.

Lemma trick_untouched_witness :
  GameServer.hand (Demo.send Demo.nextReq Demo.resolved)
  = GameServer.hand Demo.resolved.
Proof.
  apply (@trick_untouched Demo.rules Demo.env Demo.nextReq Demo.resolved
           (Ok tt)).
  right; left. vm_compute. reflexivity.
Defined.

(** The four request methods without a loop always return. *)
Lemma loopless_returns `{Rules} (env : Env) (req : Request)
    (s : GameServer.t) :
  (exists r s', GameServer.startGame env req s = Some (r, s'))
  /\ (exists r s', GameServer.nextGame env req s = Some (r, s'))
  /\ (exists r s', GameServer.dealFirstCards req s = Some (r, s'))
  /\ (exists r s', GameServer.chooseTrump req s = Some (r, s')).
Proof.
  destruct s as [ps wr cg sk hnd]. repeat apply conj.
  - unfold GameServer.startGame, GameServer.field.
    destruct (req !! "playerName"); [|step; destruct wr; cbn; eauto].
    destruct (req !! "playerTeam"); [|step; destruct wr; cbn; eauto].
    destruct (req !! "opponentTeam"); step; destruct wr; cbn; eauto.
  - unfold GameServer.nextGame. step.
    destruct cg as [g|]; cbn; [|destruct wr; cbn; eauto].
    destruct sk as [sk0|]; cbn; destruct wr; cbn; eauto.
  - unfold GameServer.dealFirstCards, GameServer.field. step.
    destruct cg as [g|]; cbn; [|destruct wr; cbn; eauto].
    destruct (CardGame.dealFirstCards g) as [g1|e]; cbn;
      [|destruct wr; cbn; eauto].
    destruct (req !! "playerId"); cbn; [|destruct wr; cbn; eauto].
    destruct (CardGame.getPlayerById _ g1); cbn; destruct wr; cbn; eauto.
  - unfold GameServer.chooseTrump, GameServer.field.
    destruct (req !! "suit") as [suit|]; step;
      [|destruct wr; cbn; eauto].
    destruct cg as [g|]; cbn; [|destruct wr; cbn; eauto].
    destruct (CardGame.chooseTrump suit g) as [g1|e]; cbn;
      [|destruct wr; cbn; eauto].
    destruct (CardGame.dealCards g1) as [g2|e]; cbn;
      [|destruct wr; cbn; eauto].
    destruct (req !! "playerId"); cbn; [|destruct wr; cbn; eauto].
    destruct (CardGame.getPlayerById _ g2); cbn; destruct wr; cbn; eauto.
Qed.

Lemma addPlayerMove_wellFormed (m : PlayerMove.t) (h h' : HandInfo.t) :
  wellFormed h -> HandInfo.addPlayerMove m h = Ok h' -> wellFormed h'.
Proof.
  unfold wellFormed, HandInfo.addPlayerMove, HandInfo.isComplete.
  intros Hle. destruct (bool_decide _) eqn:Hc; [discriminate|].
  apply bool_decide_eq_false in Hc.
  destruct (HandInfo.hasMoved _ h); [discriminate|].
  intros E. inversion E; subst. cbn. rewrite length_app. simpl. lia.
Qed.

(** Closes a branch that has kept the trick well formed. *)
Ltac trick_leaf Hok :=
  let E := fresh "E" in
  intros E;
  first [ discriminate E
        | inversion E; subst; clear E; intros ? ?; apply Hok; assumption ].

Lemma askLoop_trickOk (fuel : nat) (trumpSuit : option JVal)
    (s : GameServer.t) (r : Res unit) (s' : GameServer.t) :
  trickOk s ->
  GameServer.askLoop fuel trumpSuit s = Some (r, s') ->
  trickOk s'.
Proof.
  revert s. induction fuel as [|fuel IH]; intros [ps wr cg sk hnd] Hok;
    [discriminate|].
  rewrite askLoop_S. step.
  destruct hnd as [h|]; cbn; [|trick_leaf Hok].
  destruct (HandInfo.isComplete h); cbn; [trick_leaf Hok|].
  destruct cg as [g|]; cbn; [|trick_leaf Hok].
  destruct (CardGame.getNextPlayer _ g) as [player|e]; cbn;
    [|trick_leaf Hok].
  destruct (Player.isHuman player); cbn.
  { destruct wr; cbn; trick_leaf Hok. }
  destruct (AutomatedPlayer.getNextMove player h trumpSuit) as [mv|e]; cbn;
    [|trick_leaf Hok].
  destruct (HandInfo.addPlayerMove _ h) as [h1|e] eqn:Hadd; cbn;
    [|trick_leaf Hok].
  apply IH. intros h0 E. cbn in E. inversion E; subst h0.
  eapply addPlayerMove_wellFormed; [|exact Hadd]. apply Hok. reflexivity.
Qed.

Lemma askPlayers_trickOk `{Rules} (s : GameServer.t) (r : Res unit)
    (s' : GameServer.t) :
  trickOk s ->
  GameServer.askPlayers s = Some (r, s') ->
  trickOk s'.
Proof.
  intros Hok. unfold GameServer.askPlayers. destruct s as [ps wr cg sk hnd].
  step. destruct cg as [g|]; cbn; [|trick_leaf Hok].
  destruct (GameServer.askLoop _ _ _) as [[[[]|e] s1]|] eqn:Hloop;
    [| |discriminate]; apply askLoop_trickOk in Hloop; [|exact Hok| |exact Hok];
    clear Hok; rename Hloop into Hok; [|trick_leaf Hok].
  destruct s1 as [ps1 wr1 cg1 sk1 hnd1]. cbn.
  destruct hnd1 as [h1|]; cbn; [|trick_leaf Hok].
  destruct (HandInfo.isComplete h1); cbn; [|trick_leaf Hok].
  destruct (HandInfo.decideWinner h1 _); cbn; [|trick_leaf Hok].
  destruct sk1 as [sk0|]; cbn; [|trick_leaf Hok].
  destruct cg1 as [g1|]; cbn; [|trick_leaf Hok].
  destruct (CardGame.changePlayingOrder _ g1); cbn; [|trick_leaf Hok].
  destruct wr1; cbn; trick_leaf Hok.
Qed.

Lemma report_trickOk {A} (e : Exn) (s : GameServer.t) (r : Res A)
    (s' : GameServer.t) :
  trickOk s -> GameServer.report e s = Some (r, s') -> trickOk s'.
Proof.
  intros Hok Hrep. apply report_inv in Hrep as (_ & _ & _ & _ & Hh).
  intros h0 Hh0. apply Hok. congruence.
Qed.

Lemma tryExcept_report_trickOk (body : M GameServer.t unit)
    (s : GameServer.t) :
  (exists r1 s1, body s = Some (r1, s1) /\ trickOk s1) ->
  exists r s',
    tryExcept body GameServer.report s = Some (r, s') /\ trickOk s'.
Proof.
  intros (r1 & s1 & Hb & Hok). unfold tryExcept. rewrite Hb.
  destruct r1 as [a|e]; [eauto|].
  destruct (report_returns (A:=unit) e s1) as (r & s' & Hrep).
  exists r, s'. split; [exact Hrep|]. eapply report_trickOk; eauto.
Qed.

Lemma makeMove_trickOk `{Rules} (req : Request) (s : GameServer.t) :
  trickOk s ->
  exists r s', GameServer.makeMove req s = Some (r, s') /\ trickOk s'.
Proof.
  intros Hok. unfold GameServer.makeMove. apply tryExcept_report_trickOk.
  destruct s as [ps wr cg sk hnd]. unfold GameServer.field. step.
  destruct cg as [g|]; cbn; [|eauto].
  destruct (req !! "playerId") as [playerId|]; cbn; [|eauto].
  destruct (CardGame.getPlayerById playerId g) as [player|e]; cbn; [|eauto].
  destruct (req !! "suit") as [suit|]; cbn; [|eauto].
  destruct (req !! "rank") as [rank|]; cbn; [|eauto].
  destruct hnd as [h|]; cbn; [|eauto].
  destruct (HandInfo.validatePlayerMove _ _ _ _); cbn.
  - destruct (HandInfo.addPlayerMove _ h) as [h1|e] eqn:Hadd; cbn; [|eauto].
    destruct (Player.removeCard _ player) as [player'|e]; cbn.
    2:{ do 2 eexists. split; [reflexivity|]. intros h0 E. cbn in E.
        inversion E; subst h0.
        eapply addPlayerMove_wellFormed; [|exact Hadd]. apply Hok.
        reflexivity. }
    match goal with
    | |- context [GameServer.askPlayers ?s2] =>
        assert (trickOk s2) as Hok2
    end.
    { intros h0 E. cbn in E. inversion E; subst h0.
      eapply addPlayerMove_wellFormed; [|exact Hadd]. apply Hok.
      reflexivity. }
    destruct (askPlayers_returns _ Hok2) as (r & s' & Hask).
    exists r, s'. split; [exact Hask|].
    eapply askPlayers_trickOk; eauto.
  - destruct wr; cbn; do 2 eexists; (split; [reflexivity|]); exact Hok.
Qed.

Lemma isReady_trickOk `{Rules} (req : Request) (s : GameServer.t) :
  trickOk s ->
  exists r s', GameServer.isReady req s = Some (r, s') /\ trickOk s'.
Proof.
  intros Hok. unfold GameServer.isReady. apply tryExcept_report_trickOk.
  destruct s as [ps wr cg sk hnd]. step.
  destruct sk as [sk0|]; cbn; [|eauto].
  destruct (ScoreKeeper.isGameDecided sk0); cbn.
  - destruct (ScoreKeeper.getWinningTeam sk0) as [team|e]; cbn; [|eauto].
    destruct cg as [g|]; cbn; [|eauto].
    destruct wr; cbn; do 2 eexists; (split; [reflexivity|]); exact Hok.
  - match goal with
    | |- context [GameServer.askPlayers ?s2] =>
        assert (trickOk s2) as Hok2
    end.
    { intros h0 E. cbn in E. inversion E; subst h0.
      unfold wellFormed, HandInfo.numPlayers. cbn. lia. }
    destruct (askPlayers_returns _ Hok2) as (r & s' & Hask).
    exists r, s'. split; [exact Hask|].
    eapply askPlayers_trickOk; eauto.
Qed.

Lemma onServer_trickOk (m : M GameServer.t unit) (hd : MessageHandler.t) :
  (exists r s', m (MessageHandler.gameServer hd) = Some (r, s')
                /\ trickOk s') ->
  exists r hd',
    MessageHandler.onServer m hd = Some (r, hd')
    /\ trickOk (MessageHandler.gameServer hd').
Proof.
  intros (r & s' & Hm & Hok). unfold MessageHandler.onServer. rewrite Hm.
  eauto.
Qed.

Lemma loopless_trickOk `{Rules} (env : Env) (req : Request)
    (s : GameServer.t) (m : M GameServer.t unit) :
  trickOk s ->
  m = GameServer.startGame env req \/ m = GameServer.nextGame env req
  \/ m = GameServer.dealFirstCards req \/ m = GameServer.chooseTrump req ->
  exists r s', m s = Some (r, s') /\ trickOk s'.
Proof.
  intros Hok Hm.
  destruct (loopless_returns env req s) as (H1 & H2 & H3 & H4).
  assert (exists r s', m s = Some (r, s')) as (r & s' & Hrun)
    by (destruct Hm as [-> | [-> | [-> | ->]]]; assumption).
  exists r, s'. split; [exact Hrun|].
  assert (GameServer.hand s' = GameServer.hand s) as Hh.
  { apply (trick_frame env req s r s').
    destruct Hm as [-> | [-> | [-> | ->]]]; auto. }
  intros h0 Hh0. apply Hok. congruence.
Qed.

(** ** The handler of the socket *)

Lemma call_errorLog `{Rules} `{Runtime} (env : Env) (methodName : string)
    (req : Request) (hd : MessageHandler.t) (r : Res unit)
    (hd' : MessageHandler.t) :
  MessageHandler.call env methodName req hd = Some (r, hd') ->
  MessageHandler.errorLog hd' = MessageHandler.errorLog hd.
Proof.
  assert (forall m, MessageHandler.onServer m hd = Some (r, hd') ->
            MessageHandler.errorLog hd' = MessageHandler.errorLog hd) as Hon.
  { intros m. unfold MessageHandler.onServer.
    destruct (m _) as [[r0 s0]|]; [|discriminate].
    intros E. inversion E; subst. reflexivity. }
  unfold MessageHandler.call.
  repeat (case_bool_decide; [first [apply Hon | idtac]|]);
    unfold ret, raise, liftRes; try (intros E; inversion E; subst; reflexivity).
  destruct (callObjectAttr methodName); intros E; inversion E; subst;
    reflexivity.
Qed.

(** X11.  The error log of the handler records the unknown commands and
    nothing else: a message whose command is a string that [hasattr]
    rejects adds that string, and no other message, whatever it does to the
    server and however it ends, adds anything. *)
Theorem on_message_errorLog `{Rules} `{Runtime} (env : Env) (req : Request)
    (hd : MessageHandler.t) (r : Res unit) (hd' : MessageHandler.t) :
  MessageHandler.on_message env req hd = Some (r, hd') ->
  MessageHandler.errorLog hd'
  = MessageHandler.errorLog hd
      ++ match req !! "command" with
         | Some (JStr methodName) =>
             if MessageHandler.hasattr methodName then [] else [methodName]
         | _ => []
         end.
Proof.
  unfold MessageHandler.on_message.
  destruct (req !! "command") as [[n|methodName]|];
    try (unfold raise; intros E; inversion E; subst; rewrite app_nil_r;
         reflexivity).
  destruct (MessageHandler.hasattr methodName).
  - intros Hcall. apply call_errorLog in Hcall. rewrite app_nil_r.
    exact Hcall.
  - unfold MessageHandler.logError. intros E. inversion E; subst.
    reflexivity.
Qed.

Lemma on_message_errorLog_witness :
  exists r hd',
    @MessageHandler.on_message Demo.rules Demo.runtime Demo.env
      Demo.readyReq MessageHandler.open = Some (r, hd')
    /\ MessageHandler.errorLog hd' = [].
Proof.
  do 2 eexists. split; [vm_compute; reflexivity|].
  apply (@on_message_errorLog Demo.rules Demo.runtime Demo.env
           Demo.readyReq MessageHandler.open (Raise AttributeError)).
  vm_compute. reflexivity.
Defined.

(** Decides the tests of [call] on a name that is known. *)
Ltac dispatch :=
  first [ rewrite bool_decide_eq_true_2 by reflexivity
        | rewrite bool_decide_eq_false_2 by discriminate; dispatch ].

(** A command that names a request method runs that method on the server
    of the handler. *)
Lemma on_message_request_method `{Rules} `{Runtime} (env : Env)
    (req : Request) (methodName : string)
    (hd : MessageHandler.t) (r : Res unit) (hd' : MessageHandler.t) :
  req !! "command" = Some (JStr methodName) ->
  methodName ∈ MessageHandler.requestMethods ->
  MessageHandler.on_message env req hd = Some (r, hd') ->
  handles env req (MessageHandler.gameServer hd) r
    (MessageHandler.gameServer hd').
Proof.
  intros Hcmd Hin. unfold MessageHandler.on_message. rewrite Hcmd.
  assert (MessageHandler.hasattr methodName = true) as ->.
  { unfold MessageHandler.hasattr. apply bool_decide_eq_true_2.
    rewrite !elem_of_app. auto. }
  assert (forall m, MessageHandler.onServer m hd = Some (r, hd') ->
            m (MessageHandler.gameServer hd)
            = Some (r, MessageHandler.gameServer hd')) as Hon.
  { intros m. unfold MessageHandler.onServer.
    destruct (m _) as [[r0 s0]|]; [|discriminate].
    intros E. inversion E; subst. reflexivity. }
  unfold MessageHandler.requestMethods in Hin.
  unfold MessageHandler.call, handles.
  repeat (apply elem_of_cons in Hin as [-> | Hin];
          [dispatch; intros E; apply Hon in E; auto 10|]).
  inversion Hin.
Qed.

(** X12.  ['setWriter'] is an attribute of the server like any other, so a
    message with that command is dispatched: the decoded request takes the
    place of the writer.  From then on nothing reaches the client: every
    message that names a request method ends in [AttributeError] and the
    writer attribute stays what the message made it. *)
Theorem setWriter_command_silences `{Rules} `{Runtime} (env : Env)
    (req : Request) (hd : MessageHandler.t) :
  req !! "command" = Some (JStr "setWriter") ->
  exists hd1,
    MessageHandler.on_message env req hd = Some (Ok tt, hd1)
    /\ MessageHandler.gameServer hd1
       = GameServer.withWriter (NotWriter req) (MessageHandler.gameServer hd)
    /\ forall env2 req2 methodName r hd2,
         req2 !! "command" = Some (JStr methodName) ->
         methodName ∈ MessageHandler.requestMethods ->
         MessageHandler.on_message env2 req2 hd1 = Some (r, hd2) ->
         r = Raise AttributeError
         /\ GameServer.writer (MessageHandler.gameServer hd2) = NotWriter req.
Proof.
  intros Hcmd. eexists. split; [|split].
  - unfold MessageHandler.on_message. rewrite Hcmd.
    assert (MessageHandler.hasattr "setWriter" = true) as ->.
    { unfold MessageHandler.hasattr. apply bool_decide_eq_true_2.
      rewrite !elem_of_app. right; right; left.
      apply (bool_decide_eq_true_1 ("setWriter" ∈ MessageHandler.otherMethods)).
      reflexivity. }
    reflexivity.
  - reflexivity.
  - intros env2 req2 methodName r hd2 Hcmd2 Hin Hrun.
    apply (on_message_request_method _ _ _ _ _ _ Hcmd2 Hin) in Hrun.
    apply handles_replied in Hrun. exact Hrun.
Qed.

Lemma setWriter_command_silences_witness :
  let req := Demo.request [("command", JStr "setWriter")] in
  exists hd1,
    @MessageHandler.on_message Demo.rules Demo.runtime Demo.env req
      (MessageHandler.mk Demo.waiting []) = Some (Ok tt, hd1)
    /\ MessageHandler.gameServer hd1
       = GameServer.withWriter (NotWriter req) Demo.waiting
    /\ forall env2 req2 methodName r hd2,
         req2 !! "command" = Some (JStr methodName) ->
         methodName ∈ MessageHandler.requestMethods ->
         @MessageHandler.on_message Demo.rules Demo.runtime env2 req2 hd1
         = Some (r, hd2) ->
         r = Raise AttributeError
         /\ GameServer.writer (MessageHandler.gameServer hd2) = NotWriter req.
Proof.
  intros req.
  apply (@setWriter_command_silences Demo.rules Demo.runtime Demo.env req
           (MessageHandler.mk Demo.waiting [])).
  vm_compute. reflexivity.
Defined.

(** X13.  No message can break the trick, and no message makes the handler
    loop: on a server whose trick (if it holds one) has at most four moves,
    [on_message] returns for every decoded message, normally or with an
    exception, and the trick of the server afterwards has at most four
    moves again.  The server made by [open] is such a server, so this holds
    after every sequence of messages. *)
Theorem on_message_keeps_trick `{Rules} `{Runtime} (env : Env)
    (req : Request) (hd : MessageHandler.t) :
  trickOk (MessageHandler.gameServer hd) ->
  exists r hd',
    MessageHandler.on_message env req hd = Some (r, hd')
    /\ trickOk (MessageHandler.gameServer hd').
Proof.
  intros Hok. unfold MessageHandler.on_message.
  destruct (req !! "command") as [[n|methodName]|];
    try (unfold raise; eauto).
  destruct (MessageHandler.hasattr methodName).
  2:{ unfold MessageHandler.logError. eauto. }
  unfold MessageHandler.call.
  repeat (case_bool_decide;
          [first [ apply onServer_trickOk;
                   first [ apply (loopless_trickOk env req); [exact Hok|];
                           solve [auto]
                         | apply makeMove_trickOk; exact Hok
                         | apply isReady_trickOk; exact Hok
                         | do 2 eexists; split; [reflexivity|]; exact Hok ]
                 | unfold ret, raise; eauto ]|]).
  unfold liftRes. destruct (callObjectAttr methodName); eauto.
Qed.

Lemma on_message_keeps_trick_witness :
  exists r hd',
    @MessageHandler.on_message Demo.rules Demo.runtime Demo.env
      (Demo.moveReq Demo.S1 (JNum 7)) (MessageHandler.mk Demo.waiting [])
    = Some (r, hd')
    /\ trickOk (MessageHandler.gameServer hd').
Proof.
  apply (@on_message_keeps_trick Demo.rules Demo.runtime Demo.env
           (Demo.moveReq Demo.S1 (JNum 7))
           (MessageHandler.mk Demo.waiting [])).
  intros h Hh. vm_compute in Hh. inversion Hh; subst h.
  unfold wellFormed. vm_compute. lia.
Defined.

(** ** After the last trick *)

(** X14.  While the score keeper reports the match decided, ['isReady']
    only announces the decision.  It starts no trick and changes no score,
    and sending it again gives the same ['gameDecided'] message. *)
Theorem isReady_decided_repeats `{Rules} (req req' : Request)
    (s : GameServer.t) (sk : ScoreKeeper.t) (g : CardGame.t)
    (w : MessageWriter.t) :
  GameServer.scores s = Some sk ->
  GameServer.cardGame s = Some g ->
  GameServer.writer s = IsWriter w ->
  ScoreKeeper.isGameDecided sk = true ->
  exists winningTeam s1 s2,
    GameServer.isReady req s = Some (Ok tt, s1)
    /\ GameServer.isReady req' s1 = Some (Ok tt, s2)
    /\ GameServer.outbox s2
       = GameServer.outbox s
           ++ [gameDecidedMsg (ScoreKeeper.getScores sk) winningTeam;
               gameDecidedMsg (ScoreKeeper.getScores sk) winningTeam]
    /\ GameServer.scores s2 = Some sk
    /\ GameServer.hand s2 = GameServer.hand s.
Proof.
  destruct s as [ps wr cg sk0 hnd]. simpl. intros -> -> -> Hdec.
  destruct (isGameDecided_getWinningTeam sk Hdec) as (team & Hteam & _).
  exists team. unfold GameServer.isReady. step.
  rewrite Hdec. cbn. rewrite Hteam. cbn.
  do 2 eexists. split; [reflexivity|]. cbn. rewrite Hdec. cbn.
  rewrite Hteam. cbn. split; [reflexivity|]. cbn.
  rewrite <- app_assoc. repeat split.
Qed.

Lemma isReady_decided_repeats_witness :
  exists winningTeam s1 s2,
    @GameServer.isReady Demo.rules Demo.readyReq Demo.decided
    = Some (Ok tt, s1)
    /\ @GameServer.isReady Demo.rules Demo.readyReq s1 = Some (Ok tt, s2)
    /\ GameServer.outbox s2
       = GameServer.outbox Demo.decided
           ++ [gameDecidedMsg
                 (ScoreKeeper.getScores (Demo.keeperOf Demo.decided))
                 winningTeam;
               gameDecidedMsg
                 (ScoreKeeper.getScores (Demo.keeperOf Demo.decided))
                 winningTeam]
    /\ GameServer.scores s2 = Some (Demo.keeperOf Demo.decided)
    /\ GameServer.hand s2 = GameServer.hand Demo.decided.
Proof.
  apply (@isReady_decided_repeats Demo.rules Demo.readyReq Demo.readyReq
           Demo.decided (Demo.keeperOf Demo.decided)
           (Demo.gameOf Demo.decided) (Demo.writerOf Demo.decided));
    vm_compute; reflexivity.
Defined.

(** ** Crediting a trick *)

(** The scores after a step: untouched, or credited once with a trick that
    is complete. *)
Ltac credit_leaf :=
  let E := fresh "E" in
  intros E;
  first [ discriminate E
        | inversion E; subst; clear E; cbn;
          first [ left; reflexivity
                | right; do 3 eexists; repeat split; eassumption ] ].

Lemma askLoop_scores (fuel : nat) (trumpSuit : option JVal)
    (s : GameServer.t) (r : Res unit) (s' : GameServer.t) :
  GameServer.askLoop fuel trumpSuit s = Some (r, s') ->
  GameServer.scores s' = GameServer.scores s.
Proof.
  revert s. induction fuel as [|fuel IH]; intros [ps wr cg sk hnd];
    [discriminate|].
  rewrite askLoop_S. step.
  destruct hnd as [h|]; cbn; [|hand_leaf].
  destruct (HandInfo.isComplete h); cbn; [hand_leaf|].
  destruct cg as [g|]; cbn; [|hand_leaf].
  destruct (CardGame.getNextPlayer _ g) as [player|e]; cbn; [|hand_leaf].
  destruct (Player.isHuman player); cbn.
  { destruct wr; cbn; hand_leaf. }
  destruct (AutomatedPlayer.getNextMove player h trumpSuit) as [mv|e]; cbn;
    [|hand_leaf].
  destruct (HandInfo.addPlayerMove _ h) as [h1|e]; cbn; [|hand_leaf].
  intros Hrun. apply IH in Hrun. exact Hrun.
Qed.

Lemma askPlayers_credit `{Rules} (s : GameServer.t) (r : Res unit)
    (s' : GameServer.t) :
  GameServer.askPlayers s = Some (r, s') ->
  GameServer.scores s' = GameServer.scores s
  \/ exists h' winningPlayer sk,
       GameServer.hand s' = Some h'
       /\ HandInfo.isComplete h' = true
       /\ GameServer.scores s = Some sk
       /\ GameServer.scores s'
          = Some (ScoreKeeper.registerWin winningPlayer sk).
Proof.
  unfold GameServer.askPlayers. destruct s as [ps wr cg sk hnd].
  step. destruct cg as [g|]; cbn; [|credit_leaf].
  destruct (GameServer.askLoop _ _ _) as [[[[]|e] s1]|] eqn:Hloop;
    [| |discriminate]; apply askLoop_scores in Hloop; cbn in Hloop.
  2:{ intros E. inversion E; subst. left. reflexivity. }
  destruct s1 as [ps1 wr1 cg1 sk1 hnd1]. cbn in Hloop. subst sk1. cbn.
  destruct hnd1 as [h1|]; cbn; [|credit_leaf].
  destruct (HandInfo.isComplete h1) eqn:Hc; cbn; [|credit_leaf].
  destruct (HandInfo.decideWinner h1 _); cbn; [|credit_leaf].
  destruct sk as [sk0|]; cbn; [|credit_leaf].
  destruct cg1 as [g1|]; cbn;
    [|intros E; inversion E; subst; cbn; right; eauto 10].
  destruct (CardGame.changePlayingOrder _ g1); cbn;
    [|intros E; inversion E; subst; cbn; right; eauto 10].
  destruct wr1; cbn; intros E; inversion E; subst; cbn; right; eauto 10.
Qed.

(** X15.  A request credits at most one trick, and only a complete one.
    After ['makeMove'] or ['isReady'], however the call ends, either the
    scores are the ones the server had before, or the trick of the server
    is complete and the score keeper is the earlier one with one win
    registered. *)
Theorem trick_credited_once `{Rules} (req : Request)
    (s : GameServer.t) (r : Res unit) (s' : GameServer.t) :
  GameServer.makeMove req s = Some (r, s')
  \/ GameServer.isReady req s = Some (r, s') ->
  GameServer.scores s' = GameServer.scores s
  \/ exists h' winningPlayer sk,
       GameServer.hand s' = Some h'
       /\ HandInfo.isComplete h' = true
       /\ GameServer.scores s = Some sk
       /\ GameServer.scores s'
          = Some (ScoreKeeper.registerWin winningPlayer sk).
Proof.
  assert (forall (body : M GameServer.t unit) s0,
            (forall r1 s1, body s0 = Some (r1, s1) ->
               GameServer.scores s1 = GameServer.scores s0
               \/ exists h' winningPlayer sk,
                    GameServer.hand s1 = Some h'
                    /\ HandInfo.isComplete h' = true
                    /\ GameServer.scores s0 = Some sk
                    /\ GameServer.scores s1
                       = Some (ScoreKeeper.registerWin winningPlayer sk)) ->
            tryExcept body GameServer.report s0 = Some (r, s') ->
            GameServer.scores s' = GameServer.scores s0
            \/ exists h' winningPlayer sk,
                 GameServer.hand s' = Some h'
                 /\ HandInfo.isComplete h' = true
                 /\ GameServer.scores s0 = Some sk
                 /\ GameServer.scores s'
                    = Some (ScoreKeeper.registerWin winningPlayer sk)) as Htry.
  { intros body s0 Hbody. unfold tryExcept.
    destruct (body s0) as [[[[]|e] s1]|] eqn:Hb; [| |discriminate].
    - intros E. inversion E; subst. eapply Hbody; reflexivity.
    - intros Hrep. apply report_inv in Hrep as (_ & _ & _ & Hsk & Hh).
      rewrite Hsk, Hh. eapply Hbody; reflexivity. }
  intros [Hrun|Hrun]; revert Hrun.
  - unfold GameServer.makeMove. apply Htry. clear Htry.
    intros r1 s1. destruct s as [ps wr cg sk hnd].
    unfold GameServer.field. step.
    destruct cg as [g|]; cbn; [|credit_leaf].
    destruct (req !! "playerId") as [playerId|]; cbn; [|credit_leaf].
    destruct (CardGame.getPlayerById playerId g) as [player|e]; cbn;
      [|credit_leaf].
    destruct (req !! "suit") as [suit|]; cbn; [|credit_leaf].
    destruct (req !! "rank") as [rank|]; cbn; [|credit_leaf].
    destruct hnd as [h|]; cbn; [|credit_leaf].
    destruct (HandInfo.validatePlayerMove _ _ _ _); cbn.
    + destruct (HandInfo.addPlayerMove _ h) as [h1|e]; cbn; [|credit_leaf].
      destruct (Player.removeCard _ player) as [player'|e]; cbn;
        [|credit_leaf].
      intros Hask. apply askPlayers_credit in Hask. exact Hask.
    + destruct wr; cbn; credit_leaf.
  - unfold GameServer.isReady. apply Htry. clear Htry.
    intros r1 s1. destruct s as [ps wr cg sk hnd]. step.
    destruct sk as [sk0|]; cbn; [|credit_leaf].
    destruct (ScoreKeeper.isGameDecided sk0); cbn.
    + destruct (ScoreKeeper.getWinningTeam sk0) as [team|e]; cbn;
        [|credit_leaf].
      destruct cg as [g|]; cbn; [|credit_leaf].
      destruct wr; cbn; credit_leaf.
    + intros Hask. apply askPlayers_credit in Hask. exact Hask.
Qed.

Lemma trick_credited_once_witness :
  GameServer.scores Demo.resolved = GameServer.scores Demo.waiting
  \/ exists h' winningPlayer sk,
       GameServer.hand Demo.resolved = Some h'
       /\ HandInfo.isComplete h' = true
       /\ GameServer.scores Demo.waiting = Some sk
       /\ GameServer.scores Demo.resolved
          = Some (@ScoreKeeper.registerWin Demo.rules winningPlayer sk).
Proof.
  apply (@trick_credited_once Demo.rules (Demo.moveReq Demo.S1 (JNum 7))
           Demo.waiting (Ok tt) Demo.resolved).
  left. vm_compute. reflexivity.
Defined.

(** ** Names that serve no request *)

(** X16.  The names of the server that are not request methods pass the
    [hasattr] test of [on_message] but serve no request.  A message whose
    command is ['askPlayers'], ['__init__'] or one of the five data
    attributes raises [TypeError]; the command ['createPlayers'] returns
    normally.  In every case the server is left as it was: nothing is sent,
    not even an error report, and nothing is logged. *)
Theorem on_message_not_a_request `{Rules} `{Runtime} (env : Env)
    (req : Request) (methodName : string) (hd : MessageHandler.t) :
  req !! "command" = Some (JStr methodName) ->
  methodName ∈ "createPlayers" :: "askPlayers" :: "__init__"
                 :: MessageHandler.dataAttrs ->
  MessageHandler.on_message env req hd
  = Some (if bool_decide (methodName = "createPlayers")
          then Ok tt else Raise TypeError,
          hd).
Proof.
  intros Hcmd Hin. unfold MessageHandler.on_message. rewrite Hcmd.
  assert (MessageHandler.hasattr methodName = true) as ->.
  { unfold MessageHandler.hasattr. apply bool_decide_eq_true_2.
    rewrite !elem_of_app. unfold MessageHandler.dataAttrs in Hin.
    repeat (apply elem_of_cons in Hin as [-> | Hin];
            [first [ left;
                     apply (bool_decide_eq_true_1 (_ ∈ MessageHandler.dataAttrs));
                     reflexivity
                   | right; right; left;
                     apply (bool_decide_eq_true_1
                              (_ ∈ MessageHandler.otherMethods));
                     reflexivity ]|]).
    inversion Hin. }
  unfold MessageHandler.dataAttrs in Hin.
  repeat (apply elem_of_cons in Hin as [-> | Hin]; [reflexivity|]).
  inversion Hin.
Qed.

Lemma on_message_not_a_request_witness :
  @MessageHandler.on_message Demo.rules Demo.runtime Demo.env
    (Demo.request [("command", JStr "askPlayers")])
    (MessageHandler.mk Demo.waiting [])
  = Some (Raise TypeError, MessageHandler.mk Demo.waiting []).
Proof.
  apply (@on_message_not_a_request Demo.rules Demo.runtime Demo.env
           (Demo.request [("command", JStr "askPlayers")]) "askPlayers"
           (MessageHandler.mk Demo.waiting [])).
  - vm_compute. reflexivity.
  - apply (bool_decide_eq_true_1
             ("askPlayers" ∈ "createPlayers" :: "askPlayers" :: "__init__"
                                :: MessageHandler.dataAttrs)).
    vm_compute. reflexivity.
Defined.
